(** * Causal Network Scholar: the ingestion pipeline, the model round trips
      and the proxy endpoint, embedded and verified

    The development follows the repository file by file:
    - [JS]            what the code takes from the JavaScript runtime: strings as
                      sequences of UTF-16 code units, dynamically typed values,
                      exceptions and promises;
    - [GeminiService] services/geminiService.ts;
    - [GeminiProxy]   netlify/functions/gemini-proxy.js;
    - [App]           App.tsx (the upload pipeline, [handleFileChange]);
    - [ClusterPanel]  components/ClusterPanel.tsx (the handlers that edit the
                      concept clusters);
    - [Analysis]      App.tsx ([handleAnalysis], [handleGenerateNewTopics]).

    Remote services and library calls (the generative model, [fetch], pdf.js,
    mammoth, Tesseract, [JSON.parse], [Date.now]) are inputs of the model: section
    variables or fields of the records the functions receive. *)

From Stdlib Require Import String Ascii.
From Stdlib Require Import List Bool Arith NArith ZArith Lia Permutation.
From Stdlib Require Decimal DecimalN.
Import ListNotations.

Set Implicit Arguments.
Set Warnings "-register-all,-abstract-large-number".


(* ================================================================== *)
(** * The JavaScript runtime, as far as the code relies on it *)
(* ================================================================== *)

Module JS.

Local Open Scope N_scope.

(** A JavaScript string is a sequence of UTF-16 code units; [length], [trim],
    [startsWith] and regular expressions without the [u] flag all work on code
    units. *)
Definition jsstring := list N.

Definition unit_eqb : N -> N -> bool := N.eqb.

Fixpoint str_eqb (a b : jsstring) : bool :=
  match a, b with
  | [], [] => true
  | x :: a', y :: b' => unit_eqb x y && str_eqb a' b'
  | _, _ => false
  end.

(** Source literals are written as Rocq strings, whose bytes are the UTF-8
    encoding of the text; [utf16_of_utf8] turns them into code units. *)
Fixpoint utf16_of_utf8 (bs : list N) : jsstring :=
  match bs with
  | [] => []
  | b1 :: r1 =>
    if b1 <? 128 then b1 :: utf16_of_utf8 r1
    else if b1 <? 224 then
      match r1 with
      | b2 :: r2 => ((b1 mod 32) * 64 + b2 mod 64) :: utf16_of_utf8 r2
      | [] => [b1]
      end
    else if b1 <? 240 then
      match r1 with
      | b2 :: b3 :: r3 =>
        ((b1 mod 16) * 4096 + (b2 mod 64) * 64 + b3 mod 64) :: utf16_of_utf8 r3
      | _ => [b1]
      end
    else
      match r1 with
      | b2 :: b3 :: b4 :: r4 =>
        let cp := (b1 mod 8) * 262144 + (b2 mod 64) * 4096
                  + (b3 mod 64) * 64 + b4 mod 64 in
        let v := cp - 65536 in
        (55296 + v / 1024) :: (56320 + v mod 1024) :: utf16_of_utf8 r4
      | _ => [b1]
      end
  end.

Definition js (s : string) : jsstring :=
  utf16_of_utf8 (map N_of_ascii (list_ascii_of_string s)).

Arguments js s%_string : simpl never.

(** ** Whitespace and [String.prototype.trim]

    [\s] in a regular expression and [trim] use the same set: WhiteSpace and
    LineTerminator of ECMA-262. *)
Definition is_space (c : N) : bool :=
  ((9 <=? c) && (c <=? 13)) || (c =? 32) || (c =? 160) || (c =? 5760)
  || ((8192 <=? c) && (c <=? 8202)) || (c =? 8232) || (c =? 8233)
  || (c =? 8239) || (c =? 8287) || (c =? 12288) || (c =? 65279).

Fixpoint trimStart (s : jsstring) : jsstring :=
  match s with
  | c :: s' => if is_space c then trimStart s' else s
  | [] => []
  end.

Definition trimEnd (s : jsstring) : jsstring := rev (trimStart (rev s)).

Definition trim (s : jsstring) : jsstring := trimEnd (trimStart s).

(** ** [startsWith], [endsWith] *)
Fixpoint startsWith (s prefix : jsstring) {struct prefix} : bool :=
  match prefix, s with
  | [], _ => true
  | p :: prefix', c :: s' => unit_eqb c p && startsWith s' prefix'
  | _ :: _, [] => false
  end.

Definition endsWith (s suffix : jsstring) : bool :=
  startsWith (rev s) (rev suffix).

(** ** Numbers in template literals

    [Date.now()], an array index and an HTTP status are non-negative integers;
    a template literal renders them in decimal. *)
Definition digit_unit (d : N) : N := 48 + d.

Fixpoint uint_units (u : Decimal.uint) : jsstring :=
  match u with
  | Decimal.Nil => []
  | Decimal.D0 u' => digit_unit 0 :: uint_units u'
  | Decimal.D1 u' => digit_unit 1 :: uint_units u'
  | Decimal.D2 u' => digit_unit 2 :: uint_units u'
  | Decimal.D3 u' => digit_unit 3 :: uint_units u'
  | Decimal.D4 u' => digit_unit 4 :: uint_units u'
  | Decimal.D5 u' => digit_unit 5 :: uint_units u'
  | Decimal.D6 u' => digit_unit 6 :: uint_units u'
  | Decimal.D7 u' => digit_unit 7 :: uint_units u'
  | Decimal.D8 u' => digit_unit 8 :: uint_units u'
  | Decimal.D9 u' => digit_unit 9 :: uint_units u'
  end.

Definition decimal (n : N) : jsstring := uint_units (N.to_uint n).

Definition is_digit (c : N) : bool := (48 <=? c) && (c <=? 57).

(** The code unit of [-], which the identifiers put before a number. *)
Definition dash : N := 45.

(** An identifier stamped with a number below [bound]: a text, a dash, and the
    number in decimal. *)
Definition stamped_before (bound : N) (id : jsstring) : Prop :=
  exists text t, id = text ++ dash :: decimal t /\ t < bound.

Definition is_empty (s : jsstring) : bool :=
  match s with [] => true | _ :: _ => false end.

(** ** Exceptions and results

    A thrown value is an [Error] carrying its [message] (a [SyntaxError] of
    [JSON.parse] and the rejections of the libraries are of this kind), or a
    [TypeError] raised by the engine itself (a property read on [null], a call
    of something that is no function); the text of the latter is the engine's. *)
Inductive exn :=
| Error (message : jsstring)
| TypeError.

Inductive result (A : Type) :=
| Ok (a : A)
| Throw (e : exn).

Arguments Ok {A} a.
Arguments Throw {A} e.

Definition try_catch {A} (body : result A) (handler : exn -> result A) : result A :=
  match body with
  | Ok a => Ok a
  | Throw e => handler e
  end.

Class Monad (m : Type -> Type) := {
  ret : forall {A}, A -> m A;
  bind : forall {A B}, m A -> (A -> m B) -> m B
}.

#[export] Instance result_monad : Monad result := {
  ret := fun A a => Ok a;
  bind := fun A B c k => match c with Ok a => k a | Throw e => Throw e end
}.

(** ** Values

    What [JSON.parse] returns, and [undefined]. A number is represented by its
    rendering under [Number.prototype.toString]: truthiness, [SameValueZero] and
    string conversion, the only operations the code applies to a number it did
    not create, are functions of that rendering. An object is the list of its own
    properties in creation order, keys pairwise distinct. *)
Inductive value :=
| VUndefined
| VNull
| VBool (b : bool)
| VNum (repr : jsstring)
| VStr (s : jsstring)
| VArr (items : list value)
| VObj (props : list (jsstring * value)).

(** [ToBoolean]. *)
Definition truthy (v : value) : bool :=
  match v with
  | VUndefined | VNull => false
  | VBool b => b
  | VNum r => negb (str_eqb r (js "0") || str_eqb r (js "NaN"))
  | VStr s => negb (is_empty s)
  | VArr _ | VObj _ => true
  end.

(** [a || b] on values. *)
Definition or_else (a b : value) : value := if truthy a then a else b.

Fixpoint lookup {V} (k : jsstring) (props : list (jsstring * V)) : option V :=
  match props with
  | [] => None
  | (k', v) :: rest => if str_eqb k' k then Some v else lookup k rest
  end.

(** The property read [v.k], for the names the code reads ([nodes], [links],
    [concepts], [id], [isCore], [source], [target], [name], [variables],
    [prompt]): none of them is inherited from a prototype, so a primitive, an
    array, or an object without the key gives [undefined]. *)
Definition get_prop (v : value) (k : jsstring) : result value :=
  match v with
  | VUndefined | VNull => Throw TypeError
  | VObj props =>
    match lookup k props with Some x => Ok x | None => Ok VUndefined end
  | _ => Ok VUndefined
  end.

(** [SameValueZero], the key equality of [Map] and [Set]. Objects and arrays are
    compared by identity; the keys the code inserts and the keys it looks up
    come from different places of one parsed response, so no two of them are the
    same object. *)
Definition same_value_zero (a b : value) : bool :=
  match a, b with
  | VUndefined, VUndefined => true
  | VNull, VNull => true
  | VBool x, VBool y => Bool.eqb x y
  | VNum x, VNum y => str_eqb x y
  | VStr x, VStr y => str_eqb x y
  | _, _ => false
  end.

(** [ToString], as a template literal applies it. An array is joined with [,],
    [null] and [undefined] elements rendered empty; a plain object is
    [[object Object]], unless it has an own [toString] property, which (parsed
    from JSON) is no function: then no conversion remains and the engine throws. *)
Definition comma : N := 44.

Fixpoint to_string (v : value) : result jsstring :=
  match v with
  | VUndefined => Ok (js "undefined")
  | VNull => Ok (js "null")
  | VBool true => Ok (js "true")
  | VBool false => Ok (js "false")
  | VNum r => Ok r
  | VStr s => Ok s
  | VArr items =>
    (fix join (l : list value) : result jsstring :=
       match l with
       | [] => Ok []
       | x :: l' =>
         match (match x with
                | VUndefined | VNull => Ok []
                | _ => to_string x
                end) with
         | Throw e => Throw e
         | Ok s =>
           match l' with
           | [] => Ok s
           | _ :: _ =>
             match join l' with
             | Throw e => Throw e
             | Ok r => Ok (s ++ comma :: r)
             end
           end
         end
       end) items
  | VObj props =>
    match lookup (js "toString") props with
    | Some _ => Throw TypeError
    | None => Ok (js "[object Object]")
    end
  end.

(** ** Arrays: [Array.isArray], [forEach], [map], [filter]

    Called on anything but an array, the method is missing and the call throws. *)
Definition isArray (v : value) : bool :=
  match v with VArr _ => true | _ => false end.

Definition array_items (v : value) : result (list value) :=
  match v with
  | VArr items => Ok items
  | _ => Throw TypeError
  end.

Fixpoint fold_result {S X} (f : S -> X -> result S) (l : list X) (s : S) : result S :=
  match l with
  | [] => Ok s
  | x :: l' => match f s x with Ok s' => fold_result f l' s' | Throw e => Throw e end
  end.

Fixpoint map_result {X Y} (f : X -> result Y) (l : list X) : result (list Y) :=
  match l with
  | [] => Ok []
  | x :: l' =>
    match f x with
    | Throw e => Throw e
    | Ok y => match map_result f l' with Ok ys => Ok (y :: ys) | Throw e => Throw e end
    end
  end.

Fixpoint mapi_result {X Y} (f : X -> nat -> result Y) (i : nat) (l : list X)
  : result (list Y) :=
  match l with
  | [] => Ok []
  | x :: l' =>
    match f x i with
    | Throw e => Throw e
    | Ok y =>
      match mapi_result f (S i) l' with Ok ys => Ok (y :: ys) | Throw e => Throw e end
    end
  end.

Fixpoint filter_result {X} (f : X -> result bool) (l : list X) : result (list X) :=
  match l with
  | [] => Ok []
  | x :: l' =>
    match f x with
    | Throw e => Throw e
    | Ok b =>
      match filter_result f l' with
      | Ok xs => Ok (if b then x :: xs else xs)
      | Throw e => Throw e
      end
    end
  end.

(** ** [Map] and [Set] keyed by values *)
Definition jsmap (V : Type) := list (value * V).

Fixpoint map_set {V} (k : value) (v : V) (m : jsmap V) : jsmap V :=
  match m with
  | [] => [(k, v)]
  | (k', v') :: m' =>
    if same_value_zero k' k then (k', v) :: m' else (k', v') :: map_set k v m'
  end.

Fixpoint map_get {V} (k : value) (m : jsmap V) : option V :=
  match m with
  | [] => None
  | (k', v') :: m' => if same_value_zero k' k then Some v' else map_get k m'
  end.

(** [new Map(entries)] *)
Definition Map_of {V} (entries : list (value * V)) : jsmap V :=
  fold_left (fun m kv => map_set (fst kv) (snd kv) m) entries [].

Definition jsset := list value.

Definition set_has (s : jsset) (k : value) : bool :=
  existsb (fun k' => same_value_zero k' k) s.

Definition set_add (k : value) (s : jsset) : jsset :=
  if set_has s k then s else s ++ [k].

(** [new Set(items)] *)
Definition Set_of (items : list value) : jsset :=
  fold_left (fun s k => set_add k s) items [].

(** ** Promises under a deadline

    How a promise settles, counted in milliseconds from the moment it is
    awaited: fulfilled with a value after [at_ms], rejected after [at_ms] with
    a reason that carries [message] (empty when the reason has none), or
    never. *)
Inductive promise (A : Type) :=
| Fulfilled (at_ms : N) (v : A)
| Rejected (at_ms : N) (message : jsstring)
| Pending.

Arguments Fulfilled {A} at_ms v.
Arguments Rejected {A} at_ms message.
Arguments Pending {A}.

(** ** [Array.prototype.join]

    The elements are converted in order; [null] and [undefined] render empty. *)
Fixpoint array_join (sep : jsstring) (items : list value) : result jsstring :=
  match items with
  | [] => Ok []
  | x :: rest =>
    match (match x with
           | VUndefined | VNull => Ok []
           | _ => to_string x
           end) with
    | Throw e => Throw e
    | Ok s =>
      match rest with
      | [] => Ok s
      | _ :: _ =>
        match array_join sep rest with
        | Throw e => Throw e
        | Ok r => Ok (s ++ sep ++ r)
        end
      end
    end
  end.

(** ** Strict equality, [a === b]

    Primitives are compared by value, [NaN] differing from itself. Two objects
    or arrays are equal only when they are one and the same object, which a
    value does not record: the comparison is used on identifiers, which the
    interfaces declare as strings, and the facts proved about it are stated for
    strings. *)
Definition strict_equals (a b : value) : bool :=
  match a, b with
  | VUndefined, VUndefined => true
  | VNull, VNull => true
  | VBool x, VBool y => Bool.eqb x y
  | VNum x, VNum y => str_eqb x y && negb (str_eqb x (js "NaN"))
  | VStr x, VStr y => str_eqb x y
  | _, _ => false
  end.

(** ** [Array.prototype.splice], on indices that are array positions

    [splice l start deleteCount items] is the array afterwards and the array
    of the elements removed; a [start] beyond the end counts as the end. *)
Definition splice {X} (l : list X) (start deleteCount : nat) (items : list X)
  : list X * list X :=
  let from := Nat.min start (length l) in
  (firstn from l ++ items ++ skipn (from + deleteCount)%nat l,
   firstn deleteCount (skipn from l)).

(** ** [Set.prototype.delete] *)
Definition set_delete (k : value) (s : jsset) : jsset :=
  filter (fun k' => negb (same_value_zero k' k)) s.

End JS.

(* ================================================================== *)
(** * services/geminiService.ts *)
(* ================================================================== *)

Module GeminiService.
Import JS.

Local Open Scope N_scope.

Notation "x <- c ;; k" := (bind c (fun x => k))
  (at level 61, c at next level, right associativity).

(** ** [detectDominantLanguage] *)
Inductive Lang := en | zh.

(** [/[a-zA-Z]/g] and [/[一-龥]/g]: each match is one code unit. *)
Definition enRegex (c : N) : bool :=
  ((97 <=? c) && (c <=? 122)) || ((65 <=? c) && (c <=? 90)).

Definition zhRegex (c : N) : bool := (19968 <=? c) && (c <=? 40869).

(** [text.match(re)] for a one-unit class with the [g] flag: every match in
    order, or [null] when there is none. *)
Definition match_global (re : N -> bool) (text : jsstring) : option (list jsstring) :=
  match filter re text with
  | [] => None
  | ms => Some (map (fun c => [c]) ms)
  end.

(** [(m || []).length] *)
Definition matches_length (m : option (list jsstring)) : nat :=
  match m with Some ms => length ms | None => 0%nat end.

Definition count_step (acc : nat * nat) (text : jsstring) : nat * nat :=
  let '(enChars, zhChars) := acc in
  if is_empty text then (enChars, zhChars)
  else ((enChars + matches_length (match_global enRegex text))%nat,
        (zhChars + matches_length (match_global zhRegex text))%nat).

Definition detectDominantLanguage (texts : list jsstring) : Lang :=
  let '(enChars, zhChars) := fold_left count_step texts (0%nat, 0%nat) in
  if (enChars + zhChars <? 100)%nat then en
  else if (enChars <? zhChars)%nat then zh else en.

(** ** The regular expression of [parseJsonResponse]

    [/```json\s*([\s\S]*?)\s*```/], matched as the engine does: start positions
    from left to right; after the opening fence a greedy [\s*]; then the lazy
    group, tried from the empty string upwards, each time followed by a greedy
    [\s*] and the closing fence. (Giving back whitespace from a greedy [\s*]
    never lets a later part match, since a fence starts with no whitespace;
    [lazy_capture_skip_space] below is the fact behind it.) The result is the
    group [match[1]], or [None] for [null]. *)
Definition fence : jsstring := js "```".
Definition fence_json : jsstring := js "```json".

Definition closes (s : jsstring) : bool := startsWith (trimStart s) fence.

Fixpoint lazy_capture (s : jsstring) : option jsstring :=
  if closes s then Some []
  else match s with
       | [] => None
       | c :: s' => option_map (cons c) (lazy_capture s')
       end.

Definition match_here (s : jsstring) : option jsstring :=
  if startsWith s fence_json
  then lazy_capture (trimStart (skipn (length fence_json) s))
  else None.

Fixpoint jsonRegex_exec (s : jsstring) : option jsstring :=
  match match_here s with
  | Some group => Some group
  | None => match s with
            | [] => None
            | _ :: s' => jsonRegex_exec s'
            end
  end.

Definition not_valid_json_message : jsstring :=
  js "Response is not valid JSON, even after attempting to clean it.".

Definition incorrect_format_message : jsstring :=
  js "Failed to extract valid data from the text. The response format was incorrect.".

Definition no_topics_message : jsstring :=
  js "Failed to generate valid topic suggestions.".

Section Service.

(** [JSON.parse]: the parsed value, or the [SyntaxError] it throws. *)
Variable JSON_parse : jsstring -> result value.

(** [ai.models.generateContent(...)] followed by [.text]: the model's answer to
    a prompt, or the error of the call. The prompts are template literals over
    the arguments; only the remote model reads them. *)
Variable generateContent : jsstring -> result jsstring.
Variable extractionPrompt : Lang -> list jsstring -> jsstring.

(** ** [parseJsonResponse] ([console.error] has no effect on the result) *)
Definition parseJsonResponse (rawText : jsstring) : result value :=
  try_catch (JSON_parse rawText) (fun e =>
    let throw_not_valid := Throw (Error not_valid_json_message) in
    match jsonRegex_exec rawText with
    | Some group =>
      if negb (is_empty group) then
        try_catch (JSON_parse group) (fun innerError => throw_not_valid)
      else throw_not_valid
    | None => throw_not_valid
    end).

(** ** [extractCausalGraph] *)
Record GraphNode := {
  node_id : value;
  isCore : value;
  group : value
}.

Record GraphData := {
  nodes : list GraphNode;
  links : list value
}.

Record Concept := {
  concept_id : jsstring;
  concept_name : value;
  children : list GraphNode
}.

(** [concepts.forEach(concept => concept.variables.forEach(variable =>
      variableToConceptMap.set(variable, concept.name)))] *)
Definition register_concept (m : jsmap value) (concept : value)
  : result (jsmap value) :=
  variables <- get_prop concept (js "variables") ;;
  items <- array_items variables ;;
  fold_result (fun m variable =>
                 name <- get_prop concept (js "name") ;;
                 ret (map_set variable name m)) items m.

Definition make_node (variableToConceptMap : jsmap value) (node : value)
  : result GraphNode :=
  id <- get_prop node (js "id") ;;
  core <- get_prop node (js "isCore") ;;
  ret {| node_id := id;
         isCore := core;
         group := match map_get id variableToConceptMap with
                  | Some g => or_else g (VStr (js "Default"))
                  | None => VStr (js "Default")
                  end |}.

(** [nodeSet.has(link.source) && nodeSet.has(link.target)] *)
Definition keep_link (nodeSet : jsset) (link : value) : result bool :=
  source <- get_prop link (js "source") ;;
  if set_has nodeSet source then
    target <- get_prop link (js "target") ;;
    ret (set_has nodeSet target)
  else ret false.

Fixpoint defined {X} (l : list (option X)) : list X :=
  match l with
  | [] => []
  | Some x :: l' => x :: defined l'
  | None :: l' => defined l'
  end.

Definition make_concept (nodeMap : jsmap GraphNode) (concept : value) (index : nat)
  : result Concept :=
  name <- get_prop concept (js "name") ;;
  name_text <- to_string name ;;
  variables <- get_prop concept (js "variables") ;;
  items <- array_items variables ;;
  ret {| concept_id := (name_text ++ dash :: decimal (N.of_nat index))%list;
         concept_name := name;
         children := defined (map (fun variableId => map_get variableId nodeMap) items) |}.

(** From the validated fields to the result. *)
Definition build_graph (responseNodes responseLinks responseConcepts : value)
  : result (GraphData * list Concept) :=
  concept_items <- array_items responseConcepts ;;
  variableToConceptMap <- fold_result register_concept concept_items [] ;;
  node_items <- array_items responseNodes ;;
  nodes <- map_result (make_node variableToConceptMap) node_items ;;
  let nodeSet := Set_of (map node_id nodes) in
  link_items <- array_items responseLinks ;;
  links <- filter_result (keep_link nodeSet) link_items ;;
  let graphData := {| nodes := nodes; links := links |} in
  let nodeMap := Map_of (map (fun node => (node_id node, node)) nodes) in
  concepts <- mapi_result (make_concept nodeMap) 0 concept_items ;;
  ret (graphData, concepts).

(** The function from the parsed response on: the destructuring, the check of
    the three fields, and the construction. *)
Definition graph_of_response (extractionResponse : value)
  : result (GraphData * list Concept) :=
  responseNodes <- get_prop extractionResponse (js "nodes") ;;
  responseLinks <- get_prop extractionResponse (js "links") ;;
  responseConcepts <- get_prop extractionResponse (js "concepts") ;;
  if negb (truthy responseNodes) || negb (truthy responseLinks)
     || negb (truthy responseConcepts)
  then Throw (Error incorrect_format_message)
  else build_graph responseNodes responseLinks responseConcepts.

Definition extractCausalGraph (papers : list jsstring)
  : result (GraphData * list Concept) :=
  let dominantLanguage := detectDominantLanguage papers in
  extractionResult <- generateContent (extractionPrompt dominantLanguage papers) ;;
  extractionResponse <- parseJsonResponse extractionResult ;;
  graph_of_response extractionResponse.

(** ** [generateTopicSuggestions] *)

(** The graph inside the prompt.

    The template literal of the prompt serializes three values with
    [JSON.stringify], in this order; they are evaluated before the model is
    called, so an exception here ends [generateTopicSuggestions] without a call. *)

(** [graphData.nodes.map(n => n.id)] *)
Definition prompt_nodes (graphData : GraphData) : value :=
  VArr (map node_id (nodes graphData)).

(** [l => ({source: (l.source as GraphNode).id, target: (l.target as GraphNode).id})] *)
Definition prompt_link (l : value) : result value :=
  source <- get_prop l (js "source") ;;
  source_id <- get_prop source (js "id") ;;
  target <- get_prop l (js "target") ;;
  target_id <- get_prop target (js "id") ;;
  ret (VObj [(js "source", source_id); (js "target", target_id)]).

(** [graphData.links.map(...)] *)
Definition prompt_links (graphData : GraphData) : result value :=
  items <- map_result prompt_link (links graphData) ;;
  ret (VArr items).

(** [concepts.map(c => ({name: c.name, variables: c.children.map(n => n.id)}))] *)
Definition prompt_concept (c : Concept) : value :=
  VObj [(js "name", concept_name c);
        (js "variables", VArr (map node_id (children c)))].

Definition prompt_concepts (concepts : list Concept) : value :=
  VArr (map prompt_concept concepts).

Variable suggestionPrompt : GraphData -> list Concept -> Lang -> jsstring.

Definition array_length (v : value) : nat :=
  match v with VArr items => length items | _ => 0%nat end.

(** [!topics || !Array.isArray(topics) || topics.length === 0] *)
Definition topics_of_response (topics : value) : result value :=
  if negb (truthy topics) || negb (isArray topics) || (array_length topics =? 0)%nat
  then Throw (Error no_topics_message)
  else Ok topics.

(** The template literal of the prompt is evaluated first; of the three values
    it serializes only the links can throw, when an end of a link is [null] or
    [undefined]. *)
Definition generateTopicSuggestions (graphData : GraphData) (concepts : list Concept)
  (language : Lang) : result value :=
  links_of_prompt <- prompt_links graphData ;;
  suggestionResult <- generateContent (suggestionPrompt graphData concepts language) ;;
  topics <- parseJsonResponse suggestionResult ;;
  topics_of_response topics.

End Service.

(** ** What the specification says, in its own words

    The definitions below follow the sentences of the specification, not the
    code; the theorems compare the two. *)

(** The Latin letters and the CJK characters (U+4E00 to U+9FA5) of all texts. *)
Definition is_latin_letter (c : N) : bool :=
  ((0x41 <=? c) && (c <=? 0x5a)) || ((0x61 <=? c) && (c <=? 0x7a)).

Definition is_cjk (c : N) : bool := (0x4e00 <=? c) && (c <=? 0x9fa5).

Definition latin_count (texts : list jsstring) : nat :=
  length (filter is_latin_letter (concat texts)).

Definition cjk_count (texts : list jsstring) : nat :=
  length (filter is_cjk (concat texts)).

(** The text before and after the first occurrence of [pat]. *)
Fixpoint split_at_first (pat s : jsstring) : option (jsstring * jsstring) :=
  if startsWith s pat then Some ([], skipn (length pat) s)
  else match s with
       | [] => None
       | c :: s' =>
         match split_at_first pat s' with
         | Some (before, after) => Some (c :: before, after)
         | None => None
         end
       end.

(** The first fenced block: what stands between the first [```json] and the
    first [```] after it, trimmed. *)
Definition first_fenced_block (rawText : jsstring) : option jsstring :=
  match split_at_first fence_json rawText with
  | Some (_, rest) =>
    match split_at_first fence rest with
    | Some (inner, _) => Some (trim inner)
    | None => None
    end
  | None => None
  end.

(** A stand-in for [JSON.parse] in closed examples: a text that is one decimal
    digit between blanks parses to that number, every other text is refused.
    It agrees with [JSON.parse] on the texts it accepts and on the texts the
    examples give it. *)
Definition json_blank (c : N) : bool :=
  (c =? 32) || (c =? 9) || (c =? 10) || (c =? 13).

Fixpoint drop_blanks (s : jsstring) : jsstring :=
  match s with
  | c :: s' => if json_blank c then drop_blanks s' else s
  | [] => []
  end.

Definition parse_digit (t : jsstring) : result value :=
  match rev (drop_blanks (rev (drop_blanks t))) with
  | [d] => if is_digit d then Ok (VNum [d])
           else Throw (Error (js "Unexpected token"))
  | _ => Throw (Error (js "Unexpected token"))
  end.

(** A response of the shape the later steps rely on: the three fields are
    arrays, no node and no link is [null], and every concept is an object whose
    [variables] is an array and whose [name] converts to a string. *)
Definition not_nullish (v : value) : bool :=
  match v with
  | VUndefined | VNull => false
  | _ => true
  end.

Definition concept_shaped (concept : value) : bool :=
  match concept with
  | VObj props =>
    match lookup (js "variables") props with
    | Some (VArr _) =>
      match to_string (match lookup (js "name") props with
                       | Some n => n
                       | None => VUndefined
                       end) with
      | Ok _ => true
      | Throw _ => false
      end
    | _ => false
    end
  | _ => false
  end.

Definition well_shaped (response : value) : bool :=
  match get_prop response (js "nodes"), get_prop response (js "links"),
        get_prop response (js "concepts") with
  | Ok (VArr ns), Ok (VArr ls), Ok (VArr cs) =>
    forallb not_nullish ns && forallb not_nullish ls && forallb concept_shaped cs
  | _, _, _ => false
  end.

(** The field [k] of a response is missing or falsy. *)
Definition falsy_field (response : value) (k : jsstring) : bool :=
  match get_prop response k with
  | Ok v => negb (truthy v)
  | Throw _ => true
  end.

(** A response as the prompt demands it and as the code annotates it:
    [{ id: string; isCore: boolean }], [{ source: string; target: string }],
    [{ name: string; variables: string[] }]. *)
Record NodeSpec := { spec_id : jsstring; spec_isCore : bool }.
Record LinkSpec := { spec_source : jsstring; spec_target : jsstring }.
Record ConceptSpec := { spec_name : jsstring; spec_variables : list jsstring }.

Definition node_value (n : NodeSpec) : value :=
  VObj [(js "id", VStr (spec_id n)); (js "isCore", VBool (spec_isCore n))].

Definition link_value (l : LinkSpec) : value :=
  VObj [(js "source", VStr (spec_source l)); (js "target", VStr (spec_target l))].

Definition concept_value (c : ConceptSpec) : value :=
  VObj [(js "name", VStr (spec_name c));
        (js "variables", VArr (map VStr (spec_variables c)))].

Definition response_value (ns : list NodeSpec) (ls : list LinkSpec)
  (cs : list ConceptSpec) : value :=
  VObj [(js "nodes", VArr (map node_value ns));
        (js "links", VArr (map link_value ls));
        (js "concepts", VArr (map concept_value cs))].

Definition lists (id : jsstring) (c : ConceptSpec) : bool :=
  existsb (str_eqb id) (spec_variables c).

(** The name of the last concept that lists [id]. *)
Definition listing_name (cs : list ConceptSpec) (id : jsstring) : option jsstring :=
  fold_left (fun found c => if lists id c then Some (spec_name c) else found) cs None.

Definition known (ns : list NodeSpec) (id : jsstring) : bool :=
  existsb (fun n => str_eqb (spec_id n) id) ns.

(** The group the code gives to [id]: the name of the last concept listing it,
    unless there is none or that name is empty. *)
Definition group_name (cs : list ConceptSpec) (id : jsstring) : jsstring :=
  match listing_name cs id with
  | Some n => if is_empty n then js "Default" else n
  | None => js "Default"
  end.

Definition expected_node (cs : list ConceptSpec) (n : NodeSpec) : GraphNode :=
  {| node_id := VStr (spec_id n);
     isCore := VBool (spec_isCore n);
     group := VStr (group_name cs (spec_id n)) |}.

Definition both_known (ns : list NodeSpec) (l : LinkSpec) : bool :=
  known ns (spec_source l) && known ns (spec_target l).

(** ** Vocabulary of the proofs *)
Definition is_ok {A} (r : result A) : bool :=
  match r with Ok _ => true | Throw _ => false end.

Definition has_variables (concept : value) : bool :=
  match concept with
  | VObj props =>
    match lookup (js "variables") props with
    | Some (VArr _) => true
    | _ => false
    end
  | _ => false
  end.

(** The map [variableToConceptMap] after the concepts [cs], from [m]. *)
Definition register_typed (m : jsmap value) (c : ConceptSpec) : jsmap value :=
  fold_left (fun m v => map_set (VStr v) (VStr (spec_name c)) m) (spec_variables c) m.

(** The code unit of the backtick, of which the fences are made. *)
Definition backtick : N := 96.

(** A link of the prompt that names neither end: both properties are
    [undefined], and [JSON.stringify] leaves such properties out. *)
Definition endless_link : value :=
  VObj [(js "source", VUndefined); (js "target", VUndefined)].

End GeminiService.

(* ================================================================== *)
(** * netlify/functions/gemini-proxy.js *)
(* ================================================================== *)

Module GeminiProxy.
Import JS.

Local Open Scope N_scope.

Notation "x <- c ;; k" := (bind c (fun x => k))
  (at level 61, c at next level, right associativity).

Record Request := {
  url : jsstring;
  method : jsstring;
  headers : list (jsstring * jsstring);
  request_body : jsstring
}.

(** An upstream response: [ok], [status], and what reading the body gives
    ([response.text()]). *)
Record Response := {
  ok : bool;
  status : N;
  text : result jsstring
}.

Record HandlerResult := {
  statusCode : N;
  body : jsstring
}.

Definition gemini_url : jsstring :=
  js "https://generativelanguage.googleapis.com/v1beta/models/gemini-1.5-flash:generateContent".

Definition missing_key_message : jsstring :=
  js "Missing Gemini API key (API_KEY not set).".

Section Handler.

Variable JSON_parse : jsstring -> result value.
Variable JSON_stringify : value -> jsstring.
(** The text of the engine's [TypeError]. *)
Variable TypeError_message : jsstring.
(** [fetch]: the response, or the error of a failed request. *)
Variable fetch : Request -> result Response.

(** [response.json()]: the body read and parsed. *)
Definition json (response : Response) : result value :=
  t <- text response ;; JSON_parse t.

Definition error_message (error : exn) : jsstring :=
  match error with
  | Error m => m
  | TypeError => TypeError_message
  end.

(** [s || fallback] on a string that may be missing. *)
Definition string_or (s : option jsstring) (fallback : jsstring) : jsstring :=
  match s with
  | Some t => if is_empty t then fallback else t
  | None => fallback
  end.

Definition user_content (prompt : value) : value :=
  VObj [(js "contents",
         VArr [VObj [(js "role", VStr (js "user"));
                     (js "parts",
                      VArr [VObj [(js "text", or_else prompt (VStr (js "Hello")))]])]])].

Definition gemini_request (apiKey : jsstring) (prompt : value) : Request :=
  {| url := gemini_url;
     method := js "POST";
     headers := [(js "Content-Type", js "application/json");
                 (js "Authorization", js "Bearer " ++ apiKey)];
     request_body := JSON_stringify (user_content prompt) |}.

(** [event.body] and [process.env.API_KEY] are a string or missing; [!apiKey]
    holds for a missing and for an empty key. *)
Definition try_block (event_body : option jsstring) (API_KEY : option jsstring)
  : result HandlerResult :=
  parsed <- JSON_parse (string_or event_body (js "{}")) ;;
  prompt <- get_prop parsed (js "prompt") ;;
  match API_KEY with
  | None => Throw (Error missing_key_message)
  | Some apiKey =>
    if is_empty apiKey then Throw (Error missing_key_message)
    else
      response <- fetch (gemini_request apiKey prompt) ;;
      if negb (ok response) then
        errText <- text response ;;
        Throw (Error (js "Gemini API error " ++ decimal (status response)
                      ++ js ": " ++ errText))
      else
        data <- json response ;;
        ret {| statusCode := 200; body := JSON_stringify data |}
  end.

Definition error_reply (error : exn) : HandlerResult :=
  {| statusCode := 500;
     body := JSON_stringify
               (VObj [(js "error",
                       VStr (string_or (Some (error_message error))
                                       (js "Unknown error")))]) |}.

Definition handler (event_body : option jsstring) (API_KEY : option jsstring)
  : result HandlerResult :=
  try_catch (try_block event_body API_KEY) (fun error => ret (error_reply error)).

End Handler.

End GeminiProxy.

(* ================================================================== *)
(** * App.tsx: the upload pipeline *)
(* ================================================================== *)

Module App.
Import JS.

Local Open Scope N_scope.

Definition PARSING_TIMEOUT : N := 30000.
Definition OCR_TIMEOUT : N := 60000.

Inductive Status := parsing | ready | error | ocr.

Record Paper := {
  paper_id : jsstring;
  paper_name : jsstring;
  status : Status;
  content : option jsstring;
  message : option jsstring;
  progress : option N
}.

(** What Tesseract reports to the [logger]: [m.status], and
    [Math.round(m.progress * 100)]. *)
Record LoggerMessage := {
  log_status : jsstring;
  log_percent : N
}.

(** An uploaded file: its [name] and [type], and what the readers do on it,
    [file.text()], [parseDocx(file)] (mammoth), [parsePdf(file)] (pdf.js) and
    [ocrPdf(file, paperId)] (Tesseract, with the messages its logger receives
    while the code waits). *)
Record File := {
  file_name : jsstring;
  file_type : jsstring;
  text : promise jsstring;
  parseDocx : promise jsstring;
  parsePdf : promise jsstring;
  ocr_log : list LoggerMessage;
  ocrPdf : promise jsstring
}.

(** ** [withTimeout], awaited

    The timer rejects with [errorMessage] after [ms]; a promise that has
    settled by then wins and clears it, one that settles later, or never,
    loses. A promise that settles at [ms] exactly wins as well: it was created
    before the timer was set, so its turn comes first. *)
Definition withTimeout {A} (p : promise A) (ms : N) (errorMessage : jsstring)
  : result A :=
  match p with
  | Fulfilled t res => if t <=? ms then Ok res else Throw (Error errorMessage)
  | Rejected t err => if t <=? ms then Throw (Error err) else Throw (Error errorMessage)
  | Pending => Throw (Error errorMessage)
  end.

Definition default_timeout_message : jsstring := js "操作超时".
Definition pdf_timeout_message : jsstring := js "初步文本提取超时。".
Definition ocr_timeout_message : jsstring := js "OCR处理超时。文件可能过于复杂。".
Definition no_text_message : jsstring :=
  js "未能提取有效文本。文件可能是扫描图像、空文件或已损坏。".
Definition ocr_start_message : jsstring := js "未找到文本，尝试OCR识别...".
Definition ready_message : jsstring := js "准备就绪".
Definition parse_failed_message : jsstring := js "解析失败".

Definition docx_type : jsstring :=
  js "application/vnd.openxmlformats-officedocument.wordprocessingml.document".

(** [`不支持的文件类型: ${file.type || '未知'}`] *)
Definition unsupported_message (type : jsstring) : jsstring :=
  (js "不支持的文件类型: " ++ (if is_empty type then js "未知" else type))%list.

(** ** The component's state and the calls it makes

    [papers] is the React state behind [setPapers]; [trace] records, in order,
    the calls that leave the component. *)
Inductive Reader := TextReader | DocxReader | PdfReader.

Inductive event :=
| ParseAttempt (reader : Reader) (file : File) (ms : N)
| OcrAttempt (file : File) (paperId : jsstring) (ms : N)
| Sleep (ms : N).

Record State := {
  papers : list Paper;
  trace : list event
}.

Definition program (A : Type) := State -> result A * State.

#[export] Instance program_monad : Monad program := {
  ret := fun A a st => (Ok a, st);
  bind := fun A B c k st =>
            match c st with
            | (Ok a, st') => k a st'
            | (Throw e, st') => (Throw e, st')
            end
}.

Notation "x <- c ;; k" := (bind c (fun x => k))
  (at level 61, c at next level, right associativity).
Notation "c ;;; k" := (bind c (fun _ => k))
  (at level 61, right associativity).

Definition throw {A} (e : exn) : program A := fun st => (Throw e, st).

Definition await {A} (r : result A) : program A := fun st => (r, st).

Definition try_catch_program {A} (body : program A) (handler : exn -> program A)
  : program A :=
  fun st =>
    match body st with
    | (Ok a, st') => (Ok a, st')
    | (Throw e, st') => handler e st'
    end.

(** [setPapers(prev => f(prev))] *)
Definition setPapers (f : list Paper -> list Paper) : program unit :=
  fun st => (Ok tt, {| papers := f (papers st); trace := trace st |}).

Definition call (e : event) : program unit :=
  fun st => (Ok tt, {| papers := papers st; trace := trace st ++ [e] |}).

(** [for (const x of l) body(x)] *)
Fixpoint for_of {X} (l : list X) (body : X -> program unit) : program unit :=
  match l with
  | [] => ret tt
  | x :: l' => body x ;;; for_of l' body
  end.

(** [prev.map(p => p.id === id ? f(p) : p)] *)
Definition update_paper (id : jsstring) (f : Paper -> Paper) (prev : list Paper)
  : list Paper :=
  map (fun p => if str_eqb (paper_id p) id then f p else p) prev.

Definition set_ocr (p : Paper) : Paper :=
  {| paper_id := paper_id p; paper_name := paper_name p; status := ocr;
     content := content p; message := Some ocr_start_message; progress := Some 0 |}.

Definition set_ready (text : jsstring) (p : Paper) : Paper :=
  {| paper_id := paper_id p; paper_name := paper_name p; status := ready;
     content := Some text; message := Some ready_message; progress := None |}.

(** [e.message || '解析失败']. What the [try] block throws is a rejection of a
    reader, a timeout or an error of the block itself, each an [Error]; the
    engine raises none of its own there. *)
Definition message_or_default (e : exn) : jsstring :=
  match e with
  | Error m => if is_empty m then parse_failed_message else m
  | TypeError => parse_failed_message
  end.

Definition set_error (e : exn) (p : Paper) : Paper :=
  {| paper_id := paper_id p; paper_name := paper_name p; status := error;
     content := content p; message := Some (message_or_default e); progress := None |}.

(** The logger of [ocrPdf]. *)
Definition log_update (m : LoggerMessage) (p : Paper) : Paper :=
  if str_eqb (log_status m) (js "recognizing text") then
    {| paper_id := paper_id p; paper_name := paper_name p; status := status p;
       content := content p;
       message := Some (js "文本识别中... " ++ decimal (log_percent m) ++ js "%")%list;
       progress := Some (log_percent m) |}
  else
    {| paper_id := paper_id p; paper_name := paper_name p; status := status p;
       content := content p;
       message := Some (js "OCR: " ++ log_status m ++ js "...")%list;
       progress := progress p |}.

(** [await withTimeout(ocrPdf(file, paper.id), OCR_TIMEOUT, ...)] *)
Definition await_ocr (file : File) (paperId : jsstring) : program jsstring :=
  call (OcrAttempt file paperId OCR_TIMEOUT) ;;;
  for_of (ocr_log file) (fun m => setPapers (update_paper paperId (log_update m))) ;;;
  await (withTimeout (ocrPdf file) OCR_TIMEOUT ocr_timeout_message).

(** The chain of branches on the file's type, inside the [try]. *)
Definition read_content (file : File) (paperId : jsstring) : program jsstring :=
  if str_eqb (file_type file) (js "text/plain") then
    call (ParseAttempt TextReader file PARSING_TIMEOUT) ;;;
    await (withTimeout (text file) PARSING_TIMEOUT default_timeout_message)
  else if str_eqb (file_type file) docx_type || endsWith (file_name file) (js ".docx") then
    call (ParseAttempt DocxReader file PARSING_TIMEOUT) ;;;
    await (withTimeout (parseDocx file) PARSING_TIMEOUT default_timeout_message)
  else if str_eqb (file_type file) (js "application/pdf") then
    call (ParseAttempt PdfReader file PARSING_TIMEOUT) ;;;
    textContent <- await (withTimeout (parsePdf file) PARSING_TIMEOUT pdf_timeout_message) ;;
    if (length (trim textContent) <? 100)%nat then
      setPapers (update_paper paperId set_ocr) ;;;
      await_ocr file paperId
    else ret textContent
  else throw (Error (unsupported_message (file_type file))).

(** The [try ... catch] of one iteration. *)
Definition process_file (file : File) (paperId : jsstring) : program unit :=
  try_catch_program
    (content <- read_content file paperId ;;
     if is_empty content || (length (trim content) <? 100)%nat
     then throw (Error no_text_message)
     else setPapers (update_paper paperId (set_ready content)))
    (fun e => setPapers (update_paper paperId (set_error e))).

(** [Array.prototype.slice] *)
Definition clamp_index (len k : Z) : Z :=
  if (k <? 0)%Z then Z.max (len + k) 0 else Z.min k len.

Definition slice {X} (l : list X) (start end_ : Z) : list X :=
  let len := Z.of_nat (length l) in
  let from := clamp_index len start in
  let to := clamp_index len end_ in
  firstn (Z.to_nat (to - from)) (skipn (Z.to_nat from) l).

Fixpoint mapi {X Y} (f : nat -> X -> Y) (i : nat) (l : list X) : list Y :=
  match l with
  | [] => []
  | x :: l' => f i x :: mapi f (S i) l'
  end.

Section HandleFileChange.

(** [Date.now()]: the reading of the k-th call made by one run. *)
Variable Date_now : nat -> N.

(** [papers] is the list the render that created the handler saw. *)
Variable papers_seen : list Paper.

Definition new_paper (k : nat) (file : File) : Paper :=
  {| paper_id := (file_name file ++ dash :: decimal (Date_now k))%list;
     paper_name := file_name file;
     status := parsing;
     content := None; message := None; progress := None |}.

Definition files_to_add (files : list File) : list File :=
  slice files 0 (100 - Z.of_nat (length papers_seen)).

Definition handleFileChange (files : option (list File)) : program unit :=
  match files with
  | None => ret tt
  | Some files =>
    if (length files =? 0)%nat then ret tt
    else
      let filesToAdd := files_to_add files in
      if (length filesToAdd =? 0)%nat then ret tt
      else
        let newPapers := mapi new_paper 0 filesToAdd in
        setPapers (fun prev => prev ++ newPapers) ;;;
        for_of newPapers (fun paper =>
          match find (fun f => startsWith (paper_id paper) (file_name f)) filesToAdd with
          | None => ret tt
          | Some file =>
            process_file file (paper_id paper) ;;;
            call (Sleep 200)
          end)
  end.

End HandleFileChange.

(** ** What the specification says, in its own words *)

(** The reader of a file: plain text, DOCX (by MIME type or by a name ending
    in [.docx]), PDF; no reader for any other type. *)
Definition reader_for (file : File) : option Reader :=
  if str_eqb (file_type file) (js "text/plain") then Some TextReader
  else if str_eqb (file_type file) docx_type || endsWith (file_name file) (js ".docx")
       then Some DocxReader
  else if str_eqb (file_type file) (js "application/pdf") then Some PdfReader
  else None.

Definition reading (reader : Reader) (file : File) : promise jsstring :=
  match reader with
  | TextReader => text file
  | DocxReader => parseDocx file
  | PdfReader => parsePdf file
  end.

(** Extraction produced the text [c]: the file's reader delivered it in time,
    or, for a PDF whose direct text is too short, OCR delivered it in time. *)
Inductive produces (file : File) : jsstring -> Prop :=
| produces_directly reader t c :
    reader_for file = Some reader ->
    reading reader file = Fulfilled t c -> t <= PARSING_TIMEOUT ->
    (reader = PdfReader -> (100 <= length (trim c))%nat) ->
    produces file c
| produces_by_ocr t direct t' c :
    reader_for file = Some PdfReader ->
    parsePdf file = Fulfilled t direct -> t <= PARSING_TIMEOUT ->
    (length (trim direct) < 100)%nat ->
    ocrPdf file = Fulfilled t' c -> t' <= OCR_TIMEOUT ->
    produces file c.

(** The direct text of a PDF arrived in time and is too short. *)
Definition needs_ocr (file : File) : bool :=
  match withTimeout (parsePdf file) PARSING_TIMEOUT pdf_timeout_message with
  | Ok textContent => (length (trim textContent) <? 100)%nat
  | Throw _ => false
  end.

(** The calls one file causes for the paper [paperId], in order. *)
Definition attempts (file : File) (paperId : jsstring) : list event :=
  match reader_for file with
  | Some PdfReader =>
    ParseAttempt PdfReader file PARSING_TIMEOUT
    :: (if needs_ocr file then [OcrAttempt file paperId OCR_TIMEOUT] else [])
  | Some reader => [ParseAttempt reader file PARSING_TIMEOUT]
  | None => []
  end.

(** ** Vocabulary of the proofs *)

(** What the [try] block yields for a file. *)
Definition extracted (file : File) : result jsstring :=
  match reader_for file with
  | Some PdfReader =>
    match withTimeout (parsePdf file) PARSING_TIMEOUT pdf_timeout_message with
    | Ok textContent =>
      if (length (trim textContent) <? 100)%nat
      then withTimeout (ocrPdf file) OCR_TIMEOUT ocr_timeout_message
      else Ok textContent
    | Throw e => Throw e
    end
  | Some reader => withTimeout (reading reader file) PARSING_TIMEOUT default_timeout_message
  | None => Throw (Error (unsupported_message (file_type file)))
  end.

Definition verdict (file : File) : result jsstring :=
  match extracted file with
  | Ok c => if is_empty c || (length (trim c) <? 100)%nat
            then Throw (Error no_text_message) else Ok c
  | Throw e => Throw e
  end.

(** The last update of an iteration, and the updates before it. *)
Definition settle (file : File) : Paper -> Paper :=
  match verdict file with
  | Ok c => set_ready c
  | Throw e => set_error e
  end.

Definition before_settle (file : File) (p : Paper) : Paper :=
  match reader_for file with
  | Some PdfReader =>
    if needs_ocr file
    then fold_left (fun p m => log_update m p) (ocr_log file) (set_ocr p)
    else p
  | _ => p
  end.

(** An entry as the last update of an iteration on [file] leaves it. *)
Definition settled_as (file : File) (p : Paper) : Prop :=
  match verdict file with
  | Ok c => status p = ready /\ content p = Some c
            /\ message p = Some ready_message /\ progress p = None
  | Throw e => status p = error /\ message p = Some (message_or_default e)
               /\ progress p = None
  end.

(** The file an iteration works on, and the state after the iteration. *)
Definition found (filesToAdd : list File) (paperId : jsstring) : option File :=
  find (fun f => startsWith paperId (file_name f)) filesToAdd.

Definition after_iteration (filesToAdd : list File) (st : State) (paper : Paper)
  : State :=
  match found filesToAdd (paper_id paper) with
  | None => st
  | Some file =>
    {| papers := update_paper (paper_id paper)
                              (fun p => settle file (before_settle file p)) (papers st);
       trace := trace st ++ attempts file (paper_id paper) ++ [Sleep 200] |}
  end.

Definition block (filesToAdd : list File) (paper : Paper) : list event :=
  match found filesToAdd (paper_id paper) with
  | None => []
  | Some file => attempts file (paper_id paper) ++ [Sleep 200]
  end.

(** No file's name is a prefix of the identifier of a later file's paper. *)
Definition no_shadowing (Date_now : nat -> N) (filesToAdd : list File) : Prop :=
  forall i j fi fj,
    (i < j)%nat ->
    nth_error filesToAdd i = Some fi -> nth_error filesToAdd j = Some fj ->
    startsWith (paper_id (new_paper Date_now j fj)) (file_name fi) = false.

(** Every entry that carries the identifier of a paper already worked on is
    as the file found for that identifier left it. *)
Definition settled_for (fs : list File) (done : list Paper) (st : State) : Prop :=
  forall p file,
    In p (papers st) -> In (paper_id p) (map paper_id done) ->
    found fs (paper_id p) = Some file -> settled_as file p.

(** The state a run ends in: nothing happens without files to add; otherwise
    the new papers are appended and worked on one after the other. *)
Definition final_state (Date_now : nat -> N) (papers_seen : list Paper)
  (files : option (list File)) (st : State) : State :=
  match files with
  | None => st
  | Some files =>
    match files_to_add papers_seen files with
    | [] => st
    | filesToAdd =>
      fold_left (after_iteration filesToAdd)
                (mapi (new_paper Date_now) 0 filesToAdd)
                {| papers := papers st ++ mapi (new_paper Date_now) 0 filesToAdd;
                   trace := trace st |}
    end
  end.

(** ** [parsePdf]: the text of a document

    What pdf.js finds in a file: reading the file or [getDocument] fails, or
    the document has the pages [1] to [numPages]; on each page [getPage] or
    [getTextContent] fails, or the page has its items, each represented here
    by its [str] (a string for a text item, [undefined] for an item without
    one). How long all this takes, and whether it ends, is the promise
    [parsePdf file]. *)
Definition PdfPage := result (list value).
Definition PdfDocument := result (list PdfPage).

Definition space : N := 32.
Definition line_feed : N := 10.

(** [fullText += textContent.items.map(item => item.str).join(' ');
     fullText += '\n'] *)
Definition add_page (fullText : jsstring) (page : result (list value))
  : result jsstring :=
  strs <- page ;;
  line <- array_join [space] strs ;;
  ret (fullText ++ line ++ [line_feed])%list.

Definition parsePdf_text (document : result (list PdfPage)) : result jsstring :=
  pages <- document ;;
  fold_result add_page pages [].

(** An item that shows nothing: it has no [str], or only whitespace. *)
Definition blank_item (str : value) : bool :=
  match str with
  | VUndefined | VNull => true
  | VStr s => forallb is_space s
  | _ => false
  end.

Definition blank_page (page : PdfPage) : bool :=
  match page with
  | Ok strs => forallb blank_item strs
  | Throw _ => false
  end.

(** ** [removePaper]

    [setPapers(papers.filter(p => p.id !== id))]: the new state is computed
    from the list the render saw, not from the state at the time. *)
Definition removePaper (papers_seen : list Paper) (id : jsstring) : program unit :=
  setPapers (fun _ => filter (fun p => negb (str_eqb (paper_id p) id)) papers_seen).

(** A promise that has not settled by the deadline [ms]. *)
Definition late {A} (p : promise A) (ms : N) : bool :=
  match p with
  | Fulfilled t _ | Rejected t _ => ms <? t
  | Pending => true
  end.

(** A paper that is ready carries a text of trimmed length at least 100. *)
Definition ready_with_text (p : Paper) : Prop :=
  status p = ready ->
  exists c, content p = Some c /\ (100 <= length (trim c))%nat.

End App.

(* ================================================================== *)
(** * components/ClusterPanel.tsx *)
(* ================================================================== *)

Module ClusterPanel.
Import JS GeminiService.

(** [handleAddConcept]: the list handed to [onConceptsChange], or [None] when
    the trimmed input is empty and nothing is called. [input] is the text of the
    input element, if there is one; [now] is [Date.now()]. *)
Definition handleAddConcept (input : option jsstring) (now : N)
  (concepts : list Concept) : option (list Concept) :=
  match option_map trim input with
  | Some name =>
    if negb (is_empty name) then
      Some (concepts ++ [{| concept_id := name ++ dash :: decimal now;
                            concept_name := VStr name;
                            children := [] |}])
    else None
  | None => None
  end.

(** [{ ...c, children: l }] *)
Definition with_children (c : Concept) (l : list GraphNode) : Concept :=
  {| concept_id := concept_id c; concept_name := concept_name c; children := l |}.

(** [children.filter(child => child.id !== nodeId)] *)
Definition without_node (nodeId : value) (l : list GraphNode) : list GraphNode :=
  filter (fun child => negb (strict_equals (node_id child) nodeId)) l.

(** [const c = newConcepts.find(p); if (c) c.children = f(c.children)], on the
    array of fresh copies: the first concept that satisfies [p] is changed. *)
Fixpoint update_found (p : Concept -> bool) (f : list GraphNode -> list GraphNode)
  (newConcepts : list Concept) : list Concept :=
  match newConcepts with
  | [] => []
  | c :: rest =>
    if p c then with_children c (f (children c)) :: rest
    else c :: update_found p f rest
  end.

Record DraggedNode := {
  dragged_node : GraphNode;
  sourceConceptId : jsstring
}.

(** [handleNodeDrop]: the array handed to [onConceptsChange], or [None] when
    the function returns at once. *)
Definition handleNodeDrop (draggedNode : option DraggedNode)
  (targetConceptId : jsstring) (concepts : list Concept) : option (list Concept) :=
  match draggedNode with
  | None => None
  | Some d =>
    if str_eqb (sourceConceptId d) targetConceptId then None
    else
      let node := dragged_node d in
      let newConcepts :=
        update_found (fun c => str_eqb (concept_id c) (sourceConceptId d))
                     (without_node (node_id node)) concepts in
      let newConcepts :=
        update_found (fun c => str_eqb (concept_id c) targetConceptId)
                     (fun l => l ++ [node]) newConcepts in
      Some newConcepts
  end.

Record DraggedConcept := {
  dragged_conceptId : jsstring;
  dragged_index : nat
}.

(** [handleConceptDrop]: the array handed to [onConceptsChange]. An entry is
    [None] where the array holds [undefined], which [splice] puts there when
    the first [splice] removed nothing. *)
Definition handleConceptDrop (draggedConcept : option DraggedConcept)
  (targetIndex : nat) (concepts : list Concept) : option (list (option Concept)) :=
  match draggedConcept with
  | None => None
  | Some d =>
    if (dragged_index d =? targetIndex)%nat then None
    else
      let newConcepts := map Some concepts in
      let '(newConcepts, removed_items) := splice newConcepts (dragged_index d) 1 [] in
      let removed := match removed_items with
                     | x :: _ => x
                     | [] => None
                     end in
      let '(newConcepts, _) := splice newConcepts targetIndex 0 [removed] in
      Some newConcepts
  end.

Definition removeNodeFromConcept (nodeId : value) (conceptId : jsstring)
  (concepts : list Concept) : list Concept :=
  map (fun c => if str_eqb (concept_id c) conceptId
                then with_children c (without_node nodeId (children c))
                else c) concepts.

Definition deleteConcept (conceptId : jsstring) (concepts : list Concept)
  : list Concept :=
  filter (fun c => negb (str_eqb (concept_id c) conceptId)) concepts.

(** [toggleCollapse]: the updater given to [setCollapsedConcepts]. *)
Definition toggleCollapse (conceptId : jsstring) (prev : jsset) : jsset :=
  let newSet := Set_of prev in
  if set_has newSet (VStr conceptId)
  then set_delete (VStr conceptId) newSet
  else set_add (VStr conceptId) newSet.

(** The identifier of a node is a string, as [GraphNode] declares. *)
Definition string_id (n : GraphNode) : Prop := exists s, node_id n = VStr s.

(** Where a drop leaves a concept, when it is the only one of its identifier:
    the source without the variable, the target with it, any other as it was. *)
Definition dropped (d : DraggedNode) (targetConceptId : jsstring) (c : Concept)
  : Concept :=
  if str_eqb (concept_id c) (sourceConceptId d)
  then with_children c (without_node (node_id (dragged_node d)) (children c))
  else if str_eqb (concept_id c) targetConceptId
       then with_children c (children c ++ [dragged_node d])
       else c.

End ClusterPanel.

(* ================================================================== *)
(** * App.tsx: the analysis and the refresh of the suggestions *)
(* ================================================================== *)

Module Analysis.
Import JS GeminiService App.

Inductive AppStep := Upload | Extract | Visualize | Generate.

(** The state behind the setters the two handlers call. *)
Record AppState := {
  appStep : AppStep;
  graphData : GraphData;
  concepts : list Concept;
  topics : value;
  isAnalyzing : bool;
  isGeneratingSuggestions : bool;
  error_text : option jsstring
}.

Definition action (A : Type) := AppState -> result A * AppState.

#[local] Instance action_monad : Monad action := {
  ret := fun A a s => (Ok a, s);
  bind := fun A B c k s =>
            match c s with
            | (Ok a, s') => k a s'
            | (Throw e, s') => (Throw e, s')
            end
}.

(** [await] of a call that touches no state of the component. *)
Definition awaited {A} (r : result A) : action A := fun s => (r, s).

(** [try { body } catch (e) { handler(e) } finally { final }] *)
Definition try_catch_finally {A} (body : action A) (handler : exn -> action A)
  (final : action unit) : action A :=
  fun s =>
    let '(r, s') := match body s with
                    | (Ok a, s') => (Ok a, s')
                    | (Throw e, s') => handler e s'
                    end in
    match final s' with
    | (Ok _, s'') => (r, s'')
    | (Throw e, s'') => (Throw e, s'')
    end.

Definition setAppStep (x : AppStep) : action unit :=
  fun s => (Ok tt,
            {| appStep := x; graphData := graphData s; concepts := concepts s;
               topics := topics s; isAnalyzing := isAnalyzing s;
               isGeneratingSuggestions := isGeneratingSuggestions s;
               error_text := error_text s |}).

Definition setGraphData (x : GraphData) : action unit :=
  fun s => (Ok tt,
            {| appStep := appStep s; graphData := x; concepts := concepts s;
               topics := topics s; isAnalyzing := isAnalyzing s;
               isGeneratingSuggestions := isGeneratingSuggestions s;
               error_text := error_text s |}).

Definition setConcepts (x : list Concept) : action unit :=
  fun s => (Ok tt,
            {| appStep := appStep s; graphData := graphData s; concepts := x;
               topics := topics s; isAnalyzing := isAnalyzing s;
               isGeneratingSuggestions := isGeneratingSuggestions s;
               error_text := error_text s |}).

Definition setTopics (x : value) : action unit :=
  fun s => (Ok tt,
            {| appStep := appStep s; graphData := graphData s; concepts := concepts s;
               topics := x; isAnalyzing := isAnalyzing s;
               isGeneratingSuggestions := isGeneratingSuggestions s;
               error_text := error_text s |}).

Definition setIsAnalyzing (x : bool) : action unit :=
  fun s => (Ok tt,
            {| appStep := appStep s; graphData := graphData s; concepts := concepts s;
               topics := topics s; isAnalyzing := x;
               isGeneratingSuggestions := isGeneratingSuggestions s;
               error_text := error_text s |}).

Definition setIsGeneratingSuggestions (x : bool) : action unit :=
  fun s => (Ok tt,
            {| appStep := appStep s; graphData := graphData s; concepts := concepts s;
               topics := topics s; isAnalyzing := isAnalyzing s;
               isGeneratingSuggestions := x;
               error_text := error_text s |}).

Definition setError (x : option jsstring) : action unit :=
  fun s => (Ok tt,
            {| appStep := appStep s; graphData := graphData s; concepts := concepts s;
               topics := topics s; isAnalyzing := isAnalyzing s;
               isGeneratingSuggestions := isGeneratingSuggestions s;
               error_text := x |}).

Definition no_ready_papers_message : jsstring := js "没有准备好可供分析的文献。".
Definition analysis_failed_message : jsstring := js "分析文献时发生未知错误。".
Definition no_graph_message : jsstring :=
  js "无法生成建议，因为没有可用的因果图谱。".
Definition refresh_failed_message : jsstring := js "生成新主题时发生错误。".

(** [p.status === 'ready' && p.content] *)
Definition valid_paper (p : Paper) : bool :=
  match status p with
  | ready => match content p with
             | Some c => negb (is_empty c)
             | None => false
             end
  | _ => false
  end.

(** [p.content!], on a paper the filter let through *)
Definition content_of (p : Paper) : jsstring :=
  match content p with
  | Some c => c
  | None => []
  end.

Section Handlers.

Variable JSON_parse : jsstring -> result value.
Variable generateContent : jsstring -> result jsstring.
Variable extractionPrompt : Lang -> list jsstring -> jsstring.
Variable suggestionPrompt : GraphData -> list Concept -> Lang -> jsstring.
(** The text of the engine's [TypeError]. *)
Variable TypeError_message : jsstring.

(** [e.message || fallback] *)
Definition message_or (e : exn) (fallback : jsstring) : jsstring :=
  let message := match e with
                 | Error m => m
                 | TypeError => TypeError_message
                 end in
  if is_empty message then fallback else message.

(** [handleAnalysis]; [papers_seen] is the list the handler closed over. *)
Definition handleAnalysis (papers_seen : list Paper) : action unit :=
  let validPapers := filter valid_paper papers_seen in
  if (length validPapers =? 0)%nat then setError (Some no_ready_papers_message)
  else
    setIsAnalyzing true ;;;
    setError None ;;;
    setGraphData {| nodes := []; links := [] |} ;;;
    setTopics (VArr []) ;;;
    setConcepts [] ;;;
    setAppStep Extract ;;;
    try_catch_finally
      (let contents := map content_of validPapers in
       returned <- awaited (extractCausalGraph JSON_parse generateContent
                                                extractionPrompt contents) ;;
       let '(newGraphData, newConcepts) := returned in
       setGraphData newGraphData ;;;
       setConcepts newConcepts ;;;
       setAppStep Visualize ;;;
       setIsGeneratingSuggestions true ;;;
       setAppStep Generate ;;;
       let dominantLanguage := detectDominantLanguage contents in
       newTopics <- awaited (generateTopicSuggestions JSON_parse
                               generateContent suggestionPrompt newGraphData
                               newConcepts dominantLanguage) ;;
       setTopics newTopics)
      (fun e =>
         setError (Some (message_or e analysis_failed_message)) ;;;
         setAppStep Upload)
      (setIsAnalyzing false ;;;
       setIsGeneratingSuggestions false).

(** [handleGenerateNewTopics]; the graph, the concepts and the papers are
    those the handler closed over. *)
Definition handleGenerateNewTopics (graph_seen : GraphData)
  (concepts_seen : list Concept) (papers_seen : list Paper) : action unit :=
  if (length (nodes graph_seen) =? 0)%nat then setError (Some no_graph_message)
  else
    setIsGeneratingSuggestions true ;;;
    setError None ;;;
    try_catch_finally
      (let contents := map content_of (filter valid_paper papers_seen) in
       let dominantLanguage := detectDominantLanguage contents in
       newTopics <- awaited (generateTopicSuggestions JSON_parse
                               generateContent suggestionPrompt graph_seen
                               concepts_seen dominantLanguage) ;;
       setTopics newTopics)
      (fun e => setError (Some (message_or e refresh_failed_message)))
      (setIsGeneratingSuggestions false).

End Handlers.

End Analysis.

(* ================================================================== *)
(** * Facts about strings and values *)
(* ================================================================== *)

Module JSFacts.
Import JS.

Local Open Scope N_scope.

Lemma str_eqb_refl (a : jsstring) : str_eqb a a = true.
Proof.
  induction a as [|x a IH]; simpl; [reflexivity|].
  unfold unit_eqb. now rewrite N.eqb_refl.
Qed.

Lemma str_eqb_eq (a b : jsstring) : str_eqb a b = true <-> a = b.
Proof.
  split.
  - revert b. induction a as [|x a IH]; intros [|y b]; simpl; try congruence.
    intros H. apply andb_prop in H as [Hx Hr].
    apply N.eqb_eq in Hx. apply IH in Hr. congruence.
  - intros ->. apply str_eqb_refl.
Qed.

Lemma str_eqb_neq (a b : jsstring) : str_eqb a b = false <-> a <> b.
Proof.
  rewrite <- str_eqb_eq. destruct (str_eqb a b); split; congruence.
Qed.

Lemma str_eqb_sym (a b : jsstring) : str_eqb a b = str_eqb b a.
Proof.
  destruct (str_eqb a b) eqn:E.
  - apply str_eqb_eq in E. subst. symmetry. apply str_eqb_refl.
  - symmetry. apply str_eqb_neq. apply str_eqb_neq in E. congruence.
Qed.

Lemma forallb_ext {X} (f g : X -> bool) (l : list X) :
  (forall x, f x = g x) -> forallb f l = forallb g l.
Proof. intros H. induction l as [|x l IH]; cbn; [reflexivity|]. now rewrite H, IH. Qed.

Lemma existsb_ext {X} (f g : X -> bool) (l : list X) :
  (forall x, f x = g x) -> existsb f l = existsb g l.
Proof. intros H. induction l as [|x l IH]; cbn; [reflexivity|]. now rewrite H, IH. Qed.


Lemma startsWith_app (s t : jsstring) : startsWith (s ++ t) s = true.
Proof.
  induction s as [|c s IH]; simpl; [reflexivity|].
  unfold unit_eqb. now rewrite N.eqb_refl.
Qed.

Lemma startsWith_split (s p : jsstring) :
  startsWith s p = true -> s = p ++ skipn (length p) s.
Proof.
  revert s. induction p as [|c p IH]; intros s H; simpl in *; [reflexivity|].
  destruct s as [|d s]; [discriminate|].
  apply andb_prop in H as [Hc Hr]. apply N.eqb_eq in Hc. subst d.
  simpl. f_equal. now apply IH.
Qed.

(** ** Whitespace *)
Lemma trimStart_spaces (ws s : jsstring) :
  forallb is_space ws = true -> trimStart (ws ++ s) = trimStart s.
Proof.
  induction ws as [|c ws IH]; simpl; [reflexivity|].
  intros H. apply andb_prop in H as [Hc Hr]. rewrite Hc. now apply IH.
Qed.

Lemma trimStart_head (c : N) (s : jsstring) :
  is_space c = false -> trimStart (c :: s) = c :: s.
Proof. intros H. simpl. now rewrite H. Qed.

(** [trimStart] cuts a prefix of whitespace and leaves no whitespace in front. *)
Lemma trimStart_split (s : jsstring) :
  exists ws, s = ws ++ trimStart s /\ forallb is_space ws = true.
Proof.
  induction s as [|c s [ws [E H]]]; simpl.
  - exists []. split; reflexivity.
  - destruct (is_space c) eqn:Hc.
    + exists (c :: ws). simpl. rewrite Hc, H. split; [congruence|reflexivity].
    + exists []. split; reflexivity.
Qed.

Lemma trimStart_idem (s : jsstring) : trimStart (trimStart s) = trimStart s.
Proof.
  induction s as [|c s IH]; simpl; [reflexivity|].
  destruct (is_space c) eqn:Hc; [exact IH|]. simpl. now rewrite Hc.
Qed.

Lemma trimStart_all_space (ws : jsstring) :
  forallb is_space ws = true -> trimStart ws = [].
Proof.
  intros H. rewrite <- (app_nil_r ws). rewrite trimStart_spaces by exact H.
  reflexivity.
Qed.

Lemma trimStart_nil_all_space (s : jsstring) :
  trimStart s = [] -> forallb is_space s = true.
Proof.
  induction s as [|c s IH]; simpl; [reflexivity|].
  destruct (is_space c); [exact IH|discriminate].
Qed.

Lemma trimStart_keeps (s t : jsstring) :
  trimStart s <> [] -> trimStart (s ++ t) = trimStart s ++ t.
Proof.
  induction s as [|c s IH]; simpl; [congruence|].
  destruct (is_space c); [exact IH|reflexivity].
Qed.

Lemma trimEnd_snoc_keep (s : jsstring) (c : N) :
  is_space c = false -> trimEnd (s ++ [c]) = s ++ [c].
Proof.
  intros H. unfold trimEnd. rewrite rev_app_distr. simpl. rewrite H.
  simpl. now rewrite rev_involutive.
Qed.

Lemma trimEnd_cons (c : N) (s : jsstring) :
  trimEnd s <> [] -> trimEnd (c :: s) = c :: trimEnd s.
Proof.
  unfold trimEnd. intros H. simpl.
  rewrite trimStart_keeps.
  - now rewrite rev_app_distr.
  - intros E. apply H. now rewrite E.
Qed.

Lemma trimEnd_cons_all_space (c : N) (s : jsstring) :
  forallb is_space s = true ->
  trimEnd (c :: s) = if is_space c then [] else [c].
Proof.
  unfold trimEnd. intros H. simpl.
  rewrite trimStart_spaces.
  - simpl. now destruct (is_space c).
  - rewrite forallb_forall in *. intros x Hx. apply H. now apply in_rev.
Qed.

Lemma trimEnd_nil_all_space (s : jsstring) :
  trimEnd s = [] -> forallb is_space s = true.
Proof.
  unfold trimEnd. intros H.
  assert (E : trimStart (rev s) = []).
  { rewrite <- (rev_involutive (trimStart (rev s))). now rewrite H. }
  apply trimStart_nil_all_space in E.
  rewrite forallb_forall in *. intros x Hx. apply E. now apply in_rev in Hx.
Qed.

(** ** Decimal rendering *)
Lemma uint_units_inj (u v : Decimal.uint) : uint_units u = uint_units v -> u = v.
Proof.
  revert v. induction u; intros v H; destruct v; simpl in H;
    try discriminate; try reflexivity;
    injection H as H; f_equal; now apply IHu.
Qed.

Lemma decimal_inj (n m : N) : decimal n = decimal m -> n = m.
Proof.
  unfold decimal. intros H. apply uint_units_inj in H.
  now apply DecimalN.Unsigned.to_uint_inj.
Qed.

Lemma uint_units_digits (u : Decimal.uint) : forallb is_digit (uint_units u) = true.
Proof. induction u; simpl; try reflexivity; exact IHu. Qed.

Lemma decimal_no_dash (n : N) : ~ In dash (decimal n).
Proof.
  intros H. pose proof (uint_units_digits (N.to_uint n)) as D.
  rewrite forallb_forall in D. apply D in H. discriminate.
Qed.

(** Two texts that end in a dash and a number agree only if both parts agree:
    the number holds no dash, so the last dash splits the text. *)
Lemma dash_suffix_inj (a b : jsstring) (n m : N) :
  a ++ dash :: decimal n = b ++ dash :: decimal m -> a = b /\ n = m.
Proof.
  intros H.
  assert (R : rev (decimal n) ++ dash :: rev a = rev (decimal m) ++ dash :: rev b).
  { apply (f_equal (@rev N)) in H.
    rewrite !rev_app_distr in H. simpl in H.
    now rewrite <- !app_assoc in H. }
  assert (K : forall (x y p q : jsstring),
             ~ In dash x -> ~ In dash y ->
             x ++ dash :: p = y ++ dash :: q -> x = y /\ p = q).
  { induction x as [|c x IH]; intros [|d y] p q Hx Hy E; simpl in E.
    - injection E as E. now split.
    - injection E as E1 E2. exfalso. apply Hy. left. now symmetry.
    - injection E as E1 E2. exfalso. apply Hx. now left.
    - injection E as E1 E2. subst d.
      destruct (IH y p q) as [-> ->]; auto.
      + intros I. apply Hx. now right.
      + intros I. apply Hy. now right. }
  destruct (K _ _ _ _ (fun I => decimal_no_dash n (proj2 (in_rev _ _) I))
              (fun I => decimal_no_dash m (proj2 (in_rev _ _) I)) R) as [E1 E2].
  split.
  - rewrite <- (rev_involutive a), <- (rev_involutive b). now f_equal.
  - apply decimal_inj. rewrite <- (rev_involutive (decimal n)),
      <- (rev_involutive (decimal m)). now f_equal.
Qed.

(** ** [SameValueZero] on parsed values *)
Lemma same_value_zero_eq (a b : value) : same_value_zero a b = true -> a = b.
Proof.
  destruct a, b; simpl; try discriminate; try reflexivity; intros H.
  - apply Bool.eqb_prop in H. now subst.
  - apply str_eqb_eq in H. now subst.
  - apply str_eqb_eq in H. now subst.
Qed.

Lemma same_value_zero_str (a b : jsstring) :
  same_value_zero (VStr a) (VStr b) = str_eqb a b.
Proof. reflexivity. Qed.

Lemma map_get_set {V} (k k' : value) (v : V) (m : jsmap V) :
  same_value_zero k k = true ->
  map_get k (map_set k' v m) =
  if same_value_zero k' k then Some v else map_get k m.
Proof.
  intros Hk. induction m as [|[k1 v1] m IH]; simpl.
  - reflexivity.
  - destruct (same_value_zero k1 k') eqn:E1; simpl.
    + apply same_value_zero_eq in E1. subst k1.
      now destruct (same_value_zero k' k).
    + rewrite IH. destruct (same_value_zero k1 k) eqn:E2; [|reflexivity].
      destruct (same_value_zero k' k) eqn:E3; [|reflexivity].
      apply same_value_zero_eq in E2, E3. subst. congruence.
Qed.

Lemma set_has_add (s : jsset) (k x : value) :
  same_value_zero x x = true ->
  set_has (set_add k s) x = set_has s x || same_value_zero k x.
Proof.
  intros Hx. unfold set_add. destruct (set_has s k) eqn:E.
  - destruct (same_value_zero k x) eqn:Ek; [|now rewrite orb_false_r].
    apply same_value_zero_eq in Ek. subst. now rewrite E.
  - unfold set_has. rewrite existsb_app. simpl. now rewrite orb_false_r.
Qed.

Lemma set_has_Set_of (items : list value) (x : value) :
  same_value_zero x x = true ->
  set_has (Set_of items) x = existsb (fun k => same_value_zero k x) items.
Proof.
  intros Hx. unfold Set_of.
  assert (G : forall s, set_has (fold_left (fun s k => set_add k s) items s) x
                        = set_has s x || existsb (fun k => same_value_zero k x) items).
  { induction items as [|k items IH]; intros s; simpl.
    - now rewrite orb_false_r.
    - rewrite IH, set_has_add by exact Hx. now rewrite orb_assoc. }
  now rewrite G.
Qed.

End JSFacts.

(* ================================================================== *)
(** * services/geminiService.ts: language detection and response parsing *)
(* ================================================================== *)

Module ParsingFacts.
Import JS JSFacts GeminiService.

Local Open Scope N_scope.

(** ** Counting *)
Lemma matches_length_filter (re : N -> bool) (text : jsstring) :
  matches_length (match_global re text) = length (filter re text).
Proof.
  unfold match_global. destruct (filter re text) as [|c ms]; [reflexivity|].
  cbn [matches_length]. now rewrite length_map.
Qed.

Lemma enRegex_latin (c : N) : enRegex c = is_latin_letter c.
Proof. unfold enRegex, is_latin_letter. apply orb_comm. Qed.

Lemma zhRegex_cjk (c : N) : zhRegex c = is_cjk c.
Proof. reflexivity. Qed.

Lemma count_step_counts (a b : nat) (text : jsstring) :
  count_step (a, b) text
  = ((a + length (filter is_latin_letter text))%nat,
     (b + length (filter is_cjk text))%nat).
Proof.
  unfold count_step. destruct text as [|c text].
  - simpl. now rewrite !Nat.add_0_r.
  - cbn [is_empty]. rewrite !matches_length_filter.
    rewrite (filter_ext _ _ enRegex_latin), (filter_ext _ _ zhRegex_cjk).
    reflexivity.
Qed.

Lemma fold_count_step (texts : list jsstring) (a b : nat) :
  fold_left count_step texts (a, b)
  = ((a + latin_count texts)%nat, (b + cjk_count texts)%nat).
Proof.
  revert a b. induction texts as [|text texts IH]; intros a b.
  - unfold latin_count, cjk_count. simpl. now rewrite !Nat.add_0_r.
  - cbn [fold_left]. rewrite count_step_counts, IH.
    unfold latin_count, cjk_count. cbn [concat].
    rewrite !filter_app, !length_app. f_equal; lia.
Qed.

(** ** The regular expression against the first fenced block *)
Lemma fence_head (s : jsstring) :
  startsWith s fence = true -> exists s', s = 96 :: s'.
Proof.
  destruct s as [|c s]; [discriminate|].
  cbn. intros H. apply andb_prop in H as [H _].
  apply N.eqb_eq in H. subst. now exists s.
Qed.

Lemma startsWith_fence_closes (s : jsstring) :
  startsWith s fence = true -> closes s = true.
Proof.
  intros H. unfold closes. destruct (fence_head _ H) as [s' ->].
  now rewrite trimStart_head by reflexivity.
Qed.

Lemma closes_space (c : N) (s : jsstring) :
  is_space c = true -> closes (c :: s) = closes s.
Proof. intros H. unfold closes. simpl. now rewrite H. Qed.

Lemma closes_nonspace (c : N) (s : jsstring) :
  is_space c = false -> closes (c :: s) = startsWith (c :: s) fence.
Proof. intros H. unfold closes. now rewrite trimStart_head. Qed.

(** Whitespace given back by the greedy [\s*] after the opening fence cannot
    make the rest match. *)
Lemma lazy_capture_skip_space (c : N) (s : jsstring) :
  is_space c = true -> lazy_capture s = None -> lazy_capture (c :: s) = None.
Proof.
  intros Hc H. cbn [lazy_capture]. rewrite closes_space by exact Hc.
  destruct s as [|d s]; cbn [lazy_capture] in H |- *.
  - destruct (closes []); [discriminate|]. reflexivity.
  - destruct (closes (d :: s)); [discriminate|]. now rewrite H.
Qed.

Lemma split_fence_spaces (ws t : jsstring) :
  forallb is_space ws = true -> startsWith t fence = true ->
  split_at_first fence (ws ++ t) = Some (ws, skipn (length fence) t).
Proof.
  intros Hws Ht. induction ws as [|c ws IH]; cbn [app].
  - destruct t as [|d t]; [discriminate|].
    cbn [split_at_first]. now rewrite Ht.
  - cbn [forallb] in Hws. apply andb_prop in Hws as [Hc Hws].
    cbn [split_at_first].
    assert (E : startsWith (c :: ws ++ t) fence = false).
    { destruct (startsWith (c :: ws ++ t) fence) eqn:E; [|reflexivity].
      destruct (fence_head _ E) as [s' E']. injection E' as -> _. discriminate. }
    rewrite E, (IH Hws). reflexivity.
Qed.

(** The lazy group is the text up to the next fence, without its trailing
    whitespace. *)
Lemma lazy_capture_split (r : jsstring) :
  lazy_capture r =
  match split_at_first fence r with
  | Some (inner, _) => Some (trimEnd inner)
  | None => None
  end.
Proof.
  induction r as [|c r IH].
  - reflexivity.
  - cbn [lazy_capture]. destruct (closes (c :: r)) eqn:Hcl.
    + unfold closes in Hcl.
      destruct (trimStart_split (c :: r)) as [ws [E Hws]].
      rewrite E at 1. rewrite (split_fence_spaces _ _ Hws Hcl).
      unfold trimEnd.
      rewrite trimStart_all_space; [reflexivity|].
      rewrite forallb_forall in *. intros x Hx. apply Hws. now apply in_rev.
    + assert (Hs : startsWith (c :: r) fence = false).
      { destruct (startsWith (c :: r) fence) eqn:Hs; [|reflexivity].
        apply startsWith_fence_closes in Hs. congruence. }
      cbn [split_at_first]. rewrite Hs, IH.
      destruct (split_at_first fence r) as [[inner after]|] eqn:Hsp; [|reflexivity].
      cbn [option_map]. f_equal.
      destruct (trimEnd inner) as [|x xs] eqn:Ht.
      * apply trimEnd_nil_all_space in Ht.
        rewrite (trimEnd_cons_all_space c _ Ht).
        destruct (is_space c) eqn:Hc; [exfalso|reflexivity].
        (* the whole of [c :: inner] would be whitespace before a fence *)
        assert (Hr : exists after', r = inner ++ after' /\ startsWith after' fence = true).
        { clear - Hsp. revert inner after Hsp.
          induction r as [|d r IHr]; intros inner after Hsp; cbn [split_at_first] in Hsp.
          - destruct (startsWith [] fence) eqn:E; [discriminate E|discriminate].
          - destruct (startsWith (d :: r) fence) eqn:E.
            + injection Hsp as <- _. now exists (d :: r).
            + destruct (split_at_first fence r) as [[i a]|]; [|discriminate].
              injection Hsp as <- <-. destruct (IHr i a eq_refl) as [a' [-> Ha']].
              now exists a'. }
        destruct Hr as [after' [-> Ha']].
        rewrite closes_space in Hcl by exact Hc.
        unfold closes in Hcl. rewrite trimStart_spaces in Hcl by exact Ht.
        destruct (fence_head _ Ha') as [s' ->].
        rewrite trimStart_head in Hcl by reflexivity. congruence.
      * rewrite trimEnd_cons; [now rewrite Ht|]. rewrite Ht. discriminate.
Qed.

Lemma split_at_first_app_some (pat p u : jsstring) :
  split_at_first pat u <> None -> split_at_first pat (p ++ u) <> None.
Proof.
  intros H. induction p as [|c p IH]; [exact H|].
  cbn [app split_at_first].
  destruct (startsWith (c :: p ++ u) pat); [discriminate|].
  destruct (split_at_first pat (p ++ u)) as [[a b]|]; [discriminate|contradiction].
Qed.

Lemma split_fence_trimStart (rest : jsstring) :
  match split_at_first fence (trimStart rest) with
  | Some (inner, _) => Some (trimEnd inner)
  | None => None
  end
  = match split_at_first fence rest with
    | Some (inner, _) => Some (trim inner)
    | None => None
    end.
Proof.
  induction rest as [|c rest IH]; [reflexivity|].
  cbn [trimStart]. destruct (is_space c) eqn:Hc.
  - rewrite IH. cbn [split_at_first].
    assert (E : startsWith (c :: rest) fence = false).
    { destruct (startsWith (c :: rest) fence) eqn:E; [|reflexivity].
      destruct (fence_head _ E) as [s' E']. injection E' as -> _. discriminate. }
    rewrite E. destruct (split_at_first fence rest) as [[inner after]|]; [|reflexivity].
    unfold trim. cbn [trimStart]. now rewrite Hc.
  - destruct (split_at_first fence (c :: rest)) as [[inner after]|] eqn:Hsp;
      [|reflexivity].
    f_equal. unfold trim. f_equal.
    cbn [split_at_first] in Hsp.
    destruct (startsWith (c :: rest) fence).
    + injection Hsp as <- _. reflexivity.
    + destruct (split_at_first fence rest) as [[i a]|]; [|discriminate].
      injection Hsp as <- _. now rewrite trimStart_head.
Qed.

Lemma match_here_split (s : jsstring) :
  startsWith s fence_json = true ->
  match_here s =
  match split_at_first fence (skipn (length fence_json) s) with
  | Some (inner, _) => Some (trim inner)
  | None => None
  end.
Proof.
  intros H. unfold match_here. rewrite H, lazy_capture_split.
  apply split_fence_trimStart.
Qed.

Lemma match_here_needs_fence (s : jsstring) :
  match_here s <> None ->
  split_at_first fence (skipn (length fence_json) s) <> None.
Proof.
  intros Hm. destruct (startsWith s fence_json) eqn:H.
  - rewrite (match_here_split _ H) in Hm.
    destruct (split_at_first fence (skipn (length fence_json) s)); congruence.
  - unfold match_here in Hm. rewrite H in Hm. congruence.
Qed.

Lemma jsonRegex_exec_none (s : jsstring) :
  (forall k, match_here (skipn k s) = None) -> jsonRegex_exec s = None.
Proof.
  induction s as [|c s IH]; intros H.
  - cbn [jsonRegex_exec]. pose proof (H 0%nat) as H0. cbn [skipn] in H0.
    now rewrite H0.
  - cbn [jsonRegex_exec]. pose proof (H 0%nat) as H0. cbn [skipn] in H0.
    rewrite H0. apply IH. intros k. exact (H (S k)).
Qed.

(** The engine's match is the first fenced block. *)
Lemma jsonRegex_exec_first_block (rawText : jsstring) :
  jsonRegex_exec rawText = first_fenced_block rawText.
Proof.
  unfold first_fenced_block.
  induction rawText as [|c s IH].
  - reflexivity.
  - cbn [jsonRegex_exec split_at_first].
    destruct (startsWith (c :: s) fence_json) eqn:Hs.
    + rewrite (match_here_split _ Hs).
      destruct (split_at_first fence (skipn (length fence_json) (c :: s)))
        as [[inner after]|] eqn:Hsp; [reflexivity|].
      apply jsonRegex_exec_none. intros k.
      destruct (match_here (skipn k s)) eqn:Hm; [exfalso|reflexivity].
      assert (Hn : match_here (skipn k s) <> None) by congruence.
      apply match_here_needs_fence in Hn.
      apply Hn. clear Hn Hm.
      (* the text after position [k] lies inside the text after the fence *)
      change (skipn k s) with (skipn (S k) (c :: s)).
      rewrite skipn_skipn, Nat.add_comm, <- skipn_skipn.
      destruct (split_at_first fence
                  (skipn (S k) (skipn (length fence_json) (c :: s)))) eqn:E;
        [|reflexivity].
      exfalso.
      apply (split_at_first_app_some fence
               (firstn (S k) (skipn (length fence_json) (c :: s)))
               (skipn (S k) (skipn (length fence_json) (c :: s)))).
      * congruence.
      * now rewrite firstn_skipn.
    + unfold match_here at 1. rewrite Hs. rewrite IH.
      destruct (split_at_first fence_json s) as [[before rest]|]; reflexivity.
Qed.

Lemma split_at_first_sound (pat s before after : jsstring) :
  split_at_first pat s = Some (before, after) -> s = before ++ pat ++ after.
Proof.
  revert before after. induction s as [|c s IH]; intros before after H;
    cbn [split_at_first] in H.
  - destruct (startsWith [] pat) eqn:E; [|discriminate].
    injection H as <- <-. now apply startsWith_split in E.
  - destruct (startsWith (c :: s) pat) eqn:E.
    + injection H as <- <-. now apply startsWith_split in E.
    + destruct (split_at_first pat s) as [[b a]|]; [|discriminate].
      injection H as <- <-. cbn [app]. f_equal. now apply IH.
Qed.

End ParsingFacts.

(* ================================================================== *)
(** * services/geminiService.ts: the graph built from a response *)
(* ================================================================== *)

Module GraphFacts.
Import JS JSFacts GeminiService.

Lemma is_ok_true {A} (r : result A) : is_ok r = true <-> exists a, r = Ok a.
Proof.
  destruct r as [a|e]; cbn; split; intros H; try discriminate.
  - now exists a.
  - reflexivity.
  - destruct H as [a H]. discriminate.
Qed.

(** ** The array methods succeed when the callback succeeds on every element *)
Lemma is_ok_map_result {X Y} (f : X -> result Y) (l : list X) :
  is_ok (map_result f l) = forallb (fun x => is_ok (f x)) l.
Proof.
  induction l as [|x l IH]; cbn; [reflexivity|].
  destruct (f x); cbn; [|reflexivity].
  rewrite <- IH. now destruct (map_result f l).
Qed.

Lemma is_ok_filter_result {X} (f : X -> result bool) (l : list X) :
  is_ok (filter_result f l) = forallb (fun x => is_ok (f x)) l.
Proof.
  induction l as [|x l IH]; cbn; [reflexivity|].
  destruct (f x); cbn; [|reflexivity].
  rewrite <- IH. now destruct (filter_result f l).
Qed.

Lemma is_ok_mapi_result {X Y} (f : X -> nat -> result Y) (g : X -> bool)
  (i : nat) (l : list X) :
  (forall x k, is_ok (f x k) = g x) ->
  is_ok (mapi_result f i l) = forallb g l.
Proof.
  intros H. revert i. induction l as [|x l IH]; intros i; cbn; [reflexivity|].
  rewrite <- (H x i). destruct (f x i); cbn; [|reflexivity].
  rewrite <- (IH (S i)). now destruct (mapi_result f (S i) l).
Qed.

Lemma is_ok_fold_result {S X} (f : S -> X -> result S) (g : X -> bool)
  (l : list X) (s : S) :
  (forall s x, is_ok (f s x) = g x) ->
  is_ok (fold_result f l s) = forallb g l.
Proof.
  intros H. revert s. induction l as [|x l IH]; intros s; cbn; [reflexivity|].
  rewrite <- (H s x). destruct (f s x); cbn; [apply IH|reflexivity].
Qed.

Lemma map_result_map {X Y} (f : X -> result Y) (g : X -> Y) (l : list X) :
  (forall x, In x l -> f x = Ok (g x)) -> map_result f l = Ok (map g l).
Proof.
  induction l as [|x l IH]; intros H; cbn; [reflexivity|].
  rewrite (H x (or_introl eq_refl)), IH; [reflexivity|].
  intros y Hy. apply H. now right.
Qed.

Lemma filter_result_filter {X} (f : X -> result bool) (g : X -> bool) (l : list X) :
  (forall x, In x l -> f x = Ok (g x)) -> filter_result f l = Ok (filter g l).
Proof.
  induction l as [|x l IH]; intros H; cbn; [reflexivity|].
  rewrite (H x (or_introl eq_refl)), IH; [reflexivity|].
  intros y Hy. apply H. now right.
Qed.

Lemma mapi_result_nth {X Y} (f : X -> nat -> result Y) (l : list X) :
  forall i ys, mapi_result f i l = Ok ys ->
  forall k y, nth_error ys k = Some y ->
  exists x, nth_error l k = Some x /\ f x (i + k) = Ok y.
Proof.
  induction l as [|x l IH]; intros i ys H k y Hk; cbn in H.
  - injection H as <-. destruct k; discriminate.
  - destruct (f x i) as [y0|] eqn:Hf; [|discriminate].
    destruct (mapi_result f (S i) l) as [ys'|] eqn:Hr; [|discriminate].
    injection H as <-. destruct k as [|k]; cbn in Hk.
    + injection Hk as <-. exists x. split; [reflexivity|].
      now rewrite Nat.add_0_r.
    + destruct (IH (S i) ys' Hr k y Hk) as [x' [Hx Hfx]].
      exists x'. split; [exact Hx|]. now rewrite <- plus_n_Sm.
Qed.

Lemma fold_result_ok {S X} (f : S -> X -> result S) (g : S -> X -> S)
  (l : list X) (s : S) :
  (forall s x, In x l -> f s x = Ok (g s x)) ->
  fold_result f l s = Ok (fold_left g l s).
Proof.
  revert s. induction l as [|x l IH]; intros s H; cbn; [reflexivity|].
  rewrite (H s x (or_introl eq_refl)). apply IH.
  intros s' y Hy. apply H. now right.
Qed.

(** ** When each callback of [build_graph] succeeds *)
Lemma is_ok_array_items (v : value) : is_ok (array_items v) = isArray v.
Proof. now destruct v. Qed.

Lemma is_ok_get_prop (v : value) (k : jsstring) :
  is_ok (get_prop v k) = not_nullish v.
Proof. destruct v; cbn; try reflexivity. now destruct (lookup k props). Qed.

Lemma is_ok_register_concept (m : jsmap value) (concept : value) :
  is_ok (register_concept m concept) = has_variables concept.
Proof.
  unfold register_concept.
  destruct concept; cbn; try reflexivity.
  destruct (lookup (js "variables") props) as [v|]; cbn; [|reflexivity].
  destruct v; cbn; try reflexivity.
  rewrite (is_ok_fold_result _ (fun _ => true)).
  - now induction items.
  - intros s x. now destruct (lookup (js "name") props).
Qed.

Lemma is_ok_make_node (m : jsmap value) (node : value) :
  is_ok (make_node m node) = not_nullish node.
Proof.
  unfold make_node. destruct node; cbn; try reflexivity.
  destruct (lookup (js "id") props), (lookup (js "isCore") props); reflexivity.
Qed.

Lemma is_ok_keep_link (s : jsset) (link : value) :
  is_ok (keep_link s link) = not_nullish link.
Proof.
  unfold keep_link. destruct link; cbn; try reflexivity;
    try (destruct (set_has s VUndefined); reflexivity).
  destruct (lookup (js "source") props) as [v|]; cbn;
    [destruct (set_has s v)|destruct (set_has s VUndefined)]; cbn;
    try reflexivity; now destruct (lookup (js "target") props).
Qed.

Lemma is_ok_make_concept (nm : jsmap GraphNode) (concept : value) (index : nat) :
  is_ok (make_concept nm concept index) = concept_shaped concept.
Proof.
  unfold make_concept, concept_shaped.
  destruct concept; try reflexivity.
  cbn [get_prop bind result_monad].
  destruct (lookup (js "name") props) as [n|];
    cbn [bind result_monad].
  - destruct (to_string n); cbn [bind result_monad].
    + destruct (lookup (js "variables") props) as [v|]; [|reflexivity].
      now destruct v.
    + destruct (lookup (js "variables") props) as [v|]; [|reflexivity].
      now destruct v.
  - change (to_string VUndefined) with (Ok (A:=jsstring) (js "undefined")).
    cbn [bind result_monad].
    destruct (lookup (js "variables") props) as [v|]; [|reflexivity].
    now destruct v.
Qed.

Lemma concept_shaped_has_variables (concept : value) :
  concept_shaped concept = true -> has_variables concept = true.
Proof.
  unfold concept_shaped, has_variables. destruct concept; try discriminate.
  destruct (lookup (js "variables") props) as [v|]; [|discriminate].
  now destruct v.
Qed.

(** On three arrays, the construction succeeds exactly on a well-shaped
    response. *)
Lemma is_ok_build_graph_arrays (ns ls cs : list value) :
  is_ok (build_graph (VArr ns) (VArr ls) (VArr cs))
  = forallb not_nullish ns && forallb not_nullish ls && forallb concept_shaped cs.
Proof.
  unfold build_graph. cbn [array_items bind result_monad].
  destruct (fold_result register_concept cs []) as [m|e] eqn:E1.
  - destruct (map_result (make_node m) ns) as [nodes|e] eqn:E2.
    + pose proof (f_equal is_ok E2) as H2. rewrite is_ok_map_result in H2.
      rewrite (forallb_ext _ _ _ (is_ok_make_node m)) in H2. cbn in H2. rewrite H2.
      destruct (filter_result (keep_link (Set_of (map node_id nodes))) ls)
        as [links|e] eqn:E3.
      * pose proof (f_equal is_ok E3) as H3. rewrite is_ok_filter_result in H3.
        rewrite (forallb_ext _ _ _ (is_ok_keep_link _)) in H3. cbn in H3. rewrite H3.
        cbn [andb].
        rewrite <- (is_ok_mapi_result
                      (make_concept (Map_of (map (fun node => (node_id node, node)) nodes)))
                      concept_shaped 0 cs (is_ok_make_concept _)).
        now destruct (mapi_result _ 0 cs).
      * pose proof (f_equal is_ok E3) as H3. rewrite is_ok_filter_result in H3.
        rewrite (forallb_ext _ _ _ (is_ok_keep_link _)) in H3. cbn in H3. now rewrite H3.
    + pose proof (f_equal is_ok E2) as H2. rewrite is_ok_map_result in H2.
      rewrite (forallb_ext _ _ _ (is_ok_make_node m)) in H2. cbn in H2. now rewrite H2.
  - pose proof (f_equal is_ok E1) as H1.
    rewrite (is_ok_fold_result _ has_variables) in H1
      by (intros; apply is_ok_register_concept).
    cbn in H1. symmetry.
    destruct (forallb concept_shaped cs) eqn:Hc; [|now rewrite !andb_false_r].
    exfalso. rewrite forallb_forall in Hc.
    assert (forallb has_variables cs = true).
    { apply forallb_forall. intros x Hx. apply concept_shaped_has_variables. auto. }
    congruence.
Qed.

Lemma is_ok_build_graph_not_arrays (rn rl rc : value) :
  isArray rn && isArray rl && isArray rc = false ->
  is_ok (build_graph rn rl rc) = false.
Proof.
  intros H. unfold build_graph.
  destruct (array_items rc) as [cs|] eqn:Ec; [|reflexivity].
  cbn [bind result_monad].
  destruct (fold_result register_concept cs []) as [m|]; [|reflexivity].
  destruct (array_items rn) as [ns|] eqn:En; [|reflexivity].
  cbn [bind result_monad].
  destruct (map_result (make_node m) ns) as [nodes|]; [|reflexivity].
  destruct (array_items rl) as [ls|] eqn:El; [|reflexivity].
  exfalso.
  pose proof (f_equal is_ok Ec) as Hc. pose proof (f_equal is_ok En) as Hn.
  pose proof (f_equal is_ok El) as Hl.
  rewrite is_ok_array_items in Hc, Hn, Hl. cbn in Hc, Hn, Hl.
  rewrite Hc, Hn, Hl in H. discriminate.
Qed.

Lemma is_ok_graph_of_response (response : value) :
  is_ok (graph_of_response response) = well_shaped response.
Proof.
  unfold graph_of_response, well_shaped.
  destruct (get_prop response (js "nodes")) as [rn|]; [|reflexivity].
  destruct (get_prop response (js "links")) as [rl|];
    [|now destruct rn].
  destruct (get_prop response (js "concepts")) as [rc|];
    [|now destruct rn, rl].
  cbn [bind result_monad].
  destruct (isArray rn && isArray rl && isArray rc) eqn:Ha.
  - destruct rn, rl, rc; try discriminate. cbn [truthy negb orb].
    apply is_ok_build_graph_arrays.
  - transitivity false.
    + destruct (negb (truthy rn) || negb (truthy rl) || negb (truthy rc));
        [reflexivity|]. now apply is_ok_build_graph_not_arrays.
    + destruct rn; try reflexivity; destruct rl; try reflexivity;
        destruct rc; try reflexivity; discriminate.
Qed.

(** ** A response of the annotated types *)
Lemma get_id (n : NodeSpec) :
  get_prop (node_value n) (js "id") = Ok (VStr (spec_id n)).
Proof. reflexivity. Qed.

Lemma get_isCore (n : NodeSpec) :
  get_prop (node_value n) (js "isCore") = Ok (VBool (spec_isCore n)).
Proof. reflexivity. Qed.

Lemma get_source (l : LinkSpec) :
  get_prop (link_value l) (js "source") = Ok (VStr (spec_source l)).
Proof. reflexivity. Qed.

Lemma get_target (l : LinkSpec) :
  get_prop (link_value l) (js "target") = Ok (VStr (spec_target l)).
Proof. reflexivity. Qed.

Lemma get_name (c : ConceptSpec) :
  get_prop (concept_value c) (js "name") = Ok (VStr (spec_name c)).
Proof. reflexivity. Qed.

Lemma get_variables (c : ConceptSpec) :
  get_prop (concept_value c) (js "variables")
  = Ok (VArr (map VStr (spec_variables c))).
Proof. reflexivity. Qed.

Lemma get_nodes ns ls cs :
  get_prop (response_value ns ls cs) (js "nodes") = Ok (VArr (map node_value ns)).
Proof. reflexivity. Qed.

Lemma get_links ns ls cs :
  get_prop (response_value ns ls cs) (js "links") = Ok (VArr (map link_value ls)).
Proof. reflexivity. Qed.

Lemma get_concepts ns ls cs :
  get_prop (response_value ns ls cs) (js "concepts")
  = Ok (VArr (map concept_value cs)).
Proof. reflexivity. Qed.

Lemma register_concept_typed (m : jsmap value) (c : ConceptSpec) :
  register_concept m (concept_value c) = Ok (register_typed m c).
Proof.
  unfold register_concept, register_typed.
  rewrite get_variables. cbn [bind result_monad array_items].
  generalize (spec_variables c) as vars. intros vars. revert m.
  induction vars as [|v vars IH]; intros m; cbn [map fold_result fold_left].
  - reflexivity.
  - rewrite get_name. cbn [bind result_monad ret]. apply IH.
Qed.

Lemma fold_register_typed (cs : list ConceptSpec) (m : jsmap value) :
  fold_result register_concept (map concept_value cs) m
  = Ok (fold_left register_typed cs m).
Proof.
  revert m. induction cs as [|c cs IH]; intros m; cbn [map fold_result fold_left].
  - reflexivity.
  - rewrite register_concept_typed. apply IH.
Qed.

Lemma map_get_register_typed (m : jsmap value) (c : ConceptSpec) (id : jsstring) :
  map_get (VStr id) (register_typed m c)
  = if lists id c then Some (VStr (spec_name c)) else map_get (VStr id) m.
Proof.
  unfold register_typed, lists.
  generalize (spec_variables c) as vars. intros vars. revert m.
  induction vars as [|v vars IH]; intros m; cbn [fold_left existsb].
  - reflexivity.
  - rewrite IH, map_get_set by apply str_eqb_refl.
    rewrite same_value_zero_str, (str_eqb_sym v id).
    destruct (str_eqb id v), (existsb (str_eqb id) vars); reflexivity.
Qed.

Lemma map_get_typed_map (cs : list ConceptSpec) (id : jsstring) :
  forall m found,
    map_get (VStr id) m = option_map VStr found ->
    map_get (VStr id) (fold_left register_typed cs m)
    = option_map VStr
        (fold_left (fun found c => if lists id c then Some (spec_name c) else found)
                   cs found).
Proof.
  induction cs as [|c cs IH]; intros m found H; cbn [fold_left].
  - exact H.
  - apply IH. rewrite map_get_register_typed.
    destruct (lists id c); [reflexivity|exact H].
Qed.

Lemma make_node_typed (cs : list ConceptSpec) (n : NodeSpec) :
  make_node (fold_left register_typed cs []) (node_value n) = Ok (expected_node cs n).
Proof.
  unfold make_node, expected_node.
  rewrite get_id, get_isCore. cbn [bind result_monad ret].
  rewrite (map_get_typed_map cs (spec_id n) [] None eq_refl).
  unfold group_name, listing_name.
  destruct (fold_left _ cs None) as [name|]; cbn [option_map]; [|reflexivity].
  unfold or_else. cbn [truthy]. now destruct (is_empty name).
Qed.

Lemma node_ids_expected (cs : list ConceptSpec) (ns : list NodeSpec) :
  map node_id (map (expected_node cs) ns) = map (fun n => VStr (spec_id n)) ns.
Proof. now rewrite map_map. Qed.

Lemma set_has_node_ids (cs : list ConceptSpec) (ns : list NodeSpec) (id : jsstring) :
  set_has (Set_of (map node_id (map (expected_node cs) ns))) (VStr id) = known ns id.
Proof.
  rewrite set_has_Set_of by apply str_eqb_refl.
  rewrite node_ids_expected. unfold known.
  induction ns as [|n ns IH]; cbn [map existsb]; [reflexivity|].
  now rewrite IH.
Qed.

Lemma keep_link_typed (cs : list ConceptSpec) (ns : list NodeSpec) (l : LinkSpec) :
  keep_link (Set_of (map node_id (map (expected_node cs) ns))) (link_value l)
  = Ok (both_known ns l).
Proof.
  unfold keep_link, both_known.
  rewrite get_source. cbn [bind result_monad ret].
  rewrite set_has_node_ids. destruct (known ns (spec_source l)); [|reflexivity].
  rewrite get_target. cbn [bind result_monad ret]. now rewrite set_has_node_ids.
Qed.

Lemma known_In (ns : list NodeSpec) (id : jsstring) :
  known ns id = true <-> In (VStr id) (map (fun n => VStr (spec_id n)) ns).
Proof.
  unfold known. rewrite existsb_exists, in_map_iff. split.
  - intros [n [Hn E]]. apply str_eqb_eq in E. exists n. split; [now rewrite E|exact Hn].
  - intros [n [E Hn]]. injection E as E. exists n. split; [exact Hn|].
    now apply str_eqb_eq.
Qed.

(** ** The [nodeMap] holds nodes of the graph only *)
Lemma map_set_In {V} (k : value) (v : V) (m : jsmap V) (k0 : value) (x : V) :
  In (k0, x) (map_set k v m) -> (x = v /\ k0 = k) \/ In (k0, x) m.
Proof.
  induction m as [|[k1 v1] m IH]; cbn [map_set].
  - intros [E|[]]. injection E as <- <-. now left.
  - destruct (same_value_zero k1 k) eqn:E1.
    + intros [E|H].
      * injection E as <- <-. left. split; [reflexivity|].
        now apply same_value_zero_eq.
      * right. now right.
    + intros [E|H].
      * right. now left.
      * destruct (IH H) as [L|R]; [now left|right; now right].
Qed.

Lemma map_get_In {V} (k : value) (m : jsmap V) (x : V) :
  map_get k m = Some x -> exists k0, In (k0, x) m /\ k0 = k.
Proof.
  induction m as [|[k1 v1] m IH]; cbn [map_get]; [discriminate|].
  destruct (same_value_zero k1 k) eqn:E.
  - intros H. injection H as <-. exists k1. split; [now left|].
    now apply same_value_zero_eq.
  - intros H. destruct (IH H) as [k0 [Hin Hk]]. exists k0. split; [now right|exact Hk].
Qed.

Lemma Map_of_In {V} (entries : list (value * V)) (k0 : value) (x : V) :
  In (k0, x) (Map_of entries) -> In (k0, x) entries.
Proof.
  unfold Map_of.
  assert (G : forall m, In (k0, x) (fold_left (fun m kv => map_set (fst kv) (snd kv) m)
                                              entries m) ->
                        In (k0, x) entries \/ In (k0, x) m).
  { induction entries as [|[k v] entries IH]; intros m H; cbn [fold_left] in H.
    - now right.
    - destruct (IH _ H) as [L|R]; [left; now right|].
      cbn [fst snd] in R. destruct (map_set_In _ _ _ _ _ R) as [[-> ->]|R'].
      + left. now left.
      + now right. }
  intros H. destruct (G [] H) as [L|[]]. exact L.
Qed.

Lemma defined_In {X} (l : list (option X)) (x : X) :
  In x (defined l) <-> In (Some x) l.
Proof.
  induction l as [|[y|] l IH]; cbn [defined]; [tauto| |].
  - cbn [In]. rewrite IH. split; intros [E|H]; try (right; exact H).
    + left. now f_equal.
    + left. now injection E.
  - cbn [In]. rewrite IH. split; [now right|]. intros [E|H]; [discriminate|exact H].
Qed.

(** A child found for [variableId] is a node of the list, with that id. *)
Lemma child_is_node (nodes : list GraphNode) (variableId : value) (child : GraphNode) :
  map_get variableId (Map_of (map (fun node => (node_id node, node)) nodes)) = Some child ->
  In child nodes /\ node_id child = variableId.
Proof.
  intros H. destruct (map_get_In _ _ H) as [k0 [Hin ->]].
  apply Map_of_In in Hin. apply in_map_iff in Hin as [n [E Hn]].
  injection E as E1 E2. subst. now split.
Qed.

Lemma make_concept_typed (nm : jsmap GraphNode) (c : ConceptSpec) (index : nat) :
  make_concept nm (concept_value c) index
  = Ok {| concept_id := spec_name c ++ dash :: decimal (N.of_nat index);
          concept_name := VStr (spec_name c);
          children := defined (map (fun variableId => map_get variableId nm)
                                   (map VStr (spec_variables c))) |}.
Proof.
  unfold make_concept. rewrite get_name, get_variables. reflexivity.
Qed.

(** ** Identifiers of the concepts *)
Lemma make_concept_id (nm : jsmap GraphNode) (concept : value) (index : nat)
  (k : Concept) :
  make_concept nm concept index = Ok k ->
  exists text, concept_id k = text ++ dash :: decimal (N.of_nat index).
Proof.
  unfold make_concept. intros H.
  destruct (get_prop concept (js "name")) as [n|]; [|discriminate].
  cbn [bind result_monad] in H.
  destruct (to_string n) as [text|]; [|discriminate].
  cbn [bind result_monad] in H.
  destruct (get_prop concept (js "variables")) as [v|]; [|discriminate].
  cbn [bind result_monad] in H.
  destruct (array_items v) as [items|]; [|discriminate].
  cbn [bind result_monad ret] in H. injection H as <-. now exists text.
Qed.

Lemma concept_ids_distinct (nm : jsmap GraphNode) (items : list value)
  (concepts : list Concept) :
  mapi_result (make_concept nm) 0 items = Ok concepts ->
  NoDup (map concept_id concepts).
Proof.
  intros H. apply NoDup_nth_error. intros i j Hi E.
  rewrite length_map in Hi.
  rewrite !nth_error_map in E.
  destruct (nth_error concepts i) as [ci|] eqn:Ei;
    [|apply nth_error_None in Ei; lia].
  destruct (nth_error concepts j) as [cj|] eqn:Ej; [|discriminate].
  cbn [option_map] in E. injection E as E.
  destruct (mapi_result_nth _ _ _ H _ Ei) as [xi [_ Hfi]].
  destruct (mapi_result_nth _ _ _ H _ Ej) as [xj [_ Hfj]].
  destruct (make_concept_id _ _ _ Hfi) as [ti Hti].
  destruct (make_concept_id _ _ _ Hfj) as [tj Htj].
  rewrite Hti, Htj in E. apply dash_suffix_inj in E as [_ E]. cbn in E. lia.
Qed.

Lemma build_graph_node_ids (rn rl rc : value) (g : GraphData) (concepts : list Concept) :
  build_graph rn rl rc = Ok (g, concepts) ->
  exists items, rn = VArr items
                /\ map_result (fun node => get_prop node (js "id")) items
                   = Ok (map node_id (nodes g)).
Proof.
  unfold build_graph. intros H.
  destruct (array_items rc) as [cs|]; [|discriminate]. cbn [bind result_monad] in H.
  destruct (fold_result register_concept cs []) as [m|]; [|discriminate].
  destruct (array_items rn) as [ns|] eqn:En; [|discriminate].
  cbn [bind result_monad] in H.
  destruct (map_result (make_node m) ns) as [nodes|] eqn:Em; [|discriminate].
  destruct (array_items rl) as [ls|]; [|discriminate]. cbn [bind result_monad] in H.
  destruct (filter_result _ ls) as [links|]; [|discriminate].
  destruct (mapi_result _ 0 cs) as [ks|]; [|discriminate].
  cbn [ret result_monad] in H. injection H as <- <-. cbn [GeminiService.nodes].
  exists ns. split; [destruct rn; try discriminate; cbn in En; now injection En as ->|].
  clear - Em. revert nodes Em. induction ns as [|n ns IH]; intros nodes Em; cbn in *.
  - now injection Em as <-.
  - destruct (get_prop n (js "id")) as [id|]; [|discriminate].
    destruct (get_prop n (js "isCore")) as [core|]; [|discriminate].
    destruct (map_result (make_node m) ns) as [nodes'|]; [|discriminate].
    injection Em as <-. cbn. now rewrite (IH nodes' eq_refl).
Qed.

Lemma build_graph_concept_ids (rn rl rc : value) (g : GraphData)
  (concepts : list Concept) :
  build_graph rn rl rc = Ok (g, concepts) -> NoDup (map concept_id concepts).
Proof.
  unfold build_graph. intros H.
  destruct (array_items rc) as [cs|]; [|discriminate]. cbn [bind result_monad] in H.
  destruct (fold_result register_concept cs []) as [m|]; [|discriminate].
  destruct (array_items rn) as [ns|]; [|discriminate]. cbn [bind result_monad] in H.
  destruct (map_result (make_node m) ns) as [nodes|]; [|discriminate].
  destruct (array_items rl) as [ls|]; [|discriminate]. cbn [bind result_monad] in H.
  destruct (filter_result _ ls) as [links|]; [|discriminate].
  destruct (mapi_result _ 0 cs) as [ks|] eqn:Ek; [|discriminate].
  cbn [ret result_monad] in H. injection H as <- <-.
  eapply concept_ids_distinct. exact Ek.
Qed.

End GraphFacts.

(* ================================================================== *)
(** * App.tsx: how one upload runs *)
(* ================================================================== *)

Module AppFacts.
Import JS JSFacts App.

Local Open Scope N_scope.

Lemma state_eta (st : State) : {| papers := papers st; trace := trace st |} = st.
Proof. now destruct st. Qed.

(** ** Updates of one paper *)
Lemma update_paper_same (id : jsstring) (ps : list Paper) :
  update_paper id (fun p => p) ps = ps.
Proof.
  unfold update_paper. induction ps as [|p ps IH]; cbn; [reflexivity|].
  rewrite IH. now destruct (str_eqb (paper_id p) id).
Qed.

Lemma update_paper_twice (id : jsstring) (f g : Paper -> Paper) (ps : list Paper) :
  (forall p, paper_id (f p) = paper_id p) ->
  update_paper id g (update_paper id f ps) = update_paper id (fun p => g (f p)) ps.
Proof.
  intros Hf. unfold update_paper. rewrite map_map. apply map_ext. intros p.
  destruct (str_eqb (paper_id p) id) eqn:E; [|now rewrite E].
  now rewrite Hf, E.
Qed.

Lemma update_paper_ids (id : jsstring) (f : Paper -> Paper) (ps : list Paper) :
  (forall p, paper_id (f p) = paper_id p) ->
  map paper_id (update_paper id f ps) = map paper_id ps.
Proof.
  intros Hf. unfold update_paper. rewrite map_map. apply map_ext. intros p.
  now destruct (str_eqb (paper_id p) id).
Qed.

Lemma update_paper_ext (id : jsstring) (f g : Paper -> Paper) (ps : list Paper) :
  (forall p, f p = g p) -> update_paper id f ps = update_paper id g ps.
Proof.
  intros H. unfold update_paper. apply map_ext. intros p. now rewrite H.
Qed.

Lemma log_update_id (m : LoggerMessage) (p : Paper) :
  paper_id (log_update m p) = paper_id p.
Proof. unfold log_update. now destruct (str_eqb _ _). Qed.

Lemma logged_id (log : list LoggerMessage) (p : Paper) :
  paper_id (fold_left (fun p m => log_update m p) log p) = paper_id p.
Proof.
  revert p. induction log as [|m log IH]; intros p; cbn; [reflexivity|].
  now rewrite IH, log_update_id.
Qed.

Lemma before_settle_id (file : File) (p : Paper) :
  paper_id (before_settle file p) = paper_id p.
Proof.
  unfold before_settle. destruct (reader_for file) as [[| |]|]; try reflexivity.
  destruct (needs_ocr file); [|reflexivity]. now rewrite logged_id.
Qed.

Lemma settle_id (file : File) (p : Paper) : paper_id (settle file p) = paper_id p.
Proof. unfold settle. now destruct (verdict file). Qed.

Lemma settle_settled (file : File) (p : Paper) : settled_as file (settle file p).
Proof.
  unfold settled_as, settle. destruct (verdict file); cbn; repeat split.
Qed.

(** ** Loops *)
Lemma for_of_run {X} (body : X -> program unit) (F : State -> X -> State)
  (l : list X) (st : State) :
  (forall x st, body x st = (Ok tt, F st x)) ->
  for_of l body st = (Ok tt, fold_left F l st).
Proof.
  intros H. revert st. induction l as [|x l IH]; intros st; cbn.
  - reflexivity.
  - rewrite H. apply IH.
Qed.

Lemma logger_run (log : list LoggerMessage) (id : jsstring) (st : State) :
  for_of log (fun m => setPapers (update_paper id (log_update m))) st
  = (Ok tt,
     {| papers := update_paper id (fun p => fold_left (fun p m => log_update m p) log p)
                               (papers st);
        trace := trace st |}).
Proof.
  revert st. induction log as [|m log IH]; intros st; cbn.
  - now rewrite update_paper_same, state_eta.
  - unfold setPapers at 1. rewrite IH. cbn [papers trace].
    now rewrite update_paper_twice by (intros; apply log_update_id).
Qed.

(** ** One file *)
Lemma read_content_run (file : File) (id : jsstring) (st : State) :
  read_content file id st
  = (extracted file,
     {| papers := update_paper id (before_settle file) (papers st);
        trace := trace st ++ attempts file id |}).
Proof.
  unfold read_content, extracted, attempts, before_settle, reader_for, needs_ocr.
  destruct (str_eqb (file_type file) (js "text/plain")).
  { cbn. now rewrite update_paper_same. }
  destruct (str_eqb (file_type file) docx_type || endsWith (file_name file) (js ".docx")).
  { cbn. now rewrite update_paper_same. }
  destruct (str_eqb (file_type file) (js "application/pdf")).
  2:{ cbn. now rewrite update_paper_same, app_nil_r, state_eta. }
  cbn [bind program_monad call await papers trace].
  destruct (withTimeout (parsePdf file) PARSING_TIMEOUT pdf_timeout_message)
    as [textContent|e].
  2:{ now rewrite update_paper_same. }
  destruct (length (trim textContent) <? 100)%nat.
  2:{ cbn. now rewrite update_paper_same. }
  unfold await_ocr.
  cbn [bind program_monad call await papers trace setPapers].
  rewrite logger_run. cbn [papers trace].
  rewrite update_paper_twice by reflexivity.
  now rewrite <- app_assoc.
Qed.

Lemma process_file_run (file : File) (id : jsstring) (st : State) :
  process_file file id st
  = (Ok tt,
     {| papers := update_paper id (fun p => settle file (before_settle file p))
                               (papers st);
        trace := trace st ++ attempts file id |}).
Proof.
  unfold process_file, try_catch_program.
  cbn [bind program_monad]. rewrite read_content_run.
  unfold settle, verdict.
  destruct (extracted file) as [c|e].
  - destruct (is_empty c || (length (trim c) <? 100)%nat);
      cbn [throw]; unfold setPapers; cbn [papers trace];
      now rewrite update_paper_twice by (intros; apply before_settle_id).
  - unfold setPapers. cbn [papers trace].
    now rewrite update_paper_twice by (intros; apply before_settle_id).
Qed.

(** ** The iterations, one after the other *)
Lemma after_iteration_ids (fs : list File) (st : State) (paper : Paper) :
  map paper_id (papers (after_iteration fs st paper)) = map paper_id (papers st).
Proof.
  unfold after_iteration. destruct (found fs (paper_id paper)); [|reflexivity].
  cbn [papers]. apply update_paper_ids. intros p.
  now rewrite settle_id, before_settle_id.
Qed.

Lemma iterations_ids (fs : list File) (l : list Paper) (st : State) :
  map paper_id (papers (fold_left (after_iteration fs) l st)) = map paper_id (papers st).
Proof.
  revert st. induction l as [|q l IH]; intros st; cbn [fold_left]; [reflexivity|].
  now rewrite IH, after_iteration_ids.
Qed.

Lemma iterations_trace (fs : list File) (l : list Paper) (st : State) :
  trace (fold_left (after_iteration fs) l st) = trace st ++ flat_map (block fs) l.
Proof.
  revert st. induction l as [|q l IH]; intros st; cbn [fold_left flat_map].
  - now rewrite app_nil_r.
  - rewrite IH. unfold after_iteration, block.
    destruct (found fs (paper_id q)); cbn [trace]; [|reflexivity].
    now rewrite <- !app_assoc.
Qed.

Lemma after_iteration_settled (fs : list File) (done : list Paper) (st : State)
  (q : Paper) :
  settled_for fs done st -> settled_for fs (done ++ [q]) (after_iteration fs st q).
Proof.
  intros Inv p file Hp Hid Hfound.
  rewrite map_app, in_app_iff in Hid. cbn [map In] in Hid.
  unfold after_iteration in Hp.
  destruct (str_eqb (paper_id p) (paper_id q)) eqn:E.
  - apply str_eqb_eq in E. rewrite <- E, Hfound in Hp. cbn [papers] in Hp.
    unfold update_paper in Hp. apply in_map_iff in Hp as [p0 [Hp0 Hin]].
    destruct (str_eqb (paper_id p0) (paper_id p)) eqn:E0.
    + subst p. apply settle_settled.
    + subst p0. rewrite str_eqb_refl in E0. discriminate.
  - assert (Hold : In p (papers st)).
    { destruct (found fs (paper_id q)); [|exact Hp]. cbn [papers] in Hp.
      unfold update_paper in Hp. apply in_map_iff in Hp as [p0 [Hp0 Hin]].
      destruct (str_eqb (paper_id p0) (paper_id q)) eqn:E0.
      - exfalso. subst p. rewrite settle_id, before_settle_id in E. congruence.
      - now subst p0. }
    apply (Inv p file Hold); [|exact Hfound].
    destruct Hid as [H|[H|[]]]; [exact H|].
    apply str_eqb_neq in E. congruence.
Qed.

Lemma iterations_settled (fs : list File) (l done : list Paper) (st : State) :
  settled_for fs done st ->
  settled_for fs (done ++ l) (fold_left (after_iteration fs) l st).
Proof.
  revert done st. induction l as [|q l IH]; intros done st Inv; cbn [fold_left].
  - now rewrite app_nil_r.
  - replace (done ++ q :: l) with ((done ++ [q]) ++ l) by now rewrite <- app_assoc.
    apply IH. now apply after_iteration_settled.
Qed.

(** ** Lists *)
Lemma mapi_nth {X Y} (f : nat -> X -> Y) (l : list X) :
  forall i k, nth_error (mapi f i l) k = option_map (f (i + k)%nat) (nth_error l k).
Proof.
  induction l as [|x l IH]; intros i k; cbn [mapi].
  - now destruct k.
  - destruct k as [|k]; cbn [nth_error option_map].
    + now rewrite Nat.add_0_r.
    + rewrite IH. now rewrite <- plus_n_Sm.
Qed.

Lemma mapi_length {X Y} (f : nat -> X -> Y) (l : list X) (i : nat) :
  length (mapi f i l) = length l.
Proof. revert i. induction l as [|x l IH]; intros i; cbn; [reflexivity|]. now rewrite IH. Qed.

Lemma find_first {X} (p : X -> bool) (l : list X) (k : nat) (x : X) :
  nth_error l k = Some x -> p x = true ->
  (forall i y, (i < k)%nat -> nth_error l i = Some y -> p y = false) ->
  find p l = Some x.
Proof.
  revert k. induction l as [|y l IH]; intros k Hk Hp Hbefore.
  - now destruct k.
  - destruct k as [|k]; cbn [nth_error] in Hk; cbn [find].
    + injection Hk as ->. now rewrite Hp.
    + rewrite (Hbefore 0%nat y (Nat.lt_0_succ k) eq_refl).
      apply (IH k Hk Hp). intros i z Hi Hz.
      apply (Hbefore (S i) z); [lia|exact Hz].
Qed.

Lemma find_exists {X} (p : X -> bool) (l : list X) (x : X) :
  In x l -> p x = true -> exists y, find p l = Some y.
Proof.
  intros Hin Hp. destruct (find p l) as [y|] eqn:E; [now exists y|].
  rewrite (find_none _ _ E x Hin) in Hp. discriminate.
Qed.

Lemma slice_from_0 {X} (l : list X) (e : Z) :
  (0 <= e)%Z -> slice l 0 e = firstn (Z.to_nat e) l.
Proof.
  intros He. unfold slice, clamp_index. cbn [Z.ltb Z.compare].
  assert (Hlen : (0 <= Z.of_nat (length l))%Z) by lia.
  replace (Z.min 0 (Z.of_nat (length l))) with 0%Z by lia.
  destruct (e <? 0)%Z eqn:E; [apply Z.ltb_lt in E; lia|].
  cbn [Z.to_nat skipn]. rewrite Z.sub_0_r.
  destruct (Z.min_spec e (Z.of_nat (length l))) as [[_ ->]|[Hle ->]]; [reflexivity|].
  rewrite Nat2Z.id, firstn_all. symmetry. apply firstn_all2. lia.
Qed.

(** ** The verdict on a file, in the words of the specification *)
Lemma withTimeout_ok {A} (p : promise A) (ms : N) (msg : jsstring) (a : A) :
  withTimeout p ms msg = Ok a <-> exists t, p = Fulfilled t a /\ t <= ms.
Proof.
  unfold withTimeout. split.
  - destruct p as [t v|t e|]; try discriminate.
    + destruct (t <=? ms) eqn:E; [|discriminate]. intros H. injection H as ->.
      exists t. split; [reflexivity|now apply N.leb_le].
    + destruct (t <=? ms); discriminate.
  - intros [t [-> H]]. apply N.leb_le in H. now rewrite H.
Qed.

Lemma long_not_empty (c : jsstring) :
  (100 <= length (trim c))%nat ->
  is_empty c || (length (trim c) <? 100)%nat = false.
Proof.
  intros H. destruct c as [|x c].
  - cbn in H. lia.
  - cbn [is_empty orb]. apply Nat.ltb_ge. exact H.
Qed.

Lemma verdict_ok (file : File) (c : jsstring) :
  verdict file = Ok c <-> produces file c /\ (100 <= length (trim c))%nat.
Proof.
  unfold verdict, extracted. split.
  - intros H.
    assert (Hlong : forall r x, (match r with
                                 | Ok c0 => if is_empty c0 || (length (trim c0) <? 100)%nat
                                            then Throw (Error no_text_message) else Ok c0
                                 | Throw e => Throw e
                                 end = Ok x) ->
                                r = Ok x /\ (100 <= length (trim x))%nat).
    { intros [c0|e] x Hx; [|discriminate].
      destruct (is_empty c0 || (length (trim c0) <? 100)%nat) eqn:E; [discriminate|].
      injection Hx as ->. split; [reflexivity|].
      apply orb_false_elim in E as [_ E]. now apply Nat.ltb_ge. }
    destruct (reader_for file) as [reader|] eqn:Hr; [|discriminate].
    destruct reader.
    + apply Hlong in H as [H L]. apply withTimeout_ok in H as [t [Ht Hlt]].
      split; [|exact L].
      eapply produces_directly; [exact Hr|exact Ht|exact Hlt|discriminate].
    + apply Hlong in H as [H L]. apply withTimeout_ok in H as [t [Ht Hlt]].
      split; [|exact L].
      eapply produces_directly; [exact Hr|exact Ht|exact Hlt|discriminate].
    + apply Hlong in H as [H L]. split; [|exact L].
      destruct (withTimeout (parsePdf file) PARSING_TIMEOUT pdf_timeout_message)
        as [direct|e] eqn:Hp; [|discriminate].
      apply withTimeout_ok in Hp as [t [Ht Hlt]].
      destruct (length (trim direct) <? 100)%nat eqn:Hs.
      * apply withTimeout_ok in H as [t' [Ht' Hlt']].
        apply Nat.ltb_lt in Hs.
        eapply produces_by_ocr; eassumption.
      * injection H as <-. apply Nat.ltb_ge in Hs.
        eapply produces_directly; [exact Hr|exact Ht|exact Hlt|now intros _].
  - intros [Hp L]. destruct Hp as [reader t c Hr Ht Hlt Hpdf|t direct t' c Hr Ht Hlt Hs Ht' Hlt'].
    + rewrite Hr. destruct reader; cbn [reading] in Ht.
      * rewrite (proj2 (withTimeout_ok _ _ _ _) (ex_intro _ t (conj Ht Hlt))).
        now rewrite long_not_empty.
      * rewrite (proj2 (withTimeout_ok _ _ _ _) (ex_intro _ t (conj Ht Hlt))).
        now rewrite long_not_empty.
      * rewrite (proj2 (withTimeout_ok _ _ _ _) (ex_intro _ t (conj Ht Hlt))).
        rewrite (proj2 (Nat.ltb_ge _ _) L). now rewrite long_not_empty.
    + rewrite Hr.
      rewrite (proj2 (withTimeout_ok _ _ _ _) (ex_intro _ t (conj Ht Hlt))).
      rewrite (proj2 (Nat.ltb_lt _ _) Hs).
      rewrite (proj2 (withTimeout_ok _ _ _ _) (ex_intro _ t' (conj Ht' Hlt'))).
      now rewrite long_not_empty.
Qed.

(** The [try] block throws errors with a message only. *)
Lemma withTimeout_throws {A} (p : promise A) (ms : N) (msg : jsstring) (e : exn) :
  withTimeout p ms msg = Throw e -> exists m, e = Error m.
Proof.
  unfold withTimeout. destruct p as [t v|t m|].
  - destruct (t <=? ms); [discriminate|]. intros H. injection H as <-. now eexists.
  - destruct (t <=? ms); intros H; injection H as <-; now eexists.
  - intros H. injection H as <-. now eexists.
Qed.

Lemma verdict_throws (file : File) (e : exn) :
  verdict file = Throw e -> exists m, e = Error m.
Proof.
  unfold verdict, extracted.
  assert (K : forall r : result jsstring,
             (forall e', r = Throw e' -> exists m, e' = Error m) ->
             match r with
             | Ok c => if is_empty c || (length (trim c) <? 100)%nat
                       then Throw (Error no_text_message) else Ok c
             | Throw e' => Throw e'
             end = Throw e -> exists m, e = Error m).
  { intros [c|e'] Hr H.
    - destruct (is_empty c || (length (trim c) <? 100)%nat); [|discriminate].
      injection H as <-. now eexists.
    - injection H as <-. now apply Hr. }
  apply K. intros e'.
  destruct (reader_for file) as [[| |]|].
  - apply withTimeout_throws.
  - apply withTimeout_throws.
  - destruct (withTimeout (parsePdf file) PARSING_TIMEOUT pdf_timeout_message)
      as [direct|e0] eqn:E.
    + destruct (length (trim direct) <? 100)%nat; [apply withTimeout_throws|].
      discriminate.
    + intros H. injection H as <-. eapply withTimeout_throws. exact E.
  - intros H. injection H as <-. now eexists.
Qed.

Lemma message_or_default_nonempty (e : exn) : message_or_default e <> [].
Proof.
  destruct e as [m|]; cbn.
  - destruct m; cbn; [vm_compute|]; discriminate.
  - vm_compute. discriminate.
Qed.

(** An entry left by the last update is ready with the text extraction
    produced, or in error with a message. *)
Lemma settled_as_cases (file : File) (p : Paper) :
  settled_as file p ->
  (status p = ready
   /\ exists c, produces file c /\ (100 <= length (trim c))%nat /\ content p = Some c)
  \/ (status p = error
      /\ (forall c, produces file c -> (length (trim c) < 100)%nat)
      /\ exists m, message p = Some m /\ m <> []).
Proof.
  unfold settled_as. destruct (verdict file) as [c|e] eqn:V.
  - intros (Hs & Hc & _). left. split; [exact Hs|].
    apply verdict_ok in V as [Hp L]. now exists c.
  - intros (Hs & Hm & _). right. split; [exact Hs|]. split.
    + intros c Hp. destruct (Nat.lt_ge_cases (length (trim c)) 100) as [L|L];
        [exact L|].
      assert (verdict file = Ok c) by now apply verdict_ok. congruence.
    + exists (message_or_default e). split; [exact Hm|].
      apply message_or_default_nonempty.
Qed.


(** ** The whole run *)
Section Run.

Variable Date_now : nat -> N.
Variable papers_seen : list Paper.

Lemma iteration_run (filesToAdd : list File) (paper : Paper) (st : State) :
  match find (fun f => startsWith (paper_id paper) (file_name f)) filesToAdd with
  | None => ret tt
  | Some file => bind (process_file file (paper_id paper)) (fun _ => call (Sleep 200))
  end st
  = (Ok tt, after_iteration filesToAdd st paper).
Proof.
  unfold after_iteration, found.
  destruct (find _ filesToAdd) as [file|]; [|reflexivity].
  cbn [bind program_monad]. rewrite process_file_run.
  unfold call. cbn [papers trace]. now rewrite <- app_assoc.
Qed.

Lemma files_to_add_nil : files_to_add papers_seen [] = [].
Proof.
  unfold files_to_add, slice. cbn [length skipn]. now rewrite firstn_nil.
Qed.

Lemma handleFileChange_run (files : option (list File)) (st : State) :
  handleFileChange Date_now papers_seen files st
  = (Ok tt, final_state Date_now papers_seen files st).
Proof.
  unfold handleFileChange, final_state.
  destruct files as [files|]; [|reflexivity].
  destruct files as [|f files].
  { cbn [length Nat.eqb]. now rewrite files_to_add_nil. }
  cbn [length Nat.eqb].
  destruct (files_to_add papers_seen (f :: files)) as [|g filesToAdd] eqn:E.
  { reflexivity. }
  cbn [length Nat.eqb bind program_monad setPapers].
  now rewrite (for_of_run _ (after_iteration (g :: filesToAdd)))
    by (intros; apply iteration_run).
Qed.

(** The file found for a new paper: there is always one, and without
    shadowing it is the paper's own. *)
Lemma own_name_prefix (k : nat) (file : File) :
  startsWith (paper_id (new_paper Date_now k file)) (file_name file) = true.
Proof. cbn [new_paper paper_id]. apply startsWith_app. Qed.

Lemma found_some (fs : list File) (k : nat) (own : File) :
  nth_error fs k = Some own ->
  exists file, found fs (paper_id (new_paper Date_now k own)) = Some file.
Proof.
  intros H. unfold found.
  eapply find_exists; [eapply nth_error_In; exact H|].
  apply own_name_prefix.
Qed.

Lemma found_own (fs : list File) (k : nat) (own : File) :
  no_shadowing Date_now fs -> nth_error fs k = Some own ->
  found fs (paper_id (new_paper Date_now k own)) = Some own.
Proof.
  intros Hno H. unfold found.
  eapply find_first; [exact H|apply own_name_prefix|].
  intros i y Hi Hy. exact (Hno i k y own Hi Hy H).
Qed.

Lemma blocks_own (fs : list File) :
  forall l i,
    (forall k f, nth_error l k = Some f ->
                 found fs (paper_id (new_paper Date_now (i + k) f)) = Some f) ->
    flat_map (block fs) (mapi (new_paper Date_now) i l)
    = concat (mapi (fun k f => attempts f (paper_id (new_paper Date_now k f))
                               ++ [Sleep 200]) i l).
Proof.
  induction l as [|f l IH]; intros i H; cbn [mapi flat_map concat]; [reflexivity|].
  unfold block at 1.
  pose proof (H 0%nat f eq_refl) as H0. rewrite Nat.add_0_r in H0. rewrite H0.
  f_equal. apply IH. intros k g Hk.
  replace (S i + k)%nat with (i + S k)%nat by lia. exact (H (S k) g Hk).
Qed.

Lemma final_state_ids (files : option (list File)) (st : State) :
  map paper_id (papers (final_state Date_now papers_seen files st))
  = map paper_id (papers st)
    ++ match files with
       | Some files => map paper_id (mapi (new_paper Date_now) 0
                                          (files_to_add papers_seen files))
       | None => []
       end.
Proof.
  unfold final_state. destruct files as [files|]; [|now rewrite app_nil_r].
  destruct (files_to_add papers_seen files) as [|g fs] eqn:E.
  - cbn. now rewrite app_nil_r.
  - rewrite iterations_ids. cbn [papers]. now rewrite map_app.
Qed.


Lemma final_state_fold (files : list File) (st : State) :
  final_state Date_now papers_seen (Some files) st
  = fold_left (after_iteration (files_to_add papers_seen files))
              (mapi (new_paper Date_now) 0 (files_to_add papers_seen files))
              {| papers := papers st
                           ++ mapi (new_paper Date_now) 0 (files_to_add papers_seen files);
                 trace := trace st |}.
Proof.
  unfold final_state. destruct (files_to_add papers_seen files); [|reflexivity].
  cbn. now rewrite app_nil_r, state_eta.
Qed.

(** Every new paper ends as the file found for it decides. *)
Lemma new_paper_settled (files : list File) (st : State) (k : nat) (own : File) :
  nth_error (files_to_add papers_seen files) k = Some own ->
  exists file entry,
    found (files_to_add papers_seen files) (paper_id (new_paper Date_now k own))
    = Some file
    /\ nth_error (papers (final_state Date_now papers_seen (Some files) st))
                 (length (papers st) + k) = Some entry
    /\ paper_id entry = paper_id (new_paper Date_now k own)
    /\ settled_as file entry.
Proof.
  intros Hk. set (fs := files_to_add papers_seen files) in *.
  destruct (@found_some fs k own Hk) as [file Hfound].
  assert (Hnew : nth_error (mapi (new_paper Date_now) 0 fs) k
                 = Some (new_paper Date_now k own)).
  { rewrite mapi_nth, Hk. reflexivity. }
  assert (Hid : nth_error (map paper_id
                             (papers (final_state Date_now papers_seen (Some files) st)))
                          (length (papers st) + k)
                = Some (paper_id (new_paper Date_now k own))).
  { rewrite final_state_ids. fold fs.
    rewrite nth_error_app2 by (rewrite length_map; lia).
    rewrite length_map, Nat.add_comm, Nat.add_sub.
    rewrite nth_error_map, Hnew. reflexivity. }
  rewrite nth_error_map in Hid.
  destruct (nth_error (papers (final_state Date_now papers_seen (Some files) st))
                      (length (papers st) + k)) as [entry|] eqn:He; [|discriminate].
  cbn [option_map] in Hid. injection Hid as Hid.
  change (paper_id entry = paper_id (new_paper Date_now k own)) in Hid.
  exists file, entry. split; [exact Hfound|]. split; [reflexivity|].
  split; [exact Hid|].
  pose proof (@iterations_settled fs (mapi (new_paper Date_now) 0 fs) []
                {| papers := papers st ++ mapi (new_paper Date_now) 0 fs;
                   trace := trace st |}) as Inv.
  cbn [app] in Inv. unfold fs in Inv. rewrite <- final_state_fold in Inv. fold fs in Inv.
  apply (Inv (fun p file Hp Hin => match Hin with end) entry file).
  - eapply nth_error_In. exact He.
  - rewrite Hid. apply in_map. eapply nth_error_In. exact Hnew.
  - now rewrite Hid.
Qed.


(** ** Identifiers of the new papers *)
Lemma new_id_form (fs : list File) (i : nat) (id : jsstring) :
  In id (map paper_id (mapi (new_paper Date_now) i fs)) ->
  exists k f, nth_error fs k = Some f
              /\ id = file_name f ++ dash :: decimal (Date_now (i + k)).
Proof.
  intros H. apply in_map_iff in H as [p [<- Hp]].
  apply In_nth_error in Hp as [k Hk]. rewrite mapi_nth in Hk.
  destruct (nth_error fs k) as [f|] eqn:E; [|discriminate].
  cbn [option_map] in Hk. injection Hk as <-. now exists k, f.
Qed.

Lemma new_ids_distinct (fs : list File) (i : nat) :
  NoDup (map file_name fs) -> NoDup (map paper_id (mapi (new_paper Date_now) i fs)).
Proof.
  revert i. induction fs as [|f fs IH]; intros i Hn; cbn [mapi map].
  - constructor.
  - inversion Hn as [|x l Hnotin Hrest]; subst. constructor; [|now apply IH].
    intros Hin. apply new_id_form in Hin as (k & g & Hk & E).
    cbn [new_paper paper_id] in E. apply dash_suffix_inj in E as [E _].
    apply Hnotin. rewrite E. apply in_map. eapply nth_error_In. exact Hk.
Qed.

End Run.

End AppFacts.

(* ================================================================== *)
(** * The claims *)
(* ================================================================== *)

Import JS JSFacts.

Section ServiceClaims.
Import GeminiService ParsingFacts.

(** C10. [detectDominantLanguage] is a total function of the texts: it returns
    [en] whenever Latin letters and CJK characters (U+4E00 to U+9FA5) of all
    texts together number fewer than 100; from 100 on it returns [zh] exactly
    when the CJK characters strictly outnumber the Latin letters and [en]
    otherwise, a tie included. The empty list and empty texts give no error:
    the empty list yields [en], and an empty text changes nothing. *)
Theorem C10_detectDominantLanguage_counts (texts : list jsstring) :
  (latin_count texts + cjk_count texts < 100 ->
   detectDominantLanguage texts = en)
  /\ (100 <= latin_count texts + cjk_count texts ->
      (detectDominantLanguage texts = zh <-> latin_count texts < cjk_count texts)
      /\ (cjk_count texts <= latin_count texts -> detectDominantLanguage texts = en))
  /\ detectDominantLanguage [] = en
  /\ detectDominantLanguage ([] :: texts) = detectDominantLanguage texts.
Proof.
  assert (E : forall ts, detectDominantLanguage ts =
            if latin_count ts + cjk_count ts <? 100 then en
            else if latin_count ts <? cjk_count ts then zh else en).
  { intros ts. unfold detectDominantLanguage. now rewrite fold_count_step. }
  split; [|split; [|split]].
  - intros H. rewrite E. apply Nat.ltb_lt in H. now rewrite H.
  - intros H. apply Nat.ltb_ge in H. rewrite E, H. split; [split|].
    + destruct (latin_count texts <? cjk_count texts) eqn:L; [|discriminate].
      intros _. now apply Nat.ltb_lt.
    + intros L. apply Nat.ltb_lt in L. now rewrite L.
    + intros L. apply Nat.ltb_ge in L. now rewrite L.
  - reflexivity.
  - rewrite !E. reflexivity.
Qed.

Lemma C10_witness_mostly_chinese :
  detectDominantLanguage [repeat 20013%N 60; []; repeat 97%N 50] = zh.
Proof.
  apply (proj1 (proj2 (C10_detectDominantLanguage_counts
                         [repeat 20013%N 60; []; repeat 97%N 50]))).
  - vm_compute. lia.
  - vm_compute. lia.
Defined.

(** C2 (amended). [parseJsonResponse] returns [JSON.parse(rawText)] when that
    succeeds. Otherwise it looks at the first fenced block only, the text
    between the first [```json] and the first [```] after it, trimmed: when
    that text is not empty and parses, its value is returned; in every other
    case the function throws its own error. *)
Theorem C2_parseJsonResponse_first_block
  (JSON_parse : jsstring -> result value) (rawText : jsstring) :
  (forall v, JSON_parse rawText = Ok v ->
             parseJsonResponse JSON_parse rawText = Ok v)
  /\ (forall e inner v,
        JSON_parse rawText = Throw e ->
        first_fenced_block rawText = Some inner -> inner <> [] ->
        JSON_parse inner = Ok v ->
        parseJsonResponse JSON_parse rawText = Ok v)
  /\ (forall e,
        JSON_parse rawText = Throw e ->
        (forall inner v, first_fenced_block rawText = Some inner ->
                         inner <> [] -> JSON_parse inner <> Ok v) ->
        parseJsonResponse JSON_parse rawText = Throw (Error not_valid_json_message)).
Proof.
  unfold parseJsonResponse. rewrite jsonRegex_exec_first_block.
  split; [|split].
  - intros v H. now rewrite H.
  - intros e inner v H Hb Hne Hv. rewrite H. cbn [try_catch]. rewrite Hb.
    destruct inner; [congruence|]. cbn [is_empty negb]. now rewrite Hv.
  - intros e H Hno. rewrite H. cbn [try_catch].
    destruct (first_fenced_block rawText) as [inner|]; [|reflexivity].
    destruct inner as [|c inner]; [reflexivity|]. cbn [is_empty negb].
    destruct (JSON_parse (c :: inner)) as [v|e'] eqn:Hv; [|reflexivity].
    exfalso. apply (Hno (c :: inner) v); congruence.
Qed.

Lemma C2_witness_fenced_digit :
  parseJsonResponse parse_digit (js "Here it is: ```json 7 ``` done") = Ok (VNum (js "7")).
Proof.
  apply (proj1 (proj2 (C2_parseJsonResponse_first_block parse_digit
                         (js "Here it is: ```json 7 ``` done"))))
         with (e := Error (js "Unexpected token")) (inner := js "7").
  - vm_compute. reflexivity.
  - vm_compute. reflexivity.
  - vm_compute. discriminate.
  - vm_compute. reflexivity.
Defined.

(** C2, as first stated, fails: the text below holds a fenced block whose
    content, [1], is valid JSON, yet the function throws, because the first
    fenced block, [x], is not. *)
Lemma C2_counterexample_second_block :
  let rawText := js "```json x ``` ```json 1 ```" in
  parse_digit rawText = Throw (Error (js "Unexpected token"))
  /\ rawText = (js "```json x ``` " ++ fence_json ++ js " 1 " ++ fence)%list
  /\ parse_digit (js " 1 ") = Ok (VNum (js "1"))
  /\ parseJsonResponse parse_digit rawText = Throw (Error not_valid_json_message).
Proof. vm_compute. repeat split. Qed.

(** X2. The regular expression of [parseJsonResponse] captures the first
    fenced block: its group is the trimmed text between the first [```json]
    and the first [```] that follows it, and the input splits accordingly. *)
Theorem regex_matches_first_fenced_block (rawText : jsstring) :
  jsonRegex_exec rawText = first_fenced_block rawText
  /\ forall group,
      jsonRegex_exec rawText = Some group ->
      exists before inner after,
        rawText = before ++ fence_json ++ inner ++ fence ++ after
        /\ group = trim inner.
Proof.
  split; [apply jsonRegex_exec_first_block|].
  intros group H. rewrite jsonRegex_exec_first_block in H.
  unfold first_fenced_block in H.
  destruct (split_at_first fence_json rawText) as [[before rest]|] eqn:E1;
    [|discriminate].
  destruct (split_at_first fence rest) as [[inner after]|] eqn:E2; [|discriminate].
  injection H as <-. exists before, inner, after. split; [|reflexivity].
  apply split_at_first_sound in E1, E2. now rewrite E1, E2.
Qed.

End ServiceClaims.

Section ProxyClaims.
Import GeminiProxy.
Local Open Scope N_scope.

Variable JSON_parse : jsstring -> result value.
Variable JSON_stringify : value -> jsstring.
Variable TypeError_message : jsstring.
Variable fetch : Request -> result Response.





End ProxyClaims.

Section GraphClaims.
Import GeminiService GraphFacts.

Lemma map_result_over_map {X Y Z} (f : Y -> result Z) (h : X -> Y) (g : X -> Z)
  (l : list X) :
  (forall x, f (h x) = Ok (g x)) -> map_result f (map h l) = Ok (map g l).
Proof.
  intros H. induction l as [|x l IH]; cbn; [reflexivity|]. now rewrite H, IH.
Qed.

Lemma filter_result_over_map {X Y} (f : Y -> result bool) (h : X -> Y)
  (g : X -> bool) (l : list X) :
  (forall x, f (h x) = Ok (g x)) ->
  filter_result f (map h l) = Ok (map h (filter g l)).
Proof.
  intros H. induction l as [|x l IH]; cbn; [reflexivity|].
  rewrite H, IH. now destruct (g x).
Qed.

Lemma lists_In (id : jsstring) (c : ConceptSpec) :
  lists id c = true <-> In id (spec_variables c).
Proof.
  unfold lists. rewrite existsb_exists. split.
  - intros [v [Hv E]]. apply str_eqb_eq in E. now subst.
  - intros H. exists id. split; [exact H|apply str_eqb_refl].
Qed.

Lemma listing_name_cases (cs : list ConceptSpec) (id : jsstring) :
  forall found,
    (fold_left (fun found c => if lists id c then Some (spec_name c) else found)
               cs found = found
     /\ forall c, In c cs -> ~ In id (spec_variables c))
    \/ exists c, In c cs /\ In id (spec_variables c)
                 /\ fold_left (fun found c => if lists id c then Some (spec_name c)
                                              else found) cs found
                    = Some (spec_name c).
Proof.
  induction cs as [|c cs IH]; intros found; cbn [fold_left].
  - left. split; [reflexivity|]. intros c [].
  - destruct (lists id c) eqn:L.
    + destruct (IH (Some (spec_name c))) as [[E Hno]|[c' [Hc' [Hin E]]]].
      * right. exists c. split; [now left|]. split; [now apply lists_In|exact E].
      * right. exists c'. split; [now right|]. now split.
    + destruct (IH found) as [[E Hno]|[c' [Hc' [Hin E]]]].
      * left. split; [exact E|]. intros c0 [<-|H0]; [|now apply Hno].
        intros H. apply lists_In in H. congruence.
      * right. exists c'. split; [now right|]. now split.
Qed.

(** The typed response goes through every step. *)
Lemma graph_of_typed_response (ns : list NodeSpec) (ls : list LinkSpec)
  (cs : list ConceptSpec) :
  exists concepts,
    graph_of_response (response_value ns ls cs)
    = Ok ({| nodes := map (expected_node cs) ns;
             links := map link_value (filter (both_known ns) ls) |}, concepts)
    /\ mapi_result
         (make_concept
            (Map_of (map (fun node => (node_id node, node))
                         (map (expected_node cs) ns))))
         0 (map concept_value cs) = Ok concepts.
Proof.
  unfold graph_of_response.
  rewrite get_nodes, get_links, get_concepts.
  cbn [bind result_monad truthy negb orb].
  unfold build_graph. cbn [array_items bind result_monad].
  rewrite fold_register_typed.
  rewrite (map_result_over_map _ node_value (expected_node cs) ns
             (make_node_typed cs)).
  rewrite (filter_result_over_map _ link_value (both_known ns) ls
             (keep_link_typed cs ns)).
  destruct (mapi_result _ 0 (map concept_value cs)) as [concepts|e] eqn:E.
  - exists concepts. now split.
  - exfalso. apply (f_equal is_ok) in E.
    rewrite (is_ok_mapi_result _ concept_shaped) in E
      by (intros; apply is_ok_make_concept).
    assert (H : forallb concept_shaped (map concept_value cs) = true).
    { apply forallb_forall. intros x Hx. apply in_map_iff in Hx as [c [<- _]].
      reflexivity. }
    rewrite H in E. discriminate.
Qed.

(** C6 (amended). Once the model has answered and the answer has parsed,
    [extractCausalGraph] is [graph_of_response] of the parsed response.
    [generateTopicSuggestions] first writes its prompt, into which the links
    of the graph are serialized: when that throws (a link with an end that is
    [null] or [undefined]) the function throws the same and the model is not
    asked; otherwise, once the model has answered and the answer has parsed,
    it is [topics_of_response] of the parsed response. The first validates
    lightly: it throws its format error whenever [nodes], [links] or
    [concepts] is missing or falsy, and a [TypeError] on a response that is
    [null]; beyond that it still throws on a truthy field of the wrong shape,
    and returns a result exactly when the response is well shaped (three
    arrays, no [null] node or link, every concept an object with an array of
    variables and a name that converts to a string). The second returns the
    parsed response itself exactly when that is a non-empty array, and throws
    its own error otherwise. *)
Theorem C6_validation_of_responses
  (JSON_parse : jsstring -> result value)
  (generateContent : jsstring -> result jsstring)
  (extractionPrompt : Lang -> list jsstring -> jsstring)
  (suggestionPrompt : GraphData -> list Concept -> Lang -> jsstring)
  (response topics : value) :
  (forall papers text,
      generateContent (extractionPrompt (detectDominantLanguage papers) papers)
      = Ok text ->
      parseJsonResponse JSON_parse text = Ok response ->
      extractCausalGraph JSON_parse generateContent extractionPrompt papers
      = graph_of_response response)
  /\ (forall graphData concepts language serialized text,
        prompt_links graphData = Ok serialized ->
        generateContent (suggestionPrompt graphData concepts language) = Ok text ->
        parseJsonResponse JSON_parse text = Ok topics ->
        generateTopicSuggestions JSON_parse generateContent suggestionPrompt
          graphData concepts language
        = topics_of_response topics)
  /\ (not_nullish response = false -> graph_of_response response = Throw TypeError)
  /\ (not_nullish response = true ->
      falsy_field response (js "nodes") || falsy_field response (js "links")
      || falsy_field response (js "concepts") = true ->
      graph_of_response response = Throw (Error incorrect_format_message))
  /\ ((exists r, graph_of_response response = Ok r) <-> well_shaped response = true)
  /\ ((exists first rest, topics = VArr (first :: rest)) ->
      topics_of_response topics = Ok topics)
  /\ ((forall first rest, topics <> VArr (first :: rest)) ->
      topics_of_response topics = Throw (Error no_topics_message))
  /\ (forall graphData concepts language e,
        prompt_links graphData = Throw e ->
        generateTopicSuggestions JSON_parse generateContent suggestionPrompt
          graphData concepts language
        = Throw e).
Proof.
  split; [|split; [|split; [|split; [|split; [|split; [|split]]]]]].
  - intros papers text Hc Hp. unfold extractCausalGraph.
    rewrite Hc. cbn [bind result_monad]. now rewrite Hp.
  - intros graphData concepts language serialized text Hl Hc Hp.
    unfold generateTopicSuggestions.
    rewrite Hl, Hc. cbn [bind result_monad]. now rewrite Hp.
  - intros H. destruct response; try discriminate; reflexivity.
  - intros Hn Hf. unfold graph_of_response, falsy_field in *.
    destruct (get_prop response (js "nodes")) as [rn|] eqn:En;
      [|rewrite <- is_ok_get_prop with (k := js "nodes") in Hn;
        rewrite En in Hn; discriminate].
    destruct (get_prop response (js "links")) as [rl|] eqn:El;
      [|rewrite <- is_ok_get_prop with (k := js "links") in Hn;
        rewrite El in Hn; discriminate].
    destruct (get_prop response (js "concepts")) as [rc|] eqn:Ec;
      [|rewrite <- is_ok_get_prop with (k := js "concepts") in Hn;
        rewrite Ec in Hn; discriminate].
    cbn [bind result_monad]. now rewrite Hf.
  - rewrite <- is_ok_graph_of_response. symmetry. apply is_ok_true.
  - intros (first & rest & ->). reflexivity.
  - intros H. unfold topics_of_response.
    destruct topics as [| | | | |items|]; try reflexivity;
      try (now destruct (negb _)).
    destruct items as [|first rest]; [reflexivity|].
    exfalso. now apply (H first rest).
  - intros graphData concepts language e Hl. unfold generateTopicSuggestions.
    now rewrite Hl.
Qed.

Lemma C6_witness_small_graph :
  exists r,
    graph_of_response
      (response_value [{| spec_id := js "A"; spec_isCore := true |}] []
                      [{| spec_name := js "P"; spec_variables := [js "A"] |}])
    = Ok r.
Proof.
  apply (proj1 (proj2 (proj2 (proj2 (proj2 (C6_validation_of_responses
           parse_digit (fun _ => Ok []) (fun _ _ => []) (fun _ _ _ => [])
           (response_value [{| spec_id := js "A"; spec_isCore := true |}] []
                           [{| spec_name := js "P"; spec_variables := [js "A"] |}])
           VNull)))))).
  vm_compute. reflexivity.
Defined.

(** C6, as first stated, fails: in the response
    [{nodes: [], links: [], concepts: [{name: A}]}] no field is missing or
    falsy, and the function still throws (the concept has no [variables]). *)
Lemma C6_counterexample_truthy_but_throws :
  let response :=
    VObj [(js "nodes", VArr []); (js "links", VArr []);
          (js "concepts", VArr [VObj [(js "name", VStr (js "A"))]])] in
  falsy_field response (js "nodes") = false
  /\ falsy_field response (js "links") = false
  /\ falsy_field response (js "concepts") = false
  /\ graph_of_response response = Throw TypeError.
Proof. vm_compute. repeat split. Qed.

(** C8 (amended). For a response of the annotated types the result exists and
    is referentially closed: the nodes are the response's nodes, in order; a
    link is kept exactly when its source and its target are ids of nodes, so
    every link of the graph joins two of its nodes; every child of every
    concept is a node of the graph. A node's group is the name of a concept
    that lists the node's id, provided that name is not empty; it is [Default]
    when no concept lists the id and also when a listing concept has the empty
    name. *)
Theorem C8_referential_integrity (ns : list NodeSpec) (ls : list LinkSpec)
  (cs : list ConceptSpec) :
  exists g concepts,
    graph_of_response (response_value ns ls cs) = Ok (g, concepts)
    /\ map node_id (nodes g) = map (fun n => VStr (spec_id n)) ns
    /\ (forall link, In link (links g) ->
        exists l, In l ls /\ link = link_value l
                  /\ In (VStr (spec_source l)) (map node_id (nodes g))
                  /\ In (VStr (spec_target l)) (map node_id (nodes g)))
    /\ (forall l, In l ls ->
        In (VStr (spec_source l)) (map node_id (nodes g)) ->
        In (VStr (spec_target l)) (map node_id (nodes g)) ->
        In (link_value l) (links g))
    /\ (forall node, In node (nodes g) ->
        exists id,
          node_id node = VStr id
          /\ ((exists c, In c cs /\ In id (spec_variables c)
                         /\ spec_name c <> [] /\ group node = VStr (spec_name c))
              \/ (group node = VStr (js "Default")
                  /\ ((forall c, In c cs -> ~ In id (spec_variables c))
                      \/ exists c, In c cs /\ In id (spec_variables c)
                                   /\ spec_name c = []))))
    /\ (forall k child, In k concepts -> In child (children k) ->
        In child (nodes g)).
Proof.
  destruct (graph_of_typed_response ns ls cs) as [concepts [Hg Hc]].
  eexists. exists concepts. split; [exact Hg|].
  cbn [nodes links]. rewrite node_ids_expected.
  split; [reflexivity|]. split; [|split; [|split]].
  - intros link Hl. apply in_map_iff in Hl as [l [<- Hl]].
    apply filter_In in Hl as [Hl Hk]. unfold both_known in Hk.
    apply andb_prop in Hk as [Hs Ht].
    exists l. repeat split; try assumption; now apply known_In.
  - intros l Hl Hs Ht. apply in_map. apply filter_In. split; [exact Hl|].
    unfold both_known. apply known_In in Hs, Ht. now rewrite Hs, Ht.
  - intros node Hn. apply in_map_iff in Hn as [n [<- Hn]].
    exists (spec_id n). split; [reflexivity|].
    cbn [expected_node group]. unfold group_name, listing_name.
    destruct (listing_name_cases cs (spec_id n) None) as [[E Hno]|[c [Hc' [Hin E]]]];
      rewrite E.
    + right. split; [reflexivity|]. now left.
    + destruct (spec_name c) as [|x name] eqn:Hname.
      * right. split; [reflexivity|]. right. now exists c.
      * left. exists c. repeat split; try assumption; [|now rewrite Hname].
        rewrite Hname. discriminate.
  - intros k child Hk Hchild.
    apply In_nth_error in Hk as [i Hi].
    destruct (mapi_result_nth _ _ _ Hc _ Hi) as [x [Hx Hf]].
    rewrite nth_error_map in Hx.
    destruct (nth_error cs i) as [c|]; [|discriminate].
    cbn [option_map] in Hx. injection Hx as <-.
    rewrite make_concept_typed in Hf. injection Hf as <-.
    cbn [children] in Hchild. apply defined_In in Hchild.
    apply in_map_iff in Hchild as [v [Hv _]].
    now apply child_is_node in Hv.
Qed.

(** C8, as first stated, fails: the concept below lists the node [x] and its
    name is the empty string, yet the node's group is [Default], not that
    name. *)
Lemma C8_counterexample_empty_name :
  let c := {| spec_name := []; spec_variables := [js "x"] |} in
  exists concepts,
    graph_of_response
      (response_value [{| spec_id := js "x"; spec_isCore := true |}] [] [c])
    = Ok ({| nodes := [{| node_id := VStr (js "x");
                          isCore := VBool true;
                          group := VStr (js "Default") |}];
             links := [] |}, concepts)
    /\ In (js "x") (spec_variables c)
    /\ VStr (spec_name c) <> VStr (js "Default").
Proof.
  cbv zeta. eexists. split; [vm_compute; reflexivity|].
  split; [now left|]. vm_compute. discriminate.
Qed.

End GraphClaims.

Section UploadClaims.
Import App AppFacts.

Local Open Scope N_scope.

Lemma needs_ocr_true (file : File) :
  needs_ocr file = true <->
  exists t direct, parsePdf file = Fulfilled t direct /\ t <= PARSING_TIMEOUT
                   /\ (length (trim direct) < 100)%nat.
Proof.
  unfold needs_ocr. split.
  - destruct (withTimeout (parsePdf file) PARSING_TIMEOUT pdf_timeout_message)
      as [direct|e] eqn:E; [|discriminate].
    intros H. apply withTimeout_ok in E as [t [Ht Hlt]].
    exists t, direct. repeat split; try assumption. now apply Nat.ltb_lt.
  - intros (t & direct & Ht & Hlt & Hs).
    rewrite (proj2 (withTimeout_ok _ _ _ _) (ex_intro _ t (conj Ht Hlt))).
    now apply Nat.ltb_lt.
Qed.

Lemma pdf_reader (file : File) :
  file_type file = js "application/pdf" ->
  endsWith (file_name file) (js ".docx") = false ->
  reader_for file = Some PdfReader.
Proof. intros Ht Hn. unfold reader_for. rewrite Ht, Hn. reflexivity. Qed.

Lemma In_concat_mapi {X Y} (g : nat -> X -> list Y) (l : list X) :
  forall i e,
    In e (concat (mapi g i l))
    <-> exists j x, nth_error l j = Some x /\ In e (g (i + j)%nat x).
Proof.
  induction l as [|y l IH]; intros i e; cbn [mapi concat].
  - split; [intros []|intros (j & x & H & _); now destruct j].
  - rewrite in_app_iff, IH. split.
    + intros [H|(j & x & Hj & H)].
      * exists 0%nat, y. rewrite Nat.add_0_r. now split.
      * exists (S j), x. rewrite Nat.add_succ_r. now split.
    + intros ([|j] & x & Hj & H).
      * cbn in Hj. injection Hj as <-. rewrite Nat.add_0_r in H. now left.
      * right. exists j, x. rewrite Nat.add_succ_r in H. now split.
Qed.

Lemma ocr_attempt_of (f file : File) (id paperId : jsstring) (ms : N) :
  In (OcrAttempt file paperId ms) (attempts f id ++ [Sleep 200]) ->
  file = f /\ paperId = id /\ ms = OCR_TIMEOUT /\ needs_ocr f = true.
Proof.
  unfold attempts. intros H. apply in_app_iff in H as [H|[H|[]]]; [|discriminate].
  destruct (reader_for f) as [[| |]|]; cbn [In] in H;
    try (destruct H as [H|[]]; discriminate); try (now destruct H).
  destruct H as [H|H]; [discriminate|].
  destruct (needs_ocr f); [|destruct H].
  destruct H as [H|[]]. injection H as <- <- <-. now repeat split.
Qed.

Lemma own_index (Date_now : nat -> N) (fs : list File) (j k : nat) (f : File) :
  no_shadowing Date_now fs ->
  nth_error fs j = Some f -> nth_error fs k = Some f -> j = k.
Proof.
  intros Hno Hj Hk.
  destruct (Nat.lt_trichotomy j k) as [H|[H|H]]; [|exact H|]; exfalso.
  - pose proof (Hno j k f f H Hj Hk) as E.
    now rewrite own_name_prefix in E.
  - pose proof (Hno k j f f H Hk Hj) as E.
    now rewrite own_name_prefix in E.
Qed.

(** C1 (amended). In a batch where no file's name is a prefix of the
    identifier of a later file's paper, take an accepted file of type
    [application/pdf] whose name does not end in [.docx]. The run calls OCR on
    this file if and only if its direct text extraction delivered, in time, a
    text whose trimmed length is below 100; a call of OCR on the file is made
    for the file's own paper and under the OCR timeout. When the direct text
    has a trimmed length of at least 100, the file's paper ends ready with
    that text as its content (and, by the equivalence, without OCR). *)
Theorem C1_ocr_fallback (Date_now : nat -> N) (papers_seen : list Paper)
  (files : list File) (st : State) (k : nat) (file : File) :
  no_shadowing Date_now (files_to_add papers_seen files) ->
  nth_error (files_to_add papers_seen files) k = Some file ->
  file_type file = js "application/pdf" ->
  endsWith (file_name file) (js ".docx") = false ->
  exists calls entry,
    trace (snd (handleFileChange Date_now papers_seen (Some files) st))
    = trace st ++ calls
    /\ ((exists paperId ms, In (OcrAttempt file paperId ms) calls) <->
        exists t direct, parsePdf file = Fulfilled t direct /\ t <= PARSING_TIMEOUT
                         /\ (length (trim direct) < 100)%nat)
    /\ (forall paperId ms,
          In (OcrAttempt file paperId ms) calls ->
          paperId = paper_id (new_paper Date_now k file) /\ ms = OCR_TIMEOUT)
    /\ nth_error (papers (snd (handleFileChange Date_now papers_seen (Some files) st)))
                 (length (papers st) + k) = Some entry
    /\ paper_id entry = paper_id (new_paper Date_now k file)
    /\ (forall t direct,
          parsePdf file = Fulfilled t direct -> t <= PARSING_TIMEOUT ->
          (100 <= length (trim direct))%nat ->
          status entry = ready /\ content entry = Some direct).
Proof.
  intros Hno Hk Htype Hname.
  pose proof (pdf_reader file Htype Hname) as Hr.
  rewrite handleFileChange_run. cbn [snd].
  destruct (new_paper_settled Date_now papers_seen files st k Hk)
    as (found_file & entry & Hfound & He & Hid & Hs).
  rewrite (@found_own Date_now _ k file Hno Hk) in Hfound.
  injection Hfound as <-.
  exists (concat (mapi (fun j f => attempts f (paper_id (new_paper Date_now j f))
                                   ++ [Sleep 200])
                       0 (files_to_add papers_seen files))), entry.
  split.
  { rewrite final_state_fold, iterations_trace. cbn [trace]. f_equal.
    apply blocks_own. intros j f Hj. cbn [Nat.add]. now apply found_own. }
  split; [|split; [|split; [exact He|split; [exact Hid|]]]].
  - rewrite <- needs_ocr_true. split.
    + intros (paperId & ms & Hin). apply In_concat_mapi in Hin as (j & f & Hj & Hin).
      apply ocr_attempt_of in Hin as (-> & _ & _ & Hn). exact Hn.
    + intros Hn. exists (paper_id (new_paper Date_now k file)), OCR_TIMEOUT.
      apply In_concat_mapi. exists k, file. split; [exact Hk|].
      cbn [Nat.add]. apply in_or_app. left. unfold attempts. rewrite Hr, Hn.
      right. now left.
  - intros paperId ms Hin. apply In_concat_mapi in Hin as (j & f & Hj & Hin).
    apply ocr_attempt_of in Hin as (-> & -> & -> & _). cbn [Nat.add].
    now rewrite (@own_index Date_now _ j k _ Hno Hj Hk).
  - intros t direct Ht Hlt Hlong.
    assert (V : verdict file = Ok direct).
    { apply verdict_ok. split; [|exact Hlong].
      eapply produces_directly; [exact Hr|exact Ht|exact Hlt|now intros _]. }
    unfold settled_as in Hs. rewrite V in Hs. destruct Hs as (H1 & H2 & _).
    now split.
Qed.

Lemma C1_witness_scanned_pdf :
  let file := {| file_name := js "scan.pdf"; file_type := js "application/pdf";
                 text := Pending; parseDocx := Pending;
                 parsePdf := Fulfilled 30000 (js "  ");
                 ocr_log := []; ocrPdf := Fulfilled 900 (repeat 97 120) |} in
  exists calls,
    trace (snd (handleFileChange (fun _ => 7) [] (Some [file])
                  {| papers := []; trace := [] |}))
    = [] ++ calls
    /\ exists paperId ms, In (OcrAttempt file paperId ms) calls.
Proof.
  cbv zeta.
  destruct (@C1_ocr_fallback (fun _ => 7) []
              [{| file_name := js "scan.pdf"; file_type := js "application/pdf";
                  text := Pending; parseDocx := Pending;
                  parsePdf := Fulfilled 30000 (js "  ");
                  ocr_log := []; ocrPdf := Fulfilled 900 (repeat 97 120) |}]
              {| papers := []; trace := [] |} 0%nat
              {| file_name := js "scan.pdf"; file_type := js "application/pdf";
                 text := Pending; parseDocx := Pending;
                 parsePdf := Fulfilled 30000 (js "  ");
                 ocr_log := []; ocrPdf := Fulfilled 900 (repeat 97 120) |})
    as (calls & entry & Htrace & Hocr & _).
  - intros i j fi fj Hij Hi Hj. destruct j as [|[|j]]; [lia| |]; discriminate.
  - reflexivity.
  - reflexivity.
  - reflexivity.
  - exists calls. split; [exact Htrace|].
    apply Hocr. exists 30000, (js "  "). split; [reflexivity|].
    split; [vm_compute; discriminate|]. vm_compute. lia.
Defined.

(** C1, as first stated, fails: the only file of the batch below has the type
    [application/pdf] and a name ending in [.docx]. Text extraction succeeds
    (with mammoth, and pdf.js would succeed as well) and yields a single
    character, yet OCR is not called: the only call besides the pause is the
    DOCX reader. *)
Lemma C1_counterexample_pdf_named_docx :
  let file := {| file_name := js "scan.docx"; file_type := js "application/pdf";
                 text := Pending; parseDocx := Fulfilled 5 (js "x");
                 parsePdf := Fulfilled 5 (js "x");
                 ocr_log := []; ocrPdf := Fulfilled 9 (repeat 97 120) |} in
  file_type file = js "application/pdf"
  /\ parsePdf file = Fulfilled 5 (js "x")
  /\ trace (snd (handleFileChange (fun _ => 7) [] (Some [file])
                   {| papers := []; trace := [] |}))
     = [ParseAttempt DocxReader file PARSING_TIMEOUT; Sleep 200].
Proof. vm_compute. repeat split. Qed.

(** X27. When the list the handler sees holds at most 100 papers, a run adds
    at most [100 - papers.length] papers, changes no identifier of a paper
    already there, and adds nothing (the state stays as it is) when the list
    holds exactly 100; if, in addition, the state is the very list the handler
    sees, it holds at most 100 papers afterwards. *)
Theorem upload_respects_the_limit (Date_now : nat -> N) (papers_seen : list Paper)
  (files : option (list File)) (st : State) :
  (length papers_seen <= 100)%nat ->
  let st' := snd (handleFileChange Date_now papers_seen files st) in
  exists added : list Paper,
    map paper_id (papers st') = map paper_id (papers st) ++ map paper_id added
    /\ (length added <= 100 - length papers_seen)%nat
    /\ (length papers_seen = 100%nat -> st' = st)
    /\ (papers st = papers_seen -> (length (papers st') <= 100)%nat).
Proof.
  intros Hlen st'. subst st'. rewrite handleFileChange_run. cbn [snd].
  assert (Hadd : forall fs, (length (files_to_add papers_seen fs)
                             <= 100 - length papers_seen)%nat).
  { intros fs. unfold files_to_add. rewrite slice_from_0 by lia.
    etransitivity; [apply firstn_le_length|]. lia. }
  exists (match files with
          | Some fs => mapi (new_paper Date_now) 0 (files_to_add papers_seen fs)
          | None => []
          end).
  split; [|split; [|split]].
  - rewrite final_state_ids. now destruct files.
  - destruct files as [fs|]; cbn [length]; [|lia].
    rewrite mapi_length. apply Hadd.
  - intros H100. unfold final_state. destruct files as [fs|]; [|reflexivity].
    pose proof (Hadd fs) as H. rewrite H100 in H.
    destruct (files_to_add papers_seen fs); [reflexivity|cbn in H; lia].
  - intros Hst.
    rewrite <- (length_map paper_id), final_state_ids, length_app, length_map, Hst.
    destruct files as [fs|]; cbn [length]; [|lia].
    rewrite length_map, mapi_length. pose proof (Hadd fs). lia.
Qed.

Lemma upload_respects_the_limit_witness :
  let file := {| file_name := js "b.txt"; file_type := js "text/plain";
                 text := Pending; parseDocx := Pending; parsePdf := Pending;
                 ocr_log := []; ocrPdf := Pending |} in
  let old := {| paper_id := js "a.txt-1"; paper_name := js "a.txt"; status := ready;
                content := None; message := None; progress := None |} in
  exists added : list Paper,
    map paper_id (papers (snd (handleFileChange (fun _ => 5) (repeat old 99)
                                 (Some [file; file])
                                 {| papers := repeat old 99; trace := [] |})))
    = map paper_id (repeat old 99) ++ map paper_id added
    /\ (length added <= 100 - length (repeat old 99))%nat.
Proof.
  cbv zeta.
  destruct (upload_respects_the_limit (fun _ => 5)
              (repeat {| paper_id := js "a.txt-1"; paper_name := js "a.txt";
                         status := ready; content := None; message := None;
                         progress := None |} 99)
              (Some [{| file_name := js "b.txt"; file_type := js "text/plain";
                        text := Pending; parseDocx := Pending; parsePdf := Pending;
                        ocr_log := []; ocrPdf := Pending |};
                     {| file_name := js "b.txt"; file_type := js "text/plain";
                        text := Pending; parseDocx := Pending; parsePdf := Pending;
                        ocr_log := []; ocrPdf := Pending |}])
              {| papers := repeat {| paper_id := js "a.txt-1"; paper_name := js "a.txt";
                                     status := ready; content := None; message := None;
                                     progress := None |} 99;
                 trace := [] |})
    as (added & Hids & Hle & _).
  - rewrite repeat_length. lia.
  - exists added. now split.
Defined.


Lemma pdf_reader_type (file : File) :
  reader_for file = Some PdfReader -> file_type file = js "application/pdf".
Proof.
  unfold reader_for.
  destruct (str_eqb (file_type file) (js "text/plain")); [discriminate|].
  destruct (str_eqb (file_type file) docx_type
            || endsWith (file_name file) (js ".docx")); [discriminate|].
  destruct (str_eqb (file_type file) (js "application/pdf")) eqn:E; [|discriminate].
  intros _. now apply str_eqb_eq.
Qed.

(** C7 (amended). In a batch where no file's name is a prefix of the
    identifier of a later file's paper, a run works on the accepted files one
    after the other in their order: its calls are, file by file, the attempts
    on that file followed by the pause of 200 ms. The attempts on a file are
    at most one parse (exactly one when the type has a reader, none when it
    has not), under the fixed timeout of 30000 ms, followed by at most one OCR
    call, under the fixed timeout of 60000 ms and only for a file of type
    [application/pdf]; nothing is attempted a second time. *)
Theorem C7_sequential_bounded_attempts (Date_now : nat -> N)
  (papers_seen : list Paper) (files : list File) (st : State) :
  no_shadowing Date_now (files_to_add papers_seen files) ->
  trace (snd (handleFileChange Date_now papers_seen (Some files) st))
  = trace st
    ++ concat (mapi (fun k file =>
                       attempts file (paper_id (new_paper Date_now k file))
                       ++ [Sleep 200])
                    0 (files_to_add papers_seen files))
  /\ forall file paperId,
      (reader_for file = None -> attempts file paperId = [])
      /\ (forall reader,
            reader_for file = Some reader ->
            exists escalation,
              attempts file paperId = ParseAttempt reader file 30000 :: escalation
              /\ (escalation = []
                  \/ (escalation = [OcrAttempt file paperId 60000]
                      /\ file_type file = js "application/pdf"))).
Proof.
  intros Hno. split.
  - rewrite handleFileChange_run. cbn [snd].
    rewrite final_state_fold, iterations_trace. cbn [trace]. f_equal.
    apply blocks_own. intros k f Hk. cbn [Nat.add].
    now apply found_own.
  - intros file paperId. unfold attempts. split.
    + now intros ->.
    + intros reader Hr. rewrite Hr. destruct reader.
      * exists []. split; [reflexivity|now left].
      * exists []. split; [reflexivity|now left].
      * eexists. split; [reflexivity|].
        destruct (needs_ocr file); [right|now left].
        split; [reflexivity|]. now apply pdf_reader_type.
Qed.

Lemma C7_witness_two_files :
  let a := {| file_name := js "a.txt"; file_type := js "text/plain";
              text := Fulfilled 5 (repeat 97 120); parseDocx := Pending;
              parsePdf := Pending; ocr_log := []; ocrPdf := Pending |} in
  let b := {| file_name := js "b.pdf"; file_type := js "application/pdf";
              text := Pending; parseDocx := Pending;
              parsePdf := Fulfilled 8 []; ocr_log := [];
              ocrPdf := Pending |} in
  trace (snd (handleFileChange (fun _ => 7) [] (Some [a; b])
                {| papers := []; trace := [] |}))
  = [ParseAttempt TextReader a 30000; Sleep 200;
     ParseAttempt PdfReader b 30000; OcrAttempt b (js "b.pdf-7") 60000; Sleep 200].
Proof.
  cbv zeta.
  refine (eq_trans
            (proj1 (@C7_sequential_bounded_attempts (fun _ => 7) []
                      [{| file_name := js "a.txt"; file_type := js "text/plain";
                          text := Fulfilled 5 (repeat 97 120); parseDocx := Pending;
                          parsePdf := Pending; ocr_log := []; ocrPdf := Pending |};
                       {| file_name := js "b.pdf"; file_type := js "application/pdf";
                          text := Pending; parseDocx := Pending;
                          parsePdf := Fulfilled 8 []; ocr_log := [];
                          ocrPdf := Pending |}]
                      {| papers := []; trace := [] |} _)) _).
  - intros i j fi fj Hij Hi Hj.
    destruct j as [|[|j]].
    + lia.
    + destruct i as [|i]; [|lia].
      vm_compute in Hi, Hj. injection Hi as <-. injection Hj as <-.
      vm_compute. reflexivity.
    + vm_compute in Hj. destruct j; discriminate.
  - vm_compute. reflexivity.
Defined.

(** C7, as first stated, fails in two ways. A file of a type without a reader
    gets no parse attempt at all: its iteration only pauses. And when a file's
    name is a prefix of a later paper's identifier, the lookup by name hands
    the earlier file to the later paper's iteration: [a.txt] is parsed twice
    and [a.txt.pdf] never. *)
Lemma C7_counterexample_none_and_twice :
  let image := {| file_name := js "fig.png"; file_type := js "image/png";
                  text := Pending; parseDocx := Pending; parsePdf := Pending;
                  ocr_log := []; ocrPdf := Pending |} in
  let a := {| file_name := js "a.txt"; file_type := js "text/plain";
              text := Fulfilled 5 (repeat 97 120); parseDocx := Pending;
              parsePdf := Pending; ocr_log := []; ocrPdf := Pending |} in
  let b := {| file_name := js "a.txt.pdf"; file_type := js "application/pdf";
              text := Pending; parseDocx := Pending;
              parsePdf := Fulfilled 8 (repeat 98 120); ocr_log := [];
              ocrPdf := Pending |} in
  trace (snd (handleFileChange (fun _ => 7) [] (Some [image])
                {| papers := []; trace := [] |}))
  = [Sleep 200]
  /\ trace (snd (handleFileChange (fun _ => 7) [] (Some [a; b])
                   {| papers := []; trace := [] |}))
     = [ParseAttempt TextReader a PARSING_TIMEOUT; Sleep 200;
        ParseAttempt TextReader a PARSING_TIMEOUT; Sleep 200].
Proof. vm_compute. split; reflexivity. Qed.

(** C4, evaluated where the code goes wrong. [a.txt] is a readable text file;
    [a.txt.png] has a type without a reader and should end in error. The lookup
    [paper.id.startsWith(f.name)] finds [a.txt] for the paper of [a.txt.png],
    whose identifier starts with that name, so the second paper is reported
    ready, with the content of the first file. *)
Lemma C4_shadowed_file_reported_ready :
  let a := {| file_name := js "a.txt"; file_type := js "text/plain";
              text := Fulfilled 5 (repeat 97 120); parseDocx := Pending;
              parsePdf := Pending; ocr_log := []; ocrPdf := Pending |} in
  let b := {| file_name := js "a.txt.png"; file_type := js "image/png";
              text := Pending; parseDocx := Pending; parsePdf := Pending;
              ocr_log := []; ocrPdf := Pending |} in
  reader_for b = None
  /\ map (fun p => (paper_name p, status p, content p))
         (papers (snd (handleFileChange (fun _ => 7) [] (Some [a; b])
                         {| papers := []; trace := [] |})))
     = [(js "a.txt", ready, Some (repeat 97 120));
        (js "a.txt.png", ready, Some (repeat 97 120))].
Proof. vm_compute. split; reflexivity. Qed.

(** X1. The pipeline settles every paper it creates, and nothing is thrown: the
    run returns normally, and each new paper ends where the file found for it
    leads. It is ready, with the text as content, exactly when extraction on
    that file produced a text of trimmed length at least 100; otherwise it is
    in error with a message that is not empty. Without shadowing the file
    found is the paper's own. *)
Theorem upload_settles_every_paper (Date_now : nat -> N)
  (papers_seen : list Paper) (files : list File) (st : State) :
  fst (handleFileChange Date_now papers_seen (Some files) st) = Ok tt
  /\ forall k own,
      nth_error (files_to_add papers_seen files) k = Some own ->
      exists file entry,
        found (files_to_add papers_seen files) (paper_id (new_paper Date_now k own))
        = Some file
        /\ (no_shadowing Date_now (files_to_add papers_seen files) -> file = own)
        /\ nth_error (papers (snd (handleFileChange Date_now papers_seen
                                     (Some files) st)))
                     (length (papers st) + k) = Some entry
        /\ paper_id entry = paper_id (new_paper Date_now k own)
        /\ ((status entry = ready
             /\ exists c, produces file c /\ (100 <= length (trim c))%nat
                          /\ content entry = Some c)
            \/ (status entry = error
                /\ (forall c, produces file c -> (length (trim c) < 100)%nat)
                /\ exists m, message entry = Some m /\ m <> [])).
Proof.
  rewrite handleFileChange_run. cbn [fst snd]. split; [reflexivity|].
  intros k own Hk.
  destruct (new_paper_settled Date_now papers_seen files st k Hk)
    as (file & entry & Hfound & He & Hid & Hs).
  exists file, entry. split; [exact Hfound|]. split.
  - intros Hno. rewrite (@found_own Date_now _ k own Hno Hk) in Hfound. congruence.
  - split; [exact He|]. split; [exact Hid|]. now apply settled_as_cases.
Qed.

End UploadClaims.

Section IdentifierClaims.
Import GeminiService GraphFacts App AppFacts ClusterPanel.

Local Open Scope N_scope.

Lemma graph_of_response_build (response : value) (r : GraphData * list Concept) :
  graph_of_response response = Ok r ->
  exists rn rl rc,
    get_prop response (js "nodes") = Ok rn
    /\ get_prop response (js "links") = Ok rl
    /\ get_prop response (js "concepts") = Ok rc
    /\ build_graph rn rl rc = Ok r.
Proof.
  unfold graph_of_response. intros H.
  destruct (get_prop response (js "nodes")) as [rn|]; [|discriminate].
  destruct (get_prop response (js "links")) as [rl|]; [|discriminate].
  destruct (get_prop response (js "concepts")) as [rc|]; [|discriminate].
  cbn [bind result_monad] in H.
  destruct (negb (truthy rn) || negb (truthy rl) || negb (truthy rc));
    [discriminate|].
  now exists rn, rl, rc.
Qed.

Lemma stamp_clash (bound : N) (text : jsstring) (t : N) :
  bound <= t -> ~ stamped_before bound (text ++ dash :: decimal t).
Proof.
  intros Hle (text' & t' & E & Hlt).
  apply dash_suffix_inj in E as [_ E]. lia.
Qed.

(** C5 (amended). Identifiers stay pairwise distinct where the code derives
    them from distinct inputs. Papers: on a state whose identifiers are
    distinct and stamped below some bound, a run keeps all identifiers distinct
    when the accepted files have pairwise distinct names and no reading of
    the clock lies below the bound. Concepts: [extractCausalGraph] always
    returns concepts with pairwise distinct identifiers (name, dash, index),
    and [handleAddConcept] keeps them distinct when every identifier already
    there ends in a dash and a number strictly below the clock's reading (at
    equality the new identifier can repeat an old one). Nodes: the node
    identifiers of the graph are those of the response, in order, so they are
    distinct exactly when the response's are. *)
Theorem C5_identifiers_distinct :
  (forall (Date_now : nat -> N) (papers_seen : list Paper) (files : list File)
          (st : State) (bound : N),
      NoDup (map paper_id (papers st)) ->
      Forall (stamped_before bound) (map paper_id (papers st)) ->
      (forall k, bound <= Date_now k) ->
      NoDup (map file_name (files_to_add papers_seen files)) ->
      NoDup (map paper_id
               (papers (snd (handleFileChange Date_now papers_seen (Some files) st)))))
  /\ (forall (response : value) (g : GraphData) (concepts : list Concept),
        graph_of_response response = Ok (g, concepts) ->
        NoDup (map concept_id concepts)
        /\ exists items,
            get_prop response (js "nodes") = Ok (VArr items)
            /\ map_result (fun node => get_prop node (js "id")) items
               = Ok (map node_id (nodes g)))
  /\ (forall (input : option jsstring) (now : N) (concepts concepts' : list Concept),
        NoDup (map concept_id concepts) ->
        Forall (stamped_before now) (map concept_id concepts) ->
        handleAddConcept input now concepts = Some concepts' ->
        NoDup (map concept_id concepts')).
Proof.
  split; [|split].
  - intros Date_now papers_seen files st bound Hold Hstamped Hclock Hnames.
    rewrite handleFileChange_run. cbn [snd]. rewrite final_state_ids.
    apply NoDup_app.
    + exact Hold.
    + now apply new_ids_distinct.
    + intros id Hin Hnew. rewrite Forall_forall in Hstamped.
      apply new_id_form in Hnew as (k & f & _ & ->).
      apply (@stamp_clash bound (file_name f) _ (Hclock (0 + k)%nat)).
      now apply Hstamped.
  - intros response g concepts H.
    apply graph_of_response_build in H as (rn & rl & rc & Hn & _ & _ & Hb).
    split.
    + eapply build_graph_concept_ids. exact Hb.
    + destruct (build_graph_node_ids _ _ _ Hb) as (items & -> & Hids).
      now exists items.
  - intros input now concepts concepts' Hold Hstamped H.
    unfold handleAddConcept in H.
    destruct (option_map trim input) as [name|]; [|discriminate].
    destruct (negb (is_empty name)); [|discriminate].
    injection H as <-. rewrite map_app. cbn [map concept_id].
    apply NoDup_app.
    + exact Hold.
    + constructor; [intros []|constructor].
    + intros id Hin [<-|[]]. rewrite Forall_forall in Hstamped.
      apply (@stamp_clash now name now (N.le_refl now)).
      now apply Hstamped.
Qed.

Lemma C5_witness_two_names :
  let a := {| file_name := js "a.txt"; file_type := js "text/plain";
              text := Pending; parseDocx := Pending; parsePdf := Pending;
              ocr_log := []; ocrPdf := Pending |} in
  let b := {| file_name := js "b.txt"; file_type := js "text/plain";
              text := Pending; parseDocx := Pending; parsePdf := Pending;
              ocr_log := []; ocrPdf := Pending |} in
  NoDup (map paper_id
           (papers (snd (handleFileChange (fun _ => 7) [] (Some [a; b])
                           {| papers := []; trace := [] |})))).
Proof.
  cbv zeta.
  apply (proj1 C5_identifiers_distinct (fun _ => 7) [] _ _ 0).
  - constructor.
  - constructor.
  - intros k. lia.
  - vm_compute. constructor.
    + intros [E|[]]. discriminate.
    + constructor; [intros []|constructor].
Defined.

(** C5, as first stated, fails. Two files of one name in one batch get the
    same identifier when the clock reads the same millisecond for both, which
    it does when one [map] creates them. And a response that names a node
    twice yields two nodes with one identifier. *)
Lemma C5_counterexample_equal_identifiers :
  let a := {| file_name := js "a.txt"; file_type := js "text/plain";
              text := Fulfilled 5 (repeat 97 120); parseDocx := Pending;
              parsePdf := Pending; ocr_log := []; ocrPdf := Pending |} in
  let b := {| file_name := js "a.txt"; file_type := js "text/plain";
              text := Fulfilled 6 (repeat 98 120); parseDocx := Pending;
              parsePdf := Pending; ocr_log := []; ocrPdf := Pending |} in
  let x := {| spec_id := js "X"; spec_isCore := true |} in
  map paper_id (papers (snd (handleFileChange (fun _ => 1700000000000) []
                               (Some [a; b]) {| papers := []; trace := [] |})))
  = [js "a.txt-1700000000000"; js "a.txt-1700000000000"]
  /\ match graph_of_response (response_value [x; x] [] []) with
     | Ok (g, _) => map node_id (nodes g) = [VStr (js "X"); VStr (js "X")]
     | Throw _ => False
     end.
Proof. vm_compute. split; reflexivity. Qed.

End IdentifierClaims.

(* ================================================================== *)
(** * netlify/functions/gemini-proxy.js: what the handler sends and relays *)
(* ================================================================== *)

Section ProxyReplies.
Import GeminiService GraphFacts GeminiProxy.

Lemma error_reply_message (JSON_stringify : value -> jsstring)
  (TypeError_message m : jsstring) :
  m <> [] ->
  error_reply JSON_stringify TypeError_message (Error m)
  = {| statusCode := 500; body := JSON_stringify (VObj [(js "error", VStr m)]) |}.
Proof. intros H. destruct m; [congruence|reflexivity]. Qed.

(** X3. Without a key the handler does not turn to the upstream. Whenever the
    request body parses to something other than [null], a missing or empty
    [API_KEY] gives the answer 500 with the message
    [Missing Gemini API key (API_KEY not set).], whatever [fetch] would do. *)
Theorem handler_without_key
  (JSON_parse : jsstring -> result value) (JSON_stringify : value -> jsstring)
  (TypeError_message : jsstring) (fetch : Request -> result Response)
  (event_body API_KEY : option jsstring) (parsed : value) :
  JSON_parse (string_or event_body (js "{}")) = Ok parsed ->
  not_nullish parsed = true ->
  API_KEY = None \/ API_KEY = Some [] ->
  handler JSON_parse JSON_stringify TypeError_message fetch event_body API_KEY
  = Ok {| statusCode := 500;
          body := JSON_stringify (VObj [(js "error", VStr missing_key_message)]) |}.
Proof.
  intros Hparse Hobj Hkey. unfold handler, try_block. rewrite Hparse.
  cbn [bind result_monad].
  rewrite <- (is_ok_get_prop parsed (js "prompt")) in Hobj.
  destruct (get_prop parsed (js "prompt")) as [prompt|]; [|discriminate].
  assert (Hreply :
            try_catch (Throw (Error missing_key_message))
                      (fun error =>
                         ret (error_reply JSON_stringify TypeError_message error))
            = Ok {| statusCode := 500;
                    body := JSON_stringify
                              (VObj [(js "error", VStr missing_key_message)]) |}).
  { cbn [try_catch ret result_monad]. rewrite error_reply_message; [reflexivity|].
    vm_compute. discriminate. }
  destruct Hkey as [-> | ->]; cbn [is_empty]; exact Hreply.
Qed.

Lemma handler_without_key_witness :
  handler (fun _ => Ok (VObj [])) (fun _ => js "{}") (js "TypeError")
          (fun _ => Throw (Error (js "unreachable"))) None None
  = Ok {| statusCode := 500; body := js "{}" |}.
Proof.
  apply (@handler_without_key (fun _ => Ok (VObj [])) (fun _ => js "{}")
           (js "TypeError") (fun _ => Throw (Error (js "unreachable")))
           None None (VObj [])).
  - reflexivity.
  - reflexivity.
  - now left.
Defined.

(** X4. With a key and a request body that parses, the handler turns to the
    upstream with one request, and its answer depends on the upstream through
    the answer to that request only: a [POST] to the model's address with the
    key as bearer token, whose text is the prompt of the body, or [Hello] when
    the body has no prompt or a falsy one. *)
Theorem handler_sends_one_request
  (JSON_parse : jsstring -> result value) (JSON_stringify : value -> jsstring)
  (TypeError_message : jsstring)
  (event_body : option jsstring) (apiKey : jsstring) (parsed prompt : value) :
  JSON_parse (string_or event_body (js "{}")) = Ok parsed ->
  get_prop parsed (js "prompt") = Ok prompt ->
  apiKey <> [] ->
  let text := if truthy prompt then prompt else VStr (js "Hello") in
  let request :=
    {| url := gemini_url;
       method := js "POST";
       headers := [(js "Content-Type", js "application/json");
                   (js "Authorization", js "Bearer " ++ apiKey)];
       request_body :=
         JSON_stringify
           (VObj [(js "contents",
                   VArr [VObj [(js "role", VStr (js "user"));
                               (js "parts", VArr [VObj [(js "text", text)]])]])]) |} in
  forall fetch fetch' : Request -> result Response,
    fetch request = fetch' request ->
    handler JSON_parse JSON_stringify TypeError_message fetch event_body (Some apiKey)
    = handler JSON_parse JSON_stringify TypeError_message fetch' event_body
              (Some apiKey).
Proof.
  intros Hparse Hprompt Hkey text request fetch fetch' Hsame.
  unfold handler, try_block. rewrite Hparse. cbn [bind result_monad].
  rewrite Hprompt. destruct apiKey as [|c key]; [congruence|].
  cbn [is_empty].
  change (gemini_request JSON_stringify (c :: key) prompt) with request.
  now rewrite Hsame.
Qed.

Lemma handler_sends_one_request_witness :
  let stringify := fun v : value => match to_string v with
                                    | Ok s => s
                                    | Throw _ => []
                                    end in
  let down : Request -> result Response := fun _ => Throw (Error (js "down")) in
  let picky : Request -> result Response :=
    fun r => if str_eqb (method r) (js "POST")
             then Throw (Error (js "down"))
             else Ok {| ok := true; status := 200; text := Ok (js "1") |} in
  handler (fun _ => Ok (VObj [])) stringify (js "TypeError") down None (Some (js "k"))
  = handler (fun _ => Ok (VObj [])) stringify (js "TypeError") picky None
            (Some (js "k")).
Proof.
  cbv zeta.
  apply (@handler_sends_one_request (fun _ => Ok (VObj []))
           (fun v : value => match to_string v with
                             | Ok s => s
                             | Throw _ => []
                             end)
           (js "TypeError") None (js "k") (VObj []) VUndefined).
  - reflexivity.
  - reflexivity.
  - vm_compute. discriminate.
  - vm_compute. reflexivity.
Defined.

(** X5. An upstream answer that is not [ok] is relayed: the handler answers 500
    and its message holds the upstream's status and the text of its body,
    [Gemini API error <status>: <text>]. *)
Theorem handler_relays_upstream_error
  (JSON_parse : jsstring -> result value) (JSON_stringify : value -> jsstring)
  (TypeError_message : jsstring) (fetch : Request -> result Response)
  (event_body : option jsstring) (apiKey : jsstring) (parsed prompt : value)
  (response : Response) (errText : jsstring) :
  JSON_parse (string_or event_body (js "{}")) = Ok parsed ->
  get_prop parsed (js "prompt") = Ok prompt ->
  apiKey <> [] ->
  fetch (gemini_request JSON_stringify apiKey prompt) = Ok response ->
  ok response = false ->
  text response = Ok errText ->
  handler JSON_parse JSON_stringify TypeError_message fetch event_body (Some apiKey)
  = Ok {| statusCode := 500;
          body := JSON_stringify
                    (VObj [(js "error",
                            VStr (js "Gemini API error " ++ decimal (status response)
                                  ++ js ": " ++ errText))]) |}.
Proof.
  intros Hparse Hprompt Hkey Hfetch Hok Htext.
  unfold handler, try_block. rewrite Hparse. cbn [bind result_monad].
  rewrite Hprompt. destruct apiKey as [|c key]; [congruence|].
  cbn [is_empty]. rewrite Hfetch, Hok. cbn [negb]. rewrite Htext.
  cbn [bind try_catch ret result_monad]. rewrite error_reply_message; [reflexivity|].
  destruct (js "Gemini API error ") eqn:E; [vm_compute in E|]; discriminate.
Qed.

Lemma handler_relays_upstream_error_witness :
  handler parse_digit (fun _ => js "{}") (js "TypeError")
          (fun _ => Ok {| ok := false; status := 429; text := Ok (js "quota") |})
          (Some (js "7")) (Some (js "k"))
  = Ok {| statusCode := 500; body := js "{}" |}.
Proof.
  apply (@handler_relays_upstream_error parse_digit (fun _ => js "{}")
           (js "TypeError")
           (fun _ => Ok {| ok := false; status := 429; text := Ok (js "quota") |})
           (Some (js "7")) (js "k") (VNum (js "7")) VUndefined
           {| ok := false; status := 429; text := Ok (js "quota") |} (js "quota")).
  - vm_compute. reflexivity.
  - reflexivity.
  - vm_compute. discriminate.
  - reflexivity.
  - reflexivity.
  - reflexivity.
Defined.

End ProxyReplies.

(* ================================================================== *)
(** * services/geminiService.ts: the graph that goes back to the model *)
(* ================================================================== *)

Section SuggestionPrompt.
Import GeminiService GraphFacts.

Lemma filter_result_kept {X} (f : X -> result bool) (l xs : list X) :
  filter_result f l = Ok xs -> forall x, In x xs -> f x = Ok true.
Proof.
  revert xs. induction l as [|y l IH]; intros xs H x Hx; cbn in H.
  - injection H as <-. destruct Hx.
  - destruct (f y) as [b|] eqn:Ey; [|discriminate].
    destruct (filter_result f l) as [ys|]; [|discriminate].
    injection H as <-. destruct b.
    + destruct Hx as [<-|Hx]; [exact Ey|now apply (IH ys)].
    + now apply (IH ys).
Qed.

Lemma set_has_primitive (s : jsset) (v : value) :
  set_has s v = true ->
  get_prop v (js "id") = Throw TypeError \/ get_prop v (js "id") = Ok VUndefined.
Proof.
  unfold set_has. rewrite existsb_exists. intros [k [_ E]].
  destruct v; try (now right); try (now left); now destruct k.
Qed.

Lemma kept_link_endless (nodeSet : jsset) (l : value) :
  keep_link nodeSet l = Ok true ->
  prompt_link l = Throw TypeError \/ prompt_link l = Ok endless_link.
Proof.
  unfold keep_link, prompt_link. intros H.
  destruct (get_prop l (js "source")) as [source|]; [|discriminate].
  cbn [bind result_monad] in *.
  destruct (set_has nodeSet source) eqn:Hs; [|discriminate].
  destruct (get_prop l (js "target")) as [target|]; [|discriminate].
  cbn [bind ret result_monad] in *. injection H as Ht.
  destruct (set_has_primitive _ _ Hs) as [-> | ->]; [now left|].
  destruct (set_has_primitive _ _ Ht) as [-> | ->]; [now left|now right].
Qed.

Lemma prompt_links_endless (ls : list value) :
  (forall l, In l ls ->
             prompt_link l = Throw TypeError \/ prompt_link l = Ok endless_link) ->
  map_result prompt_link ls = Throw TypeError
  \/ map_result prompt_link ls = Ok (map (fun _ => endless_link) ls).
Proof.
  induction ls as [|l ls IH]; intros H; cbn [map_result map].
  - now right.
  - destruct (H l (or_introl eq_refl)) as [-> | ->]; [now left|].
    destruct IH as [-> | ->]; [intros; apply H; now right|now left|now right].
Qed.

Lemma build_graph_links (rn rl rc : value) (g : GraphData) (concepts : list Concept) :
  build_graph rn rl rc = Ok (g, concepts) ->
  exists nodeSet items, filter_result (keep_link nodeSet) items = Ok (links g).
Proof.
  unfold build_graph. intros H.
  destruct (array_items rc) as [cs|]; [|discriminate]. cbn [bind result_monad] in H.
  destruct (fold_result register_concept cs []) as [m|]; [|discriminate].
  destruct (array_items rn) as [ns|]; [|discriminate].
  cbn [bind result_monad] in H.
  destruct (map_result (make_node m) ns) as [nodes|]; [|discriminate].
  destruct (array_items rl) as [ls|]; [|discriminate]. cbn [bind result_monad] in H.
  destruct (filter_result _ ls) as [links|] eqn:El; [|discriminate].
  destruct (mapi_result _ 0 cs) as [ks|]; [|discriminate].
  cbn [ret result_monad] in H. injection H as <- <-. cbn [GeminiService.links].
  eexists. exists ls. exact El.
Qed.

(** X6. Handed the graph as [extractCausalGraph] returned it, the prompt of
    [generateTopicSuggestions] names no end of any causal link. The ends of
    the links are still identifiers, not nodes, so reading their [id] gives
    [undefined] for every link, or throws a [TypeError] (an end that is [null]
    or [undefined]), and then the function throws it without calling the
    model. For a response of the annotated types the links of the prompt are
    as many objects as the graph has links, each without source and target. *)
Theorem suggestion_links_lose_endpoints :
  (forall (response : value) (g : GraphData) (concepts : list Concept),
      graph_of_response response = Ok (g, concepts) ->
      prompt_links g = Throw TypeError
      \/ prompt_links g = Ok (VArr (map (fun _ => endless_link) (links g))))
  /\ (forall (ns : list NodeSpec) (ls : list LinkSpec) (cs : list ConceptSpec),
        exists g concepts,
          graph_of_response (response_value ns ls cs) = Ok (g, concepts)
          /\ links g = map link_value (filter (both_known ns) ls)
          /\ prompt_links g
             = Ok (VArr (repeat endless_link (length (filter (both_known ns) ls)))))
  /\ (forall (JSON_parse : jsstring -> result value)
             (generateContent : jsstring -> result jsstring)
             (suggestionPrompt : GraphData -> list Concept -> Lang -> jsstring)
             (g : GraphData) (concepts : list Concept) (language : Lang),
        prompt_links g = Throw TypeError ->
        generateTopicSuggestions JSON_parse generateContent suggestionPrompt
                                        g concepts language
        = Throw TypeError).
Proof.
  split; [|split].
  - intros response g concepts H.
    apply graph_of_response_build in H as (rn & rl & rc & _ & _ & _ & Hb).
    apply build_graph_links in Hb as (nodeSet & items & Hl).
    unfold prompt_links.
    destruct (prompt_links_endless (links g)) as [-> | ->]; [|now left|now right].
    intros l Hin. apply (kept_link_endless nodeSet).
    now apply (filter_result_kept _ _ Hl).
  - intros ns ls cs.
    destruct (graph_of_typed_response ns ls cs) as [concepts [Hg _]].
    eexists. exists concepts. split; [exact Hg|]. cbn [links].
    split; [reflexivity|]. unfold prompt_links. cbn [links].
    rewrite (map_result_over_map prompt_link link_value (fun _ => endless_link)).
    + cbn [bind ret result_monad]. now rewrite map_const.
    + intros l. unfold prompt_link. rewrite get_source, get_target. reflexivity.
  - intros JSON_parse generateContent suggestionPrompt g concepts language H.
    unfold generateTopicSuggestions. now rewrite H.
Qed.

Lemma existsb_over_map {X Y} (f : Y -> bool) (g : X -> Y) (l : list X) :
  existsb f (map g l) = existsb (fun x => f (g x)) l.
Proof. induction l as [|x l IH]; cbn; [reflexivity|now rewrite IH]. Qed.

Lemma map_get_fold_none {V} (k : value) (entries : list (value * V)) :
  same_value_zero k k = true ->
  forall m,
    (map_get k (fold_left (fun m kv => map_set (fst kv) (snd kv) m) entries m) = None)
    <-> (map_get k m = None
         /\ existsb (fun kv => same_value_zero (fst kv) k) entries = false).
Proof.
  intros Hk. induction entries as [|[k' v] entries IH]; intros m; cbn [fold_left existsb].
  - split; [intros H; now split|now intros [H _]].
  - rewrite IH. cbn [fst snd]. rewrite (map_get_set _ _ _ _ Hk).
    destruct (same_value_zero k' k); cbn [orb].
    + split; [intros [H _]; discriminate|intros [_ H]; discriminate].
    + reflexivity.
Qed.

Lemma children_of_typed (cs : list ConceptSpec) (ns : list NodeSpec)
  (vars : list jsstring) :
  map node_id
      (defined (map (fun variableId =>
                       map_get variableId
                               (Map_of (map (fun node => (node_id node, node))
                                            (map (expected_node cs) ns))))
                    (map VStr vars)))
  = map VStr (filter (known ns) vars).
Proof.
  induction vars as [|v vars IH]; cbn [map defined filter]; [reflexivity|].
  destruct (map_get (VStr v) _) as [child|] eqn:E.
  - pose proof (child_is_node _ _ E) as [_ Hid].
    assert (Hk : known ns v = true).
    { destruct (known ns v) eqn:Hk; [reflexivity|]. exfalso.
      assert (N : map_get (VStr v)
                          (Map_of (map (fun node => (node_id node, node))
                                       (map (expected_node cs) ns))) = None).
      { unfold Map_of. apply map_get_fold_none; [apply str_eqb_refl|].
        split; [reflexivity|]. rewrite <- Hk. unfold known.
        rewrite !existsb_over_map. apply existsb_ext. intros n. reflexivity. }
      congruence. }
    rewrite Hk. cbn [defined map]. now rewrite Hid, IH.
  - unfold Map_of in E. apply map_get_fold_none in E; [|apply str_eqb_refl].
    destruct E as [_ E].
    assert (Hk : known ns v = false).
    { rewrite <- E. unfold known. rewrite !existsb_over_map. apply existsb_ext.
      intros n. reflexivity. }
    now rewrite Hk.
Qed.

Lemma prompt_concepts_typed (nm : jsmap GraphNode) (cs : list ConceptSpec) :
  forall i concepts,
    mapi_result (make_concept nm) i (map concept_value cs) = Ok concepts ->
    map prompt_concept concepts
    = map (fun c =>
             VObj [(js "name", VStr (spec_name c));
                   (js "variables",
                    VArr (map node_id
                              (defined (map (fun variableId => map_get variableId nm)
                                            (map VStr (spec_variables c))))))]) cs.
Proof.
  induction cs as [|c cs IH]; intros i concepts H; cbn [map mapi_result] in H.
  - now injection H as <-.
  - rewrite make_concept_typed in H.
    destruct (mapi_result _ (S i) (map concept_value cs)) as [ks|] eqn:E; [|discriminate].
    injection H as <-. cbn [map]. f_equal. now apply (IH (S i)).
Qed.

(** X7. For a response of the annotated types, what the prompt of
    [generateTopicSuggestions] tells the model about the graph that
    [extractCausalGraph] returned is the response again, in order: the nodes
    are the identifiers of the response's nodes, and the concept clusters are
    the response's concepts, each with its name and with those of its
    variables that are nodes of the graph; variables that name no node are
    left out. *)
Theorem suggestion_prompt_reflects_response (ns : list NodeSpec)
  (ls : list LinkSpec) (cs : list ConceptSpec) :
  exists g concepts,
    graph_of_response (response_value ns ls cs) = Ok (g, concepts)
    /\ prompt_nodes g = VArr (map (fun n => VStr (spec_id n)) ns)
    /\ prompt_concepts concepts
       = VArr (map (fun c =>
                      VObj [(js "name", VStr (spec_name c));
                            (js "variables",
                             VArr (map VStr (filter (known ns) (spec_variables c))))])
                   cs).
Proof.
  destruct (graph_of_typed_response ns ls cs) as [concepts [Hg Hc]].
  eexists. exists concepts. split; [exact Hg|]. split.
  - unfold prompt_nodes. cbn [nodes]. now rewrite node_ids_expected.
  - unfold prompt_concepts. rewrite (prompt_concepts_typed _ _ _ Hc). f_equal.
    apply map_ext. intros c. now rewrite children_of_typed.
Qed.

End SuggestionPrompt.

(* ================================================================== *)
(** * services/geminiService.ts: texts, fences and clusters *)
(* ================================================================== *)

Section ServiceLaws.
Import GeminiService ParsingFacts GraphFacts.

Local Open Scope N_scope.

Lemma detectDominantLanguage_by_counts (texts : list jsstring) :
  detectDominantLanguage texts
  = if (latin_count texts + cjk_count texts <? 100)%nat then en
    else if (latin_count texts <? cjk_count texts)%nat then zh else en.
Proof. unfold detectDominantLanguage. now rewrite fold_count_step. Qed.

Lemma counts_permutation (f : N -> bool) (texts texts' : list jsstring) :
  Permutation texts texts' ->
  length (filter f (concat texts)) = length (filter f (concat texts')).
Proof.
  induction 1 as [|x l l' _ IH|x y l|l l' l'' _ IH _ IH']; cbn [concat].
  - reflexivity.
  - rewrite !filter_app, !length_app. now rewrite IH.
  - rewrite !filter_app, !length_app. lia.
  - now rewrite IH.
Qed.

(** X8. [detectDominantLanguage] looks at the letters only, not at how they
    are spread over the texts: the answer is the same for the texts in any
    order, and the same as for all texts joined into one. *)
Theorem detectDominantLanguage_ignores_arrangement (texts texts' : list jsstring) :
  (Permutation texts texts' ->
   detectDominantLanguage texts = detectDominantLanguage texts')
  /\ detectDominantLanguage [concat texts] = detectDominantLanguage texts.
Proof.
  split.
  - intros P. rewrite !detectDominantLanguage_by_counts. unfold latin_count, cjk_count.
    now rewrite (counts_permutation is_latin_letter P), (counts_permutation is_cjk P).
  - rewrite !detectDominantLanguage_by_counts. unfold latin_count, cjk_count.
    cbn [concat]. now rewrite app_nil_r.
Qed.

(** ** A fenced answer *)
Lemma split_at_first_fresh (pat a b : jsstring) (rest : jsstring) :
  pat = backtick :: rest ->
  forallb (fun c => negb (c =? backtick)) a = true ->
  split_at_first pat (a ++ pat ++ b) = Some (a, b).
Proof.
  intros -> Ha. induction a as [|c a IH].
  - cbn [app split_at_first].
    change (backtick :: rest ++ b) with ((backtick :: rest) ++ b).
    rewrite (startsWith_app (backtick :: rest) b).
    rewrite skipn_app, skipn_all, Nat.sub_diag. reflexivity.
  - cbn [forallb] in Ha. apply andb_prop in Ha as [Hc Ha].
    rewrite <- app_comm_cons. cbn [split_at_first startsWith].
    assert (E : unit_eqb c backtick = false).
    { unfold unit_eqb. now destruct (c =? backtick). }
    rewrite E. cbn [andb]. now rewrite (IH Ha).
Qed.

(** X9. An answer that wraps its JSON in a markdown fence is recovered. When
    the whole text is no JSON, the text before the fence and the text inside
    it hold no backtick, and the inside, trimmed, is not empty and parses,
    [parseJsonResponse] returns the value of the inside, whatever follows the
    closing fence. *)
Theorem fenced_json_is_recovered (JSON_parse : jsstring -> result value)
  (before inner after : jsstring) (e : exn) (v : value) :
  JSON_parse (before ++ fence_json ++ inner ++ fence ++ after) = Throw e ->
  forallb (fun c => negb (c =? backtick)) before = true ->
  forallb (fun c => negb (c =? backtick)) inner = true ->
  trim inner <> [] ->
  JSON_parse (trim inner) = Ok v ->
  parseJsonResponse JSON_parse (before ++ fence_json ++ inner ++ fence ++ after)
  = Ok v.
Proof.
  intros Hraw Hb Hi Hne Hv. unfold parseJsonResponse. rewrite Hraw.
  cbn [try_catch]. rewrite jsonRegex_exec_first_block. unfold first_fenced_block.
  rewrite (@split_at_first_fresh fence_json before (inner ++ fence ++ after)
             (skipn 1 fence_json)) by (reflexivity || assumption).
  rewrite (@split_at_first_fresh fence inner after (skipn 1 fence))
    by (reflexivity || assumption).
  destruct (trim inner) as [|c t]; [congruence|].
  cbn [is_empty negb]. now rewrite Hv.
Qed.

Lemma fenced_json_is_recovered_witness :
  parseJsonResponse parse_digit (js "Here you are: ```json" ++ js " 7 " ++ js "``` Bye.")
  = Ok (VNum (js "7")).
Proof.
  apply (@fenced_json_is_recovered parse_digit (js "Here you are: ") (js " 7 ")
           (js " Bye.") (Error (js "Unexpected token")) (VNum (js "7"))).
  - vm_compute. reflexivity.
  - vm_compute. reflexivity.
  - vm_compute. reflexivity.
  - vm_compute. discriminate.
  - vm_compute. reflexivity.
Defined.

(** ** Clusters and groups *)
Lemma mapi_result_length {X Y} (f : X -> nat -> result Y) (l : list X) :
  forall i ys, mapi_result f i l = Ok ys -> length ys = length l.
Proof.
  induction l as [|x l IH]; intros i ys H; cbn [mapi_result] in H.
  - now injection H as <-.
  - destruct (f x i); [|discriminate].
    destruct (mapi_result f (S i) l) as [ys'|] eqn:E; [|discriminate].
    injection H as <-. cbn [length]. f_equal. now apply (IH (S i)).
Qed.

Lemma children_groups_typed (cs : list ConceptSpec) (ns : list NodeSpec)
  (vars : list jsstring) :
  map (fun child => (node_id child, group child))
      (defined (map (fun variableId =>
                       map_get variableId
                               (Map_of (map (fun node => (node_id node, node))
                                            (map (expected_node cs) ns))))
                    (map VStr vars)))
  = map (fun v => (VStr v, VStr (group_name cs v))) (filter (known ns) vars).
Proof.
  induction vars as [|v vars IH]; cbn [map defined filter]; [reflexivity|].
  pose proof (children_of_typed cs ns [v]) as H1. cbn [map defined filter] in H1.
  destruct (map_get (VStr v) _) as [child|] eqn:E.
  - destruct (known ns v); [|discriminate]. cbn [defined map] in H1 |- *.
    rewrite IH. f_equal.
    pose proof (child_is_node _ _ E) as [Hin Hid].
    apply in_map_iff in Hin as (n & <- & _). cbn [node_id expected_node] in Hid.
    injection Hid as <-. reflexivity.
  - destruct (known ns v); [discriminate|]. exact IH.
Qed.

(** X10. A variable that several concepts list is shown under each of them
    and grouped under the last. For a response of the annotated types, the
    children of the i-th returned concept are, in order, the variables of the
    i-th response concept that are nodes, and each child carries as its group
    the name of the last concept of the response that lists it ([Default]
    when that name is empty), whichever concept it is shown under. *)
Theorem children_carry_the_last_group (ns : list NodeSpec) (ls : list LinkSpec)
  (cs : list ConceptSpec) :
  exists g concepts,
    graph_of_response (response_value ns ls cs) = Ok (g, concepts)
    /\ length concepts = length cs
    /\ forall i c k,
        nth_error cs i = Some c -> nth_error concepts i = Some k ->
        concept_name k = VStr (spec_name c)
        /\ map (fun child => (node_id child, group child)) (children k)
           = map (fun v => (VStr v, VStr (group_name cs v)))
                 (filter (known ns) (spec_variables c)).
Proof.
  destruct (graph_of_typed_response ns ls cs) as [concepts [Hg Hc]].
  eexists. exists concepts. split; [exact Hg|].
  assert (Hnth : forall i k, nth_error concepts i = Some k ->
                 exists c, nth_error cs i = Some c
                           /\ make_concept
                                (Map_of (map (fun node => (node_id node, node))
                                             (map (expected_node cs) ns)))
                                (concept_value c) (0 + i) = Ok k).
  { intros i k Hk. destruct (mapi_result_nth _ _ _ Hc _ Hk) as (x & Hx & Hf).
    rewrite nth_error_map in Hx. destruct (nth_error cs i) as [c|]; [|discriminate].
    cbn [option_map] in Hx. injection Hx as Hx. subst x.
    exists c. split; [reflexivity|exact Hf]. }
  split.
  - rewrite (mapi_result_length _ _ _ Hc). apply length_map.
  - intros i c k Hi Hk. destruct (Hnth i k Hk) as (c' & Hc' & Hmake).
    rewrite Hi in Hc'. injection Hc' as <-.
    rewrite make_concept_typed in Hmake. injection Hmake as <-.
    cbn [concept_name children]. split; [reflexivity|].
    apply children_groups_typed.
Qed.

End ServiceLaws.

(* ================================================================== *)
(** * App.tsx: the text of a PDF and the way to OCR *)
(* ================================================================== *)

Section PdfText.
Import App AppFacts.

Local Open Scope N_scope.

Lemma trim_all_space (s : jsstring) : forallb is_space s = true -> trim s = [].
Proof. intros H. unfold trim. now rewrite (trimStart_all_space _ H). Qed.

Lemma array_join_blank (strs : list value) :
  forallb blank_item strs = true ->
  exists line, array_join [space] strs = Ok line /\ forallb is_space line = true.
Proof.
  induction strs as [|x strs IH]; intros H; cbn [array_join].
  - now exists [].
  - cbn [forallb] in H. apply andb_prop in H as [Hx Hs].
    destruct (IH Hs) as (rest & Hrest & Hspace).
    assert (Hitem : exists s, match x with
                              | VUndefined | VNull => Ok []
                              | _ => to_string x
                              end = Ok s /\ forallb is_space s = true).
    { destruct x; try discriminate; eexists; split; try reflexivity; assumption. }
    destruct Hitem as (s & -> & Hsp).
    destruct strs as [|y strs']; [now exists s|].
    rewrite Hrest. eexists. split; [reflexivity|].
    rewrite forallb_app, Hsp. cbn [app forallb]. now rewrite Hspace.
Qed.

Lemma add_pages_blank (pages : list PdfPage) :
  forallb blank_page pages = true ->
  forall fullText,
    forallb is_space fullText = true ->
    exists text, fold_result add_page pages fullText = Ok text
                 /\ forallb is_space text = true.
Proof.
  induction pages as [|page pages IH]; intros H fullText Hf; cbn [fold_result].
  - now exists fullText.
  - cbn [forallb] in H. apply andb_prop in H as [Hp Hs].
    destruct page as [strs|]; [|discriminate]. cbn [blank_page] in Hp.
    destruct (array_join_blank _ Hp) as (line & Hline & Hspace).
    unfold add_page at 1. cbn [bind ret result_monad]. rewrite Hline.
    apply (IH Hs). rewrite !forallb_app, Hf, Hspace. reflexivity.
Qed.

(** X11. A PDF on whose pages pdf.js finds no text (no items, or items that
    are blank) always goes to OCR. [parsePdf] succeeds on it with a text made
    of whitespace only, one line feed per page at least; and whenever that
    text arrives in time, the iteration for a file of type [application/pdf]
    (not named [.docx]) makes the parse attempt and then the OCR attempt. *)
Theorem scanned_pdf_goes_to_ocr (pages : list PdfPage) :
  forallb blank_page pages = true ->
  exists fullText,
    parsePdf_text (Ok pages) = Ok fullText
    /\ trim fullText = []
    /\ (length pages <= length fullText)%nat
    /\ forall (file : File) (paperId : jsstring) (st : State) (t : N),
        file_type file = js "application/pdf" ->
        endsWith (file_name file) (js ".docx") = false ->
        parsePdf file = Fulfilled t fullText -> t < PARSING_TIMEOUT ->
        trace (snd (process_file file paperId st))
        = trace st ++ [ParseAttempt PdfReader file PARSING_TIMEOUT;
                        OcrAttempt file paperId OCR_TIMEOUT].
Proof.
  intros Hblank.
  destruct (add_pages_blank pages Hblank [] eq_refl) as (fullText & Htext & Hspace).
  exists fullText. split; [exact Htext|].
  pose proof (trim_all_space _ Hspace) as Htrim. split; [exact Htrim|]. split.
  - assert (G : forall acc text,
               fold_result add_page pages acc = Ok text ->
               (length pages + length acc <= length text)%nat).
    { clear. induction pages as [|page pages IH]; intros acc text H;
        cbn [fold_result] in H.
      - injection H as <-. cbn. lia.
      - destruct (add_page acc page) as [acc'|] eqn:E; [|discriminate].
        apply IH in H. unfold add_page in E.
        destruct page as [strs|]; [|discriminate]. cbn [bind ret result_monad] in E.
        destruct (array_join [space] strs) as [line|]; [|discriminate].
        injection E as <-. rewrite !length_app in H. cbn [length] in *. lia. }
    apply G in Htext. cbn [length] in Htext. lia.
  - intros file paperId st t Htype Hname Hpdf Hlt.
    rewrite process_file_run. cbn [snd trace]. f_equal.
    unfold attempts. rewrite (pdf_reader file Htype Hname).
    assert (Hocr : needs_ocr file = true).
    { apply needs_ocr_true. exists t, fullText. rewrite Htrim. cbn.
      repeat split; try assumption; lia. }
    now rewrite Hocr.
Qed.

Lemma scanned_pdf_goes_to_ocr_witness :
  exists fullText,
    parsePdf_text (Ok [Ok []; Ok [VStr (js " "); VUndefined]]) = Ok fullText
    /\ trim fullText = [].
Proof.
  destruct (@scanned_pdf_goes_to_ocr [Ok []; Ok [VStr (js " "); VUndefined]] eq_refl)
    as (fullText & Htext & Htrim & _).
  exists fullText. now split.
Defined.

Lemma fold_result_app {S X} (f : S -> X -> result S) (l l' : list X) (s : S) :
  fold_result f (l ++ l') s
  = match fold_result f l s with
    | Ok s' => fold_result f l' s'
    | Throw e => Throw e
    end.
Proof.
  revert s. induction l as [|x l IH]; intros s; cbn [app fold_result]; [reflexivity|].
  destruct (f s x); [apply IH|reflexivity].
Qed.

Lemma add_pages_from (pages : list PdfPage) (fullText : jsstring) :
  fold_result add_page pages fullText
  = match fold_result add_page pages [] with
    | Ok text => Ok (fullText ++ text)
    | Throw e => Throw e
    end.
Proof.
  revert fullText.
  induction pages as [|page pages IH]; intros fullText; cbn [fold_result].
  - now rewrite app_nil_r.
  - unfold add_page at 1 3. destruct page as [strs|e]; [|reflexivity].
    cbn [bind ret result_monad].
    destruct (array_join [space] strs) as [line|e]; [|reflexivity].
    rewrite (IH (fullText ++ line ++ [line_feed])), (IH ([] ++ line ++ [line_feed])).
    destruct (fold_result add_page pages []); [|reflexivity].
    cbn [app]. now rewrite <- !app_assoc.
Qed.

(** X12. The text [parsePdf] builds is made page by page: the text of a
    document is the text of its first pages followed by the text of the
    remaining ones, and it fails exactly when one of the two parts fails, the
    earlier failure winning. *)
Theorem parsePdf_text_page_by_page (pages pages' : list PdfPage) :
  parsePdf_text (Ok (pages ++ pages'))
  = match parsePdf_text (Ok pages) with
    | Ok text =>
      match parsePdf_text (Ok pages') with
      | Ok text' => Ok (text ++ text')
      | Throw e => Throw e
      end
    | Throw e => Throw e
    end.
Proof.
  unfold parsePdf_text. cbn [bind result_monad].
  rewrite fold_result_app.
  destruct (fold_result add_page pages []) as [text|e]; [|reflexivity].
  apply add_pages_from.
Qed.

End PdfText.

(* ================================================================== *)
(** * App.tsx: what an upload leaves alone, and the papers it hands on *)
(* ================================================================== *)

Section UploadFrame.
Import App AppFacts.

Local Open Scope N_scope.

Lemma update_paper_nth (id : jsstring) (f : Paper -> Paper) (ps : list Paper)
  (i : nat) (p : Paper) :
  nth_error ps i = Some p -> paper_id p <> id ->
  nth_error (update_paper id f ps) i = Some p.
Proof.
  intros Hi Hid. unfold update_paper. rewrite nth_error_map, Hi. cbn [option_map].
  apply str_eqb_neq in Hid. now rewrite Hid.
Qed.

Lemma iterations_frame (fs : list File) (l : list Paper) :
  forall (st : State) (i : nat) (p : Paper),
    nth_error (papers st) i = Some p ->
    ~ In (paper_id p) (map paper_id l) ->
    nth_error (papers (fold_left (after_iteration fs) l st)) i = Some p.
Proof.
  induction l as [|q l IH]; intros st i p Hi Hnot; cbn [fold_left]; [exact Hi|].
  apply IH; [|intros H; apply Hnot; now right].
  unfold after_iteration. destruct (found fs (paper_id q)); [|exact Hi].
  cbn [papers]. apply update_paper_nth; [exact Hi|].
  intros E. apply Hnot. left. now symmetry.
Qed.

Lemma logged_name (log : list LoggerMessage) (p : Paper) :
  paper_name (fold_left (fun p m => log_update m p) log p) = paper_name p.
Proof.
  revert p. induction log as [|m log IH]; intros p; cbn [fold_left]; [reflexivity|].
  rewrite IH. unfold log_update. now destruct (str_eqb _ _).
Qed.

Lemma settle_name (file : File) (p : Paper) :
  paper_name (settle file (before_settle file p)) = paper_name p.
Proof.
  unfold settle, before_settle.
  assert (H : forall q, paper_name (match verdict file with
                                    | Ok c => set_ready c
                                    | Throw e => set_error e
                                    end q) = paper_name q).
  { intros q. now destruct (verdict file). }
  rewrite H. destruct (reader_for file) as [[| |]|]; try reflexivity.
  destruct (needs_ocr file); [|reflexivity]. now rewrite logged_name.
Qed.

Lemma iterations_names (fs : list File) (l : list Paper) (st : State) :
  map paper_name (papers (fold_left (after_iteration fs) l st))
  = map paper_name (papers st).
Proof.
  revert st. induction l as [|q l IH]; intros st; cbn [fold_left]; [reflexivity|].
  rewrite IH. unfold after_iteration. destruct (found fs (paper_id q)); [|reflexivity].
  cbn [papers]. unfold update_paper. rewrite map_map. apply map_ext.
  intros p. destruct (str_eqb (paper_id p) (paper_id q)); [apply settle_name|reflexivity].
Qed.

Lemma new_paper_names (Date_now : nat -> N) (fs : list File) (i : nat) :
  map paper_name (mapi (new_paper Date_now) i fs) = map file_name fs.
Proof.
  revert i. induction fs as [|f fs IH]; intros i; cbn; [reflexivity|]. now rewrite IH.
Qed.

(** X13. An upload leaves the other papers alone. The list keeps its earlier
    entries at their places and gets one entry per accepted file at the end,
    named after the file; every earlier paper whose identifier is not the
    identifier of a new paper is, after the run, exactly as it was before. *)
Theorem upload_leaves_other_papers (Date_now : nat -> N) (papers_seen : list Paper)
  (files : list File) (st : State) :
  map paper_name (papers (snd (handleFileChange Date_now papers_seen (Some files) st)))
  = map paper_name (papers st) ++ map file_name (files_to_add papers_seen files)
  /\ forall (i : nat) (p : Paper),
      nth_error (papers st) i = Some p ->
      ~ In (paper_id p)
           (map paper_id (mapi (new_paper Date_now) 0
                               (files_to_add papers_seen files))) ->
      nth_error (papers (snd (handleFileChange Date_now papers_seen (Some files) st))) i
      = Some p.
Proof.
  rewrite handleFileChange_run. cbn [snd]. rewrite final_state_fold. split.
  - rewrite iterations_names. cbn [papers]. now rewrite map_app, new_paper_names.
  - intros i p Hi Hnot. apply iterations_frame; [|exact Hnot].
    cbn [papers]. rewrite nth_error_app1; [exact Hi|].
    apply nth_error_Some. congruence.
Qed.

Lemma update_paper_Forall (P : Paper -> Prop) (id : jsstring) (f : Paper -> Paper)
  (ps : list Paper) :
  (forall p, P (f p)) -> Forall P ps -> Forall P (update_paper id f ps).
Proof.
  intros Hf H. unfold update_paper. apply Forall_map.
  apply (Forall_impl _ (P := P)); [|exact H].
  intros p Hp. destruct (str_eqb (paper_id p) id); [apply Hf|exact Hp].
Qed.

Lemma settle_ready_with_text (file : File) (p : Paper) :
  ready_with_text (settle file p).
Proof.
  intros Hready.
  pose proof (settle_settled file p) as S. apply settled_as_cases in S.
  destruct S as [(_ & c & _ & Hlen & Hc)|(He & _)].
  - now exists c.
  - congruence.
Qed.

Lemma iterations_ready_with_text (fs : list File) (l : list Paper) (st : State) :
  Forall ready_with_text (papers st) ->
  Forall ready_with_text (papers (fold_left (after_iteration fs) l st)).
Proof.
  revert st. induction l as [|q l IH]; intros st H; cbn [fold_left]; [exact H|].
  apply IH. unfold after_iteration. destruct (found fs (paper_id q)); [|exact H].
  cbn [papers]. apply update_paper_Forall; [|exact H].
  intros p. apply settle_ready_with_text.
Qed.

Lemma new_papers_parsing (Date_now : nat -> N) (fs : list File) (i : nat) :
  Forall ready_with_text (mapi (new_paper Date_now) i fs).
Proof.
  revert i. induction fs as [|f fs IH]; intros i; cbn [mapi]; constructor.
  - intros H. discriminate.
  - apply IH.
Qed.

(** X14. Ready means readable. If every ready paper of the state carries a
    text of trimmed length at least 100, the same holds after an upload,
    whichever files it was given: a paper the pipeline marks ready is one the
    analysis accepts ([status === 'ready' && content]). *)
Theorem ready_papers_carry_text (Date_now : nat -> N) (papers_seen : list Paper)
  (files : option (list File)) (st : State) :
  Forall ready_with_text (papers st) ->
  forall p,
    In p (papers (snd (handleFileChange Date_now papers_seen files st))) ->
    status p = ready ->
    (exists c, content p = Some c /\ (100 <= length (trim c))%nat)
    /\ Analysis.valid_paper p = true.
Proof.
  intros Hinv p Hin Hready.
  assert (H : Forall ready_with_text
                (papers (snd (handleFileChange Date_now papers_seen files st)))).
  { rewrite handleFileChange_run. cbn [snd]. destruct files as [files|]; [|exact Hinv].
    rewrite final_state_fold. apply iterations_ready_with_text. cbn [papers].
    apply Forall_app. split; [exact Hinv|apply new_papers_parsing]. }
  rewrite Forall_forall in H. destruct (H p Hin Hready) as (c & Hc & Hlen).
  split; [now exists c|].
  unfold Analysis.valid_paper. rewrite Hready, Hc.
  destruct c as [|x c]; [|reflexivity].
  cbn in Hlen. lia.
Qed.

Lemma ready_papers_carry_text_witness :
  let p := {| paper_id := js "a.txt-7"; paper_name := js "a.txt"; status := ready;
              content := Some (repeat 97 120);
              message := Some ready_message; progress := None |} in
  (exists c, content p = Some c /\ (100 <= length (trim c))%nat)
  /\ Analysis.valid_paper p = true.
Proof.
  cbv zeta.
  apply (@ready_papers_carry_text (fun _ => 7) []
           (Some [{| file_name := js "a.txt"; file_type := js "text/plain";
                     text := Fulfilled 5 (repeat 97 120); parseDocx := Pending;
                     parsePdf := Pending; ocr_log := []; ocrPdf := Pending |}])
           {| papers := []; trace := [] |}).
  - constructor.
  - vm_compute. now left.
  - reflexivity.
Defined.

(** X15. [removePaper] takes out the paper with the given identifier and
    nothing else. When the identifiers of the list the handler saw are
    distinct and one of them is the given one, the new state is that list
    without this one entry, the others in their order; the calls made so far
    are not touched. The list is computed from what the handler saw, whatever
    the state holds at the time. *)
Theorem removePaper_removes_that_paper (papers_seen : list Paper) (id : jsstring)
  (st : State) :
  NoDup (map paper_id papers_seen) ->
  In id (map paper_id papers_seen) ->
  exists before p after,
    papers_seen = before ++ p :: after
    /\ paper_id p = id
    /\ removePaper papers_seen id st
       = (Ok tt, {| papers := before ++ after; trace := trace st |}).
Proof.
  intros Hnd Hin. unfold removePaper, setPapers.
  induction papers_seen as [|q l IH]; [destruct Hin|].
  cbn [map] in Hnd, Hin. inversion Hnd as [|? ? Hq Hl]; subst.
  destruct (str_eqb (paper_id q) id) eqn:E.
  - apply str_eqb_eq in E. exists [], q, l. split; [reflexivity|]. split; [exact E|].
    cbn [filter app]. apply str_eqb_eq in E. rewrite E. cbn [negb].
    do 2 f_equal. apply str_eqb_eq in E. subst id.
    clear - Hq. induction l as [|r l IH]; cbn [filter]; [reflexivity|].
    cbn [map In] in Hq.
    destruct (str_eqb (paper_id r) (paper_id q)) eqn:E.
    + apply str_eqb_eq in E. exfalso. apply Hq. now left.
    + cbn [negb]. f_equal. apply IH. intros H. apply Hq. now right.
  - destruct Hin as [Hin|Hin]; [apply str_eqb_neq in E; congruence|].
    destruct (IH Hl Hin) as (before & p & after & -> & Hp & Hrun).
    exists (q :: before), p, after. split; [reflexivity|]. split; [exact Hp|].
    cbn [filter]. rewrite E. cbn [negb app].
    injection Hrun as Hrun. now rewrite Hrun.
Qed.

Lemma removePaper_removes_that_paper_witness :
  let a := {| paper_id := js "a.txt-1"; paper_name := js "a.txt"; status := ready;
              content := None; message := None; progress := None |} in
  let b := {| paper_id := js "b.txt-2"; paper_name := js "b.txt"; status := error;
              content := None; message := None; progress := None |} in
  exists before p after,
    [a; b] = before ++ p :: after
    /\ paper_id p = js "b.txt-2"
    /\ removePaper [a; b] (js "b.txt-2") {| papers := [b; a; b]; trace := [] |}
       = (Ok tt, {| papers := before ++ after; trace := [] |}).
Proof.
  cbv zeta.
  apply (@removePaper_removes_that_paper
           [{| paper_id := js "a.txt-1"; paper_name := js "a.txt"; status := ready;
               content := None; message := None; progress := None |};
            {| paper_id := js "b.txt-2"; paper_name := js "b.txt"; status := error;
               content := None; message := None; progress := None |}]
           (js "b.txt-2")
           {| papers := [{| paper_id := js "b.txt-2"; paper_name := js "b.txt";
                            status := error; content := None; message := None;
                            progress := None |};
                         {| paper_id := js "a.txt-1"; paper_name := js "a.txt";
                            status := ready; content := None; message := None;
                            progress := None |};
                         {| paper_id := js "b.txt-2"; paper_name := js "b.txt";
                            status := error; content := None; message := None;
                            progress := None |}];
              trace := [] |}).
  - vm_compute. constructor.
    + intros [E|[]]. discriminate.
    + constructor; [intros []|constructor].
  - vm_compute. right. now left.
Defined.

Lemma withTimeout_late {A} (p : promise A) (ms : N) (msg : jsstring) :
  late p ms = true -> withTimeout p ms msg = Throw (Error msg).
Proof.
  destruct p as [t v|t reason|]; cbn [late withTimeout]; intros H;
    try reflexivity; apply N.ltb_lt in H;
    now rewrite (proj2 (N.leb_gt t ms) H).
Qed.

Lemma withTimeout_rejected {A} (t : N) (reason : jsstring) (ms : N) (msg : jsstring) :
  t <= ms -> withTimeout (@Rejected A t reason) ms msg = Throw (Error reason).
Proof. intros H. cbn [withTimeout]. now rewrite (proj2 (N.leb_le t ms) H). Qed.

Lemma withTimeout_fulfilled {A} (t : N) (v : A) (ms : N) (msg : jsstring) :
  t <= ms -> withTimeout (Fulfilled t v) ms msg = Ok v.
Proof. intros H. cbn [withTimeout]. now rewrite (proj2 (N.leb_le t ms) H). Qed.

Lemma process_file_entry (file : File) (paperId : jsstring) (st : State)
  (i : nat) (p : Paper) :
  nth_error (papers st) i = Some p -> paper_id p = paperId ->
  nth_error (papers (snd (process_file file paperId st))) i
  = Some (settle file (before_settle file p)).
Proof.
  intros Hi Hid. rewrite process_file_run. cbn [snd papers]. unfold update_paper.
  rewrite nth_error_map, Hi. cbn [option_map]. now rewrite Hid, str_eqb_refl.
Qed.

Lemma error_entry (file : File) (q : Paper) (m : jsstring) :
  verdict file = Throw (Error m) ->
  status (settle file q) = error
  /\ message (settle file q) = Some (if is_empty m then parse_failed_message else m).
Proof. intros H. unfold settle. rewrite H. now split. Qed.

Lemma text_too_short (c : jsstring) :
  (length (trim c) < 100)%nat ->
  is_empty c || (length (trim c) <? 100)%nat = true.
Proof. intros H. apply Nat.ltb_lt in H. rewrite H. apply orb_true_r. Qed.

(** X17. Every way an iteration fails leaves its own message on the paper,
    whose status becomes [error]: a type without reader is named in the
    message ([未知] for an empty type); a reader that has not settled when the
    30 seconds are over gives the timeout message of its branch, and OCR that
    has not settled when its 60 seconds are over its own; a reader or OCR that
    rejects by its deadline, the deadline's own millisecond included, passes
    its reason on, [解析失败] standing in for an empty one; and a text that was
    extracted but is shorter than 100 characters after trimming gives the
    message about missing text. *)
Theorem upload_failure_messages (file : File) (paperId : jsstring) (st : State)
  (i : nat) (p : Paper) :
  nth_error (papers st) i = Some p -> paper_id p = paperId ->
  exists p',
    nth_error (papers (snd (process_file file paperId st))) i = Some p'
    /\ (reader_for file = None ->
        status p' = error
        /\ message p' = Some (js "不支持的文件类型: "
                              ++ (if is_empty (file_type file) then js "未知"
                                  else file_type file)))
    /\ (forall reader,
          reader_for file = Some reader ->
          late (reading reader file) 30000 = true ->
          status p' = error
          /\ message p' = Some (match reader with
                                | PdfReader => js "初步文本提取超时。"
                                | _ => js "操作超时"
                                end))
    /\ (forall reader t reason,
          reader_for file = Some reader ->
          reading reader file = Rejected t reason -> t <= 30000 ->
          status p' = error
          /\ message p' = Some (if is_empty reason then js "解析失败" else reason))
    /\ (forall t direct,
          reader_for file = Some PdfReader ->
          parsePdf file = Fulfilled t direct -> t <= 30000 ->
          (length (trim direct) < 100)%nat ->
          (late (ocrPdf file) 60000 = true ->
           status p' = error
           /\ message p' = Some (js "OCR处理超时。文件可能过于复杂。"))
          /\ (forall t' reason,
                ocrPdf file = Rejected t' reason -> t' <= 60000 ->
                status p' = error
                /\ message p' = Some (if is_empty reason then js "解析失败"
                                      else reason)))
    /\ (forall c,
          produces file c -> (length (trim c) < 100)%nat ->
          status p' = error
          /\ message p'
             = Some (js "未能提取有效文本。文件可能是扫描图像、空文件或已损坏。")).
Proof.
  intros Hi Hid. eexists.
  split; [eapply process_file_entry; [exact Hi|exact Hid]|].
  assert (Hfixed : forall m, m <> [] -> verdict file = Throw (Error m) ->
                   status (settle file (before_settle file p)) = error
                   /\ message (settle file (before_settle file p)) = Some m).
  { intros m Hm Hv. destruct (error_entry file (before_settle file p) Hv) as [Hs Hmsg].
    split; [exact Hs|]. rewrite Hmsg. destruct m; [congruence|reflexivity]. }
  split; [|split; [|split; [|split]]].
  - intros Hr. apply Hfixed.
    + unfold js at 1. cbn. discriminate.
    + unfold verdict, extracted. rewrite Hr. reflexivity.
  - intros reader Hr Hlate. destruct reader; apply Hfixed;
      try (vm_compute; discriminate);
      unfold verdict, extracted; rewrite Hr; cbn [reading] in Hlate;
      now rewrite withTimeout_late by exact Hlate.
  - intros reader t reason Hr Hrej Hlt. apply error_entry.
    unfold verdict, extracted. rewrite Hr.
    destruct reader; cbn [reading] in Hrej |- *;
      rewrite Hrej; now rewrite withTimeout_rejected by exact Hlt.
  - intros t direct Hr Hpdf Hlt Hshort. split.
    + intros Hlate. apply Hfixed; [vm_compute; discriminate|].
      unfold verdict, extracted. rewrite Hr, Hpdf.
      rewrite withTimeout_fulfilled by exact Hlt.
      rewrite (proj2 (Nat.ltb_lt _ _) Hshort).
      now rewrite withTimeout_late by exact Hlate.
    + intros t' reason Hrej Hlt'. apply error_entry.
      unfold verdict, extracted. rewrite Hr, Hpdf.
      rewrite withTimeout_fulfilled by exact Hlt.
      rewrite (proj2 (Nat.ltb_lt _ _) Hshort), Hrej.
      now rewrite withTimeout_rejected by exact Hlt'.
  - intros c Hp Hshort. apply Hfixed; [vm_compute; discriminate|].
    unfold verdict, extracted.
    destruct Hp as [reader t c Hr Ht Hlt Hpdf|t direct t' c Hr Ht Hlt Hs Ht' Hlt'].
    + rewrite Hr. destruct reader; cbn [reading] in Ht |- *; rewrite Ht;
        rewrite withTimeout_fulfilled by exact Hlt.
      * now rewrite text_too_short.
      * now rewrite text_too_short.
      * specialize (Hpdf eq_refl). lia.
    + rewrite Hr, Ht. rewrite withTimeout_fulfilled by exact Hlt.
      rewrite (proj2 (Nat.ltb_lt _ _) Hs), Ht'.
      rewrite withTimeout_fulfilled by exact Hlt'. now rewrite text_too_short.
Qed.

Lemma upload_failure_messages_witness :
  let file := {| file_name := js "fig.png"; file_type := js "image/png";
                 text := Pending; parseDocx := Pending; parsePdf := Pending;
                 ocr_log := []; ocrPdf := Pending |} in
  let p := {| paper_id := js "fig.png-7"; paper_name := js "fig.png";
              status := parsing; content := None; message := None;
              progress := None |} in
  exists p',
    nth_error (papers (snd (process_file file (js "fig.png-7")
                              {| papers := [p]; trace := [] |}))) 0 = Some p'
    /\ status p' = error
    /\ message p' = Some (js "不支持的文件类型: image/png").
Proof.
  cbv zeta.
  destruct (@upload_failure_messages
              {| file_name := js "fig.png"; file_type := js "image/png";
                 text := Pending; parseDocx := Pending; parsePdf := Pending;
                 ocr_log := []; ocrPdf := Pending |}
              (js "fig.png-7")
              {| papers := [{| paper_id := js "fig.png-7"; paper_name := js "fig.png";
                               status := parsing; content := None; message := None;
                               progress := None |}];
                 trace := [] |}
              0%nat
              {| paper_id := js "fig.png-7"; paper_name := js "fig.png";
                 status := parsing; content := None; message := None;
                 progress := None |} eq_refl eq_refl)
    as (p' & Hp' & Hnone & _).
  exists p'. split; [exact Hp'|].
  destruct (Hnone eq_refl) as [Hs Hm]. split; [exact Hs|].
  rewrite Hm. vm_compute. reflexivity.
Defined.

End UploadFrame.

(* ================================================================== *)
(** * App.tsx: how the analysis and the refresh end *)
(* ================================================================== *)

Section AnalysisSteps.
Import GeminiService App Analysis.

Lemma message_or_nonempty (TypeError_message : jsstring) (e : exn)
  (fallback : jsstring) :
  fallback <> [] -> message_or TypeError_message e fallback <> [].
Proof.
  intros H. unfold message_or.
  destruct (match e with Error m => m | TypeError => TypeError_message end);
    [exact H|discriminate].
Qed.

Lemma no_valid_paper (papers_seen : list Paper) :
  (forall p, In p papers_seen ->
             status p <> ready \/ content p = None \/ content p = Some []) ->
  filter valid_paper papers_seen = [].
Proof.
  intros H. induction papers_seen as [|p l IH]; [reflexivity|]. cbn [filter].
  rewrite IH by (intros q Hq; apply H; now right).
  assert (E : valid_paper p = false); [|now rewrite E].
  unfold valid_paper.
  destruct (H p (or_introl eq_refl)) as [Hs|[Hc|Hc]].
  - destruct (status p); congruence.
  - rewrite Hc. now destruct (status p).
  - rewrite Hc. now destruct (status p).
Qed.

(** X18. Without a paper that is ready and has content, [handleAnalysis] asks
    the model nothing: it sets the error text to its message about missing
    papers and leaves every other part of the state, the two progress flags
    included, as it was. Papers still parsing, in OCR or in error do not
    count, nor does a ready paper whose content is missing or empty. *)
Theorem analysis_needs_a_ready_paper
  (JSON_parse : jsstring -> result value)
  (generateContent : jsstring -> result jsstring)
  (extractionPrompt : Lang -> list jsstring -> jsstring)
  (suggestionPrompt : GraphData -> list Concept -> Lang -> jsstring)
  (TypeError_message : jsstring) (papers_seen : list Paper) (s : AppState) :
  (forall p, In p papers_seen ->
             status p <> ready \/ content p = None \/ content p = Some []) ->
  handleAnalysis JSON_parse generateContent extractionPrompt suggestionPrompt
                 TypeError_message papers_seen s
  = (Ok tt,
     {| appStep := appStep s; graphData := graphData s; concepts := concepts s;
        topics := topics s; isAnalyzing := isAnalyzing s;
        isGeneratingSuggestions := isGeneratingSuggestions s;
        error_text := Some no_ready_papers_message |}).
Proof.
  intros H. unfold handleAnalysis. now rewrite (no_valid_paper _ H).
Qed.

Lemma analysis_needs_a_ready_paper_witness :
  let p := {| paper_id := js "a.pdf-1"; paper_name := js "a.pdf"; status := ocr;
              content := None; message := None; progress := Some 40%N |} in
  let s := {| appStep := Upload; graphData := {| nodes := []; links := [] |};
              concepts := []; topics := VArr []; isAnalyzing := false;
              isGeneratingSuggestions := false; error_text := None |} in
  handleAnalysis parse_digit (fun _ => Ok (js "1")) (fun _ _ => []) (fun _ _ _ => [])
                 (js "TypeError") [p] s
  = (Ok tt,
     {| appStep := Upload; graphData := {| nodes := []; links := [] |};
        concepts := []; topics := VArr []; isAnalyzing := false;
        isGeneratingSuggestions := false;
        error_text := Some no_ready_papers_message |}).
Proof.
  cbv zeta.
  apply (@analysis_needs_a_ready_paper parse_digit (fun _ => Ok (js "1"))
           (fun _ _ => []) (fun _ _ _ => []) (js "TypeError")
           [{| paper_id := js "a.pdf-1"; paper_name := js "a.pdf"; status := ocr;
               content := None; message := None; progress := Some 40%N |}]
           {| appStep := Upload; graphData := {| nodes := []; links := [] |};
              concepts := []; topics := VArr []; isAnalyzing := false;
              isGeneratingSuggestions := false; error_text := None |}).
  intros p [<-|[]]. left. discriminate.
Defined.

(** X19. With at least one valid paper, [handleAnalysis] never throws and ends
    in one of three states, none of which depends on the state before; both
    progress flags are down in each. Success: step [Generate], the graph and
    the concepts of the extraction, the topics of the suggestions, no error.
    Failed extraction: step [Upload], empty graph, no concepts, no topics, an
    error text. Failed suggestions after a successful extraction: step
    [Upload] and an error text, while the extracted graph and concepts stay in
    the state. The error text is never empty, and the suggestions are asked
    for in the language detected on the texts the extraction was given. *)
Theorem handleAnalysis_outcomes
  (JSON_parse : jsstring -> result value)
  (generateContent : jsstring -> result jsstring)
  (extractionPrompt : Lang -> list jsstring -> jsstring)
  (suggestionPrompt : GraphData -> list Concept -> Lang -> jsstring)
  (TypeError_message : jsstring) (papers_seen : list Paper) (s : AppState) :
  (exists p c, In p papers_seen /\ status p = ready
               /\ content p = Some c /\ c <> []) ->
  exists s',
    handleAnalysis JSON_parse generateContent extractionPrompt suggestionPrompt
                   TypeError_message papers_seen s = (Ok tt, s')
    /\ isAnalyzing s' = false /\ isGeneratingSuggestions s' = false
    /\ let contents := map content_of (filter valid_paper papers_seen) in
       let extraction := extractCausalGraph JSON_parse generateContent
                                            extractionPrompt contents in
       let suggestions g cs :=
         generateTopicSuggestions JSON_parse generateContent suggestionPrompt
                                  g cs (detectDominantLanguage contents) in
       (exists g cs ts,
           extraction = Ok (g, cs) /\ suggestions g cs = Ok ts
           /\ s' = {| appStep := Generate; graphData := g; concepts := cs;
                      topics := ts; isAnalyzing := false;
                      isGeneratingSuggestions := false; error_text := None |})
       \/ (exists e m,
              extraction = Throw e /\ m <> []
              /\ s' = {| appStep := Upload;
                         graphData := {| nodes := []; links := [] |};
                         concepts := []; topics := VArr []; isAnalyzing := false;
                         isGeneratingSuggestions := false; error_text := Some m |})
       \/ (exists g cs e m,
              extraction = Ok (g, cs) /\ suggestions g cs = Throw e /\ m <> []
              /\ s' = {| appStep := Upload; graphData := g; concepts := cs;
                         topics := VArr []; isAnalyzing := false;
                         isGeneratingSuggestions := false; error_text := Some m |}).
Proof.
  intros (p0 & c0 & Hin & Hready & Hcontent & Hc0). unfold handleAnalysis.
  assert (Hp0 : In p0 (filter valid_paper papers_seen)).
  { apply filter_In. split; [exact Hin|]. unfold valid_paper.
    rewrite Hready, Hcontent. now destruct c0. }
  destruct (filter valid_paper papers_seen) as [|p valid] eqn:Ev; [destruct Hp0|].
  clear Hp0.
  cbn [length Nat.eqb]. cbv beta zeta.
  assert (Hm : forall e, message_or TypeError_message e analysis_failed_message <> []).
  { intros e. apply message_or_nonempty. vm_compute. discriminate. }
  unfold try_catch_finally, awaited, setIsAnalyzing, setError, setGraphData, setTopics,
    setConcepts, setAppStep, setIsGeneratingSuggestions.
  cbn [bind ret action_monad appStep graphData concepts topics isAnalyzing
       isGeneratingSuggestions error_text].
  destruct (extractCausalGraph JSON_parse generateContent extractionPrompt
              (map content_of (p :: valid))) as [[g cs]|e] eqn:Ex.
  - cbn [appStep graphData concepts topics isAnalyzing isGeneratingSuggestions
         error_text].
    destruct (generateTopicSuggestions JSON_parse generateContent suggestionPrompt
                g cs (detectDominantLanguage (map content_of (p :: valid))))
      as [ts|e] eqn:Es.
    + eexists. split; [reflexivity|]. split; [reflexivity|]. split; [reflexivity|].
      left. exists g, cs, ts. repeat split; assumption.
    + eexists. split; [reflexivity|]. split; [reflexivity|]. split; [reflexivity|].
      right. right. exists g, cs, e. eexists.
      split; [reflexivity|]. split; [exact Es|]. split; [apply Hm|reflexivity].
  - eexists. split; [reflexivity|]. split; [reflexivity|]. split; [reflexivity|].
    right. left. exists e. eexists.
    split; [reflexivity|]. split; [apply Hm|reflexivity].
Qed.

Lemma handleAnalysis_outcomes_witness :
  let p := {| paper_id := js "a.txt-1"; paper_name := js "a.txt"; status := ready;
              content := Some (repeat 97%N 120); message := Some ready_message;
              progress := None |} in
  let s := {| appStep := Visualize; graphData := {| nodes := []; links := [] |};
              concepts := []; topics := VArr [VNum (js "3")]; isAnalyzing := true;
              isGeneratingSuggestions := true; error_text := None |} in
  exists s',
    handleAnalysis parse_digit (fun _ => Ok (js "1")) (fun _ _ => [])
                   (fun _ _ _ => []) (js "TypeError") [p] s = (Ok tt, s')
    /\ isAnalyzing s' = false /\ isGeneratingSuggestions s' = false.
Proof.
  cbv zeta.
  destruct (@handleAnalysis_outcomes parse_digit (fun _ => Ok (js "1"))
              (fun _ _ => []) (fun _ _ _ => []) (js "TypeError")
              [{| paper_id := js "a.txt-1"; paper_name := js "a.txt"; status := ready;
                  content := Some (repeat 97%N 120); message := Some ready_message;
                  progress := None |}]
              {| appStep := Visualize; graphData := {| nodes := []; links := [] |};
                 concepts := []; topics := VArr [VNum (js "3")]; isAnalyzing := true;
                 isGeneratingSuggestions := true; error_text := None |})
    as (s' & Hrun & Ha & Hg & _).
  - eexists. exists (repeat 97%N 120). split; [now left|].
    split; [reflexivity|]. split; [reflexivity|]. vm_compute. discriminate.
  - exists s'. repeat split; assumption.
Defined.

(** X20. [handleGenerateNewTopics] never throws and touches only the topics,
    the error text and one flag. Without nodes in the graph it sets the error
    text and asks the model nothing. With nodes, the step, the graph, the
    concepts and the analysis flag stay as they are and the suggestions flag
    ends down; new topics replace the old ones and clear the error on success,
    and on failure the old topics stay and the error text, never empty, is
    set. *)
Theorem handleGenerateNewTopics_outcomes
  (JSON_parse : jsstring -> result value)
  (generateContent : jsstring -> result jsstring)
  (suggestionPrompt : GraphData -> list Concept -> Lang -> jsstring)
  (TypeError_message : jsstring) (graph_seen : GraphData)
  (concepts_seen : list Concept) (papers_seen : list Paper) (s : AppState) :
  exists s',
    handleGenerateNewTopics JSON_parse generateContent suggestionPrompt
                            TypeError_message graph_seen concepts_seen papers_seen s
    = (Ok tt, s')
    /\ appStep s' = appStep s /\ graphData s' = graphData s
    /\ concepts s' = concepts s /\ isAnalyzing s' = isAnalyzing s
    /\ (nodes graph_seen = [] ->
        topics s' = topics s
        /\ isGeneratingSuggestions s' = isGeneratingSuggestions s
        /\ error_text s' = Some no_graph_message)
    /\ (nodes graph_seen <> [] ->
        isGeneratingSuggestions s' = false
        /\ match generateTopicSuggestions JSON_parse generateContent
                   suggestionPrompt graph_seen concepts_seen
                   (detectDominantLanguage
                      (map content_of (filter valid_paper papers_seen))) with
           | Ok newTopics => topics s' = newTopics /\ error_text s' = None
           | Throw e => topics s' = topics s
                        /\ exists m, error_text s' = Some m /\ m <> []
           end).
Proof.
  unfold handleGenerateNewTopics.
  destruct (nodes graph_seen) as [|n ns].
  - eexists. split; [reflexivity|]. cbn. repeat split; congruence.
  - cbn [length Nat.eqb]. cbv zeta.
    unfold try_catch_finally, awaited, setError, setTopics, setIsGeneratingSuggestions.
    cbn [bind ret action_monad appStep graphData concepts topics isAnalyzing
         isGeneratingSuggestions error_text].
    destruct (generateTopicSuggestions JSON_parse generateContent suggestionPrompt
                graph_seen concepts_seen
                (detectDominantLanguage
                   (map content_of (filter valid_paper papers_seen)))) as [ts|e].
    + eexists. split; [reflexivity|]. cbn. repeat split; congruence.
    + eexists. split; [reflexivity|]. cbn.
      repeat split; try congruence. eexists. split; [reflexivity|].
      apply message_or_nonempty. vm_compute. discriminate.
Qed.

End AnalysisSteps.

(* ================================================================== *)
(** * components/ClusterPanel.tsx: editing the concept clusters *)
(* ================================================================== *)

Section ClusterEdits.
Import GeminiService ClusterPanel.

Local Open Scope N_scope.

(** ** Collapsing *)
Lemma set_has_delete (k x : value) (s : jsset) :
  set_has (set_delete k s) x = set_has s x && negb (same_value_zero x k).
Proof.
  unfold set_has, set_delete.
  induction s as [|k' s IH]; cbn [filter existsb]; [reflexivity|].
  destruct (same_value_zero k' x) eqn:Ex.
  - pose proof (same_value_zero_eq _ _ Ex) as ->.
    destruct (same_value_zero x k) eqn:Ek; cbn [negb existsb orb andb].
    + rewrite IH. now rewrite andb_false_r.
    + now rewrite Ex.
  - cbn [orb]. destruct (same_value_zero k' k); cbn [negb existsb]; rewrite ?Ex; exact IH.
Qed.

Lemma set_has_copy (items : jsset) (id : jsstring) :
  set_has (Set_of items) (VStr id) = set_has items (VStr id).
Proof. apply set_has_Set_of. apply str_eqb_refl. Qed.

(** X21. [toggleCollapse] flips one concept and no other: afterwards the set
    holds the identifier exactly when it did not before, every other
    identifier is in the set exactly when it was, and toggling the same
    concept twice gives back the membership of every identifier. *)
Theorem toggleCollapse_flips_one (conceptId other : jsstring) (prev : jsset) :
  set_has (toggleCollapse conceptId prev) (VStr conceptId)
  = negb (set_has prev (VStr conceptId))
  /\ (other <> conceptId ->
      set_has (toggleCollapse conceptId prev) (VStr other) = set_has prev (VStr other))
  /\ set_has (toggleCollapse conceptId (toggleCollapse conceptId prev)) (VStr other)
     = set_has prev (VStr other).
Proof.
  assert (F : forall (s : jsset) (x : jsstring),
             set_has (toggleCollapse conceptId s) (VStr x)
             = if str_eqb x conceptId then negb (set_has s (VStr conceptId))
               else set_has s (VStr x)).
  { intros s x. unfold toggleCollapse. cbv zeta. rewrite set_has_copy.
    destruct (set_has s (VStr conceptId)) eqn:E.
    - rewrite set_has_delete, set_has_copy. cbn [same_value_zero].
      destruct (str_eqb x conceptId) eqn:Ex; cbn [negb].
      + now rewrite andb_false_r.
      + now rewrite andb_true_r.
    - rewrite set_has_add by apply str_eqb_refl. rewrite set_has_copy.
      cbn [same_value_zero]. rewrite (str_eqb_sym conceptId x).
      destruct (str_eqb x conceptId) eqn:Ex; cbn [negb].
      + now rewrite orb_true_r.
      + now rewrite orb_false_r. }
  split; [|split].
  - rewrite F. now rewrite str_eqb_refl.
  - intros Hne. rewrite F. apply str_eqb_neq in Hne. now rewrite Hne.
  - rewrite !F. rewrite str_eqb_refl.
    destruct (str_eqb other conceptId) eqn:E; [|reflexivity].
    apply str_eqb_eq in E as ->. apply negb_involutive.
Qed.

(** ** Adding and deleting a concept *)

(** X22. Deleting the concept that [handleAddConcept] has just added gives
    back the list as it was, provided the earlier identifiers carry stamps
    below the clock's reading: the new concept stands at the end, and its
    identifier is no one else's. *)
Theorem deleteConcept_undoes_handleAddConcept (input : option jsstring) (now : N)
  (concepts concepts' : list Concept) :
  Forall (stamped_before now) (map concept_id concepts) ->
  handleAddConcept input now concepts = Some concepts' ->
  exists added,
    concepts' = concepts ++ [added]
    /\ children added = []
    /\ deleteConcept (concept_id added) concepts' = concepts.
Proof.
  intros Hstamped H. unfold handleAddConcept in H.
  destruct (option_map trim input) as [name|]; [|discriminate].
  destruct (negb (is_empty name)); [|discriminate].
  injection H as <-. eexists. split; [reflexivity|]. split; [reflexivity|].
  cbn [concept_id]. unfold deleteConcept. rewrite filter_app.
  cbn [filter concept_id]. rewrite str_eqb_refl. cbn [negb]. rewrite app_nil_r.
  rewrite Forall_map in Hstamped.
  induction concepts as [|c l IH]; cbn [filter]; [reflexivity|].
  inversion Hstamped as [|? ? Hc Hl]; subst.
  destruct (str_eqb (concept_id c) (name ++ dash :: decimal now)) eqn:E.
  - apply str_eqb_eq in E. rewrite E in Hc.
    exfalso. now apply (@stamp_clash now name now (N.le_refl now)).
  - cbn [negb]. f_equal. now apply IH.
Qed.

Lemma deleteConcept_undoes_handleAddConcept_witness :
  let old := {| concept_id := js "Trust-0"; concept_name := VStr (js "Trust");
                children := [] |} in
  exists added,
    [old; {| concept_id := js "Risk-1700000000000"; concept_name := VStr (js "Risk");
             children := [] |}] = [old] ++ [added]
    /\ children added = []
    /\ deleteConcept (concept_id added)
                     [old; {| concept_id := js "Risk-1700000000000";
                              concept_name := VStr (js "Risk"); children := [] |}]
       = [old].
Proof.
  cbv zeta.
  apply (@deleteConcept_undoes_handleAddConcept (Some (js " Risk ")) 1700000000000
           [{| concept_id := js "Trust-0"; concept_name := VStr (js "Trust");
               children := [] |}]).
  - constructor; [|constructor]. exists (js "Trust"), 0. split; [reflexivity|lia].
  - vm_compute. reflexivity.
Defined.

(** ** Removing a variable from a concept *)
Lemma strict_equals_eq (a b : value) : strict_equals a b = true -> a = b.
Proof.
  destruct a, b; cbn; try discriminate; try reflexivity; intros H.
  - f_equal. now destruct b, b0.
  - apply andb_prop in H as [H _]. apply str_eqb_eq in H. now subst.
  - apply str_eqb_eq in H. now subst.
Qed.

Lemma without_node_twice (nodeId : value) (l : list GraphNode) :
  without_node nodeId (without_node nodeId l) = without_node nodeId l.
Proof.
  unfold without_node. induction l as [|n l IH]; cbn [filter]; [reflexivity|].
  destruct (negb (strict_equals (node_id n) nodeId)) eqn:E; [|exact IH].
  cbn [filter]. now rewrite E, IH.
Qed.

Lemma without_node_swap (a b : value) (l : list GraphNode) :
  without_node a (without_node b l) = without_node b (without_node a l).
Proof.
  unfold without_node. induction l as [|n l IH]; cbn [filter]; [reflexivity|].
  destruct (negb (strict_equals (node_id n) b)) eqn:Eb;
    destruct (negb (strict_equals (node_id n) a)) eqn:Ea;
    cbn [filter]; rewrite ?Ea, ?Eb, IH; reflexivity.
Qed.

(** X23. [removeNodeFromConcept] takes a variable out of one concept and does
    nothing else. The concepts keep their identifiers, names and order; a
    concept with the given identifier keeps its other variables in order and
    has none with the given (string) identifier left; every other concept is
    unchanged. Doing it twice is doing it once, and two removals can be done
    in either order. *)
Theorem removeNodeFromConcept_removes_one_variable (nodeId : jsstring)
  (conceptId : jsstring) (concepts : list Concept) :
  map concept_id (removeNodeFromConcept (VStr nodeId) conceptId concepts)
  = map concept_id concepts
  /\ map concept_name (removeNodeFromConcept (VStr nodeId) conceptId concepts)
     = map concept_name concepts
  /\ (forall c' child,
        In c' (removeNodeFromConcept (VStr nodeId) conceptId concepts) ->
        concept_id c' = conceptId -> In child (children c') ->
        node_id child <> VStr nodeId)
  /\ (forall i c,
        nth_error concepts i = Some c ->
        exists c',
          nth_error (removeNodeFromConcept (VStr nodeId) conceptId concepts) i = Some c'
          /\ (concept_id c <> conceptId -> c' = c)
          /\ forall child,
              In child (children c) -> node_id child <> VStr nodeId ->
              In child (children c'))
  /\ removeNodeFromConcept (VStr nodeId) conceptId
       (removeNodeFromConcept (VStr nodeId) conceptId concepts)
     = removeNodeFromConcept (VStr nodeId) conceptId concepts
  /\ (forall nodeId' conceptId',
        removeNodeFromConcept (VStr nodeId) conceptId
          (removeNodeFromConcept nodeId' conceptId' concepts)
        = removeNodeFromConcept nodeId' conceptId'
            (removeNodeFromConcept (VStr nodeId) conceptId concepts)).
Proof.
  unfold removeNodeFromConcept. split; [|split; [|split; [|split; [|split]]]].
  - rewrite map_map. apply map_ext. intros c. now destruct (str_eqb _ _).
  - rewrite map_map. apply map_ext. intros c. now destruct (str_eqb _ _).
  - intros c' child Hin Hid Hchild E. apply in_map_iff in Hin as (c & <- & _).
    destruct (str_eqb (concept_id c) conceptId) eqn:Ec.
    + cbn [children with_children] in Hchild. unfold without_node in Hchild.
      apply filter_In in Hchild as [_ Hne]. rewrite E in Hne.
      cbn [strict_equals] in Hne. now rewrite str_eqb_refl in Hne.
    + apply str_eqb_neq in Ec. now apply Ec.
  - intros i c Hi. rewrite nth_error_map, Hi. cbn [option_map].
    eexists. split; [reflexivity|]. split.
    + intros Hne. apply str_eqb_neq in Hne. now rewrite Hne.
    + intros child Hin Hne. destruct (str_eqb (concept_id c) conceptId); [|exact Hin].
      cbn [children with_children]. unfold without_node. apply filter_In.
      split; [exact Hin|]. destruct (strict_equals (node_id child) (VStr nodeId)) eqn:E;
        [|reflexivity].
      apply strict_equals_eq in E. congruence.
  - rewrite map_map. apply map_ext. intros c.
    destruct (str_eqb (concept_id c) conceptId) eqn:Ec; cbn [concept_id with_children];
      rewrite Ec; [|reflexivity].
    unfold with_children. cbn [concept_id concept_name children].
    now rewrite without_node_twice.
  - intros nodeId' conceptId'. rewrite !map_map. apply map_ext. intros c.
    destruct (str_eqb (concept_id c) conceptId) eqn:Ec;
      destruct (str_eqb (concept_id c) conceptId') eqn:Ec';
      cbn [concept_id with_children]; rewrite ?Ec, ?Ec'; try reflexivity.
    unfold with_children. cbn [concept_id concept_name children].
    now rewrite without_node_swap.
Qed.

(** ** Moving a variable between concepts *)
Lemma update_found_map (k : jsstring) (f : list GraphNode -> list GraphNode)
  (l : list Concept) :
  NoDup (map concept_id l) ->
  update_found (fun c => str_eqb (concept_id c) k) f l
  = map (fun c => if str_eqb (concept_id c) k
                  then with_children c (f (children c)) else c) l.
Proof.
  induction l as [|c l IH]; intros Hnd; cbn [update_found map]; [reflexivity|].
  inversion Hnd as [|? ? Hc Hl]; subst.
  destruct (str_eqb (concept_id c) k) eqn:E.
  - f_equal. apply str_eqb_eq in E. subst k.
    clear - Hc. induction l as [|c' l IH]; cbn [map]; [reflexivity|].
    cbn [map In] in Hc.
    destruct (str_eqb (concept_id c') (concept_id c)) eqn:E.
    + apply str_eqb_eq in E. exfalso. apply Hc. now left.
    + f_equal. apply IH. intros H. apply Hc. now right.
  - f_equal. now apply IH.
Qed.

Lemma handleNodeDrop_map (d : DraggedNode) (targetConceptId : jsstring)
  (concepts : list Concept) :
  sourceConceptId d <> targetConceptId ->
  NoDup (map concept_id concepts) ->
  handleNodeDrop (Some d) targetConceptId concepts
  = Some (map (dropped d targetConceptId) concepts).
Proof.
  intros Hne Hnd. unfold handleNodeDrop.
  apply str_eqb_neq in Hne. rewrite Hne. cbv zeta. f_equal.
  rewrite (@update_found_map _ _ _ Hnd). rewrite update_found_map.
  - rewrite map_map. apply map_ext. intros c. unfold dropped.
    destruct (str_eqb (concept_id c) (sourceConceptId d)) eqn:Es.
    + cbn [concept_id with_children].
      apply str_eqb_eq in Es. rewrite Es, Hne. reflexivity.
    + reflexivity.
  - rewrite map_map. erewrite map_ext; [exact Hnd|].
    intros c. cbv beta. now destruct (str_eqb (concept_id c) (sourceConceptId d)).
Qed.

(** X24. [handleNodeDrop] moves the dragged variable and touches nothing
    else. With pairwise distinct concept identifiers and a target other than
    the source, every concept keeps its place, identifier and name; the target
    gets the variable as its last child; the source loses the children with
    the variable's identifier and keeps the others; every other concept is
    unchanged. *)
Theorem handleNodeDrop_moves_the_variable (d : DraggedNode)
  (targetConceptId : jsstring) (concepts : list Concept) :
  sourceConceptId d <> targetConceptId ->
  NoDup (map concept_id concepts) ->
  string_id (dragged_node d) ->
  exists newConcepts,
    handleNodeDrop (Some d) targetConceptId concepts = Some newConcepts
    /\ map concept_id newConcepts = map concept_id concepts
    /\ map concept_name newConcepts = map concept_name concepts
    /\ forall i c,
        nth_error concepts i = Some c ->
        exists c',
          nth_error newConcepts i = Some c'
          /\ (concept_id c = targetConceptId ->
              children c' = children c ++ [dragged_node d])
          /\ (concept_id c = sourceConceptId d ->
              children c' = without_node (node_id (dragged_node d)) (children c)
              /\ forall child, In child (children c') ->
                               node_id child <> node_id (dragged_node d))
          /\ (concept_id c <> sourceConceptId d ->
              concept_id c <> targetConceptId -> c' = c).
Proof.
  intros Hne Hnd [id Hid0]. exists (map (dropped d targetConceptId) concepts).
  split; [now apply handleNodeDrop_map|].
  assert (Hid : forall c, concept_id (dropped d targetConceptId c) = concept_id c).
  { intros c. unfold dropped. now repeat destruct (str_eqb _ _). }
  assert (Hname : forall c, concept_name (dropped d targetConceptId c) = concept_name c).
  { intros c. unfold dropped. now repeat destruct (str_eqb _ _). }
  split; [rewrite map_map; now apply map_ext|].
  split; [rewrite map_map; now apply map_ext|].
  intros i c Hi. rewrite nth_error_map, Hi. cbn [option_map].
  eexists. split; [reflexivity|]. unfold dropped. split; [|split].
  - intros ->. rewrite (str_eqb_sym targetConceptId).
    apply str_eqb_neq in Hne. now rewrite Hne, str_eqb_refl.
  - intros ->. rewrite str_eqb_refl. split; [reflexivity|].
    cbn [children with_children]. intros child Hin E.
    unfold without_node in Hin. apply filter_In in Hin as [_ Hf].
    rewrite E, Hid0 in Hf. cbn [strict_equals] in Hf. now rewrite str_eqb_refl in Hf.
  - intros Hs Ht. apply str_eqb_neq in Hs, Ht. now rewrite Hs, Ht.
Qed.

Lemma handleNodeDrop_moves_the_variable_witness :
  let x := {| node_id := VStr (js "x"); isCore := VBool true;
              group := VStr (js "A") |} in
  let a := {| concept_id := js "A-0"; concept_name := VStr (js "A");
              children := [x] |} in
  let b := {| concept_id := js "B-1"; concept_name := VStr (js "B");
              children := [] |} in
  exists newConcepts,
    handleNodeDrop (Some {| dragged_node := x; sourceConceptId := js "A-0" |})
                   (js "B-1") [a; b] = Some newConcepts
    /\ map concept_id newConcepts = map concept_id [a; b].
Proof.
  cbv zeta.
  destruct (@handleNodeDrop_moves_the_variable
              {| dragged_node := {| node_id := VStr (js "x"); isCore := VBool true;
                                    group := VStr (js "A") |};
                 sourceConceptId := js "A-0" |}
              (js "B-1")
              [{| concept_id := js "A-0"; concept_name := VStr (js "A");
                  children := [{| node_id := VStr (js "x"); isCore := VBool true;
                                  group := VStr (js "A") |}] |};
               {| concept_id := js "B-1"; concept_name := VStr (js "B");
                  children := [] |}])
    as (newConcepts & Hrun & Hids & _).
  - vm_compute. discriminate.
  - vm_compute. constructor.
    + intros [E|[]]. discriminate.
    + constructor; [intros []|constructor].
  - now exists (js "x").
  - exists newConcepts. now split.
Defined.

Lemma without_node_takes_one (n : GraphNode) (l : list GraphNode) :
  string_id n -> In n l -> NoDup (map node_id l) ->
  Permutation (n :: without_node (node_id n) l) l.
Proof.
  intros [id Hid] Hin Hnd. unfold without_node.
  induction l as [|x l IH]; [destruct Hin|].
  cbn [map] in Hnd. inversion Hnd as [|? ? Hx Hl]; subst. cbn [filter].
  destruct Hin as [->|Hin].
  - rewrite Hid. cbn [strict_equals]. rewrite str_eqb_refl. cbn [negb].
    apply perm_skip. rewrite <- Hid.
    clear - Hx. induction l as [|y l IH]; cbn [filter]; [constructor|].
    cbn [map In] in Hx.
    destruct (strict_equals (node_id y) (node_id n)) eqn:E.
    + apply strict_equals_eq in E. exfalso. apply Hx. now left.
    + cbn [negb]. apply perm_skip. apply IH. intros H. apply Hx. now right.
  - destruct (strict_equals (node_id x) (node_id n)) eqn:E.
    + apply strict_equals_eq in E. exfalso. apply Hx. rewrite E. now apply in_map.
    + cbn [negb]. etransitivity; [apply perm_swap|]. apply perm_skip. now apply IH.
Qed.

Lemma perm_rotate {X} (a b r : list X) (n : X) :
  Permutation (a ++ (b ++ [n]) ++ r) (n :: b ++ a ++ r).
Proof.
  rewrite <- !app_assoc. cbn [app]. rewrite (app_assoc a b).
  rewrite <- Permutation_middle. apply perm_skip.
  rewrite (app_assoc b a). apply Permutation_app_tail. apply Permutation_app_comm.
Qed.

Lemma dropped_conserves (d : DraggedNode) (targetConceptId : jsstring)
  (concepts : list Concept) :
  sourceConceptId d <> targetConceptId ->
  NoDup (map concept_id concepts) ->
  (forall c, In c concepts -> concept_id c = sourceConceptId d ->
             Permutation (dragged_node d
                          :: without_node (node_id (dragged_node d)) (children c))
                         (children c)) ->
  Permutation
    ((if existsb (fun c => str_eqb (concept_id c) (sourceConceptId d)) concepts
      then [dragged_node d] else [])
     ++ flat_map children (map (dropped d targetConceptId) concepts))
    ((if existsb (fun c => str_eqb (concept_id c) targetConceptId) concepts
      then [dragged_node d] else [])
     ++ flat_map children concepts).
Proof.
  intros Hne Hnd Hsrc. induction concepts as [|c l IH]; [reflexivity|].
  cbn [map] in Hnd. inversion Hnd as [|? ? Hc Hl]; subst.
  specialize (IH Hl (fun c' H => Hsrc c' (or_intror H))).
  assert (Hnone : forall k, concept_id c = k ->
                            existsb (fun c' => str_eqb (concept_id c') k) l = false).
  { intros k <-. apply not_true_is_false. intros E.
    apply existsb_exists in E as (c' & Hin & E). apply str_eqb_eq in E.
    apply Hc. rewrite <- E. now apply in_map. }
  cbn [existsb map flat_map]. unfold dropped at 1.
  destruct (str_eqb (concept_id c) (sourceConceptId d)) eqn:Es.
  - apply str_eqb_eq in Es.
    assert (Et : str_eqb (concept_id c) targetConceptId = false).
    { apply str_eqb_neq. congruence. }
    rewrite Et. cbn [orb children with_children].
    rewrite (Hnone _ Es) in IH. cbn [app] in IH |- *.
    transitivity (children c ++ flat_map children (map (dropped d targetConceptId) l)).
    + rewrite app_comm_cons. apply Permutation_app_tail.
      now apply (Hsrc c (or_introl eq_refl)).
    + rewrite IH. apply Permutation_app_swap_app.
  - cbn [orb]. destruct (str_eqb (concept_id c) targetConceptId) eqn:Et.
    + apply str_eqb_eq in Et. rewrite (Hnone _ Et) in IH.
      cbn [orb children with_children app] in IH |- *.
      rewrite <- IH. apply perm_rotate.
    + cbn [orb].
      etransitivity; [apply Permutation_app_swap_app|].
      etransitivity; [|apply Permutation_app_swap_app].
      now apply Permutation_app_head.
Qed.

(** X25. A drop loses no variable and makes no copy. When the concept
    identifiers are pairwise distinct, the source and the target are two
    concepts of the list, and the dragged variable is a child of the source,
    whose children have pairwise distinct identifiers, then the variables of
    all concepts together are the same after the drop as before, each as often
    as before. *)
Theorem handleNodeDrop_keeps_every_variable (d : DraggedNode)
  (targetConceptId : jsstring) (concepts : list Concept) (source : Concept) :
  sourceConceptId d <> targetConceptId ->
  NoDup (map concept_id concepts) ->
  In source concepts -> concept_id source = sourceConceptId d ->
  In targetConceptId (map concept_id concepts) ->
  string_id (dragged_node d) ->
  In (dragged_node d) (children source) ->
  NoDup (map node_id (children source)) ->
  exists newConcepts,
    handleNodeDrop (Some d) targetConceptId concepts = Some newConcepts
    /\ Permutation (flat_map children newConcepts) (flat_map children concepts).
Proof.
  intros Hne Hnd Hsrc Hsid Htgt Hstr Hchild Hids.
  exists (map (dropped d targetConceptId) concepts).
  split; [now apply handleNodeDrop_map|].
  pose proof (@dropped_conserves d targetConceptId concepts Hne Hnd) as P.
  assert (Hs : existsb (fun c => str_eqb (concept_id c) (sourceConceptId d)) concepts
               = true).
  { apply existsb_exists. exists source. split; [exact Hsrc|now apply str_eqb_eq]. }
  assert (Ht : existsb (fun c => str_eqb (concept_id c) targetConceptId) concepts
               = true).
  { apply in_map_iff in Htgt as (c & E & Hin). apply existsb_exists.
    exists c. split; [exact Hin|now apply str_eqb_eq]. }
  rewrite Hs, Ht in P. cbn [app] in P.
  apply Permutation_cons_inv with (a := dragged_node d). apply P.
  intros c Hin Hc.
  assert (c = source) as ->.
  { clear - Hnd Hin Hsrc Hc Hsid. rewrite <- Hsid in Hc.
    induction concepts as [|x l IH]; [destruct Hin|].
    cbn [map] in Hnd. inversion Hnd as [|? ? Hx Hl]; subst.
    destruct Hin as [->|Hin], Hsrc as [->|Hsrc]; try reflexivity.
    - exfalso. apply Hx. rewrite Hc. now apply in_map.
    - exfalso. apply Hx. rewrite <- Hc. now apply in_map.
    - now apply IH. }
  now apply without_node_takes_one.
Qed.

Lemma handleNodeDrop_keeps_every_variable_witness :
  let x := {| node_id := VStr (js "x"); isCore := VBool true;
              group := VStr (js "A") |} in
  let y := {| node_id := VStr (js "y"); isCore := VBool false;
              group := VStr (js "A") |} in
  let a := {| concept_id := js "A-0"; concept_name := VStr (js "A");
              children := [x; y] |} in
  let b := {| concept_id := js "B-1"; concept_name := VStr (js "B");
              children := [] |} in
  exists newConcepts,
    handleNodeDrop (Some {| dragged_node := x; sourceConceptId := js "A-0" |})
                   (js "B-1") [b; a] = Some newConcepts
    /\ Permutation (flat_map children newConcepts) (flat_map children [b; a]).
Proof.
  cbv zeta.
  apply (@handleNodeDrop_keeps_every_variable
           {| dragged_node := {| node_id := VStr (js "x"); isCore := VBool true;
                                 group := VStr (js "A") |};
              sourceConceptId := js "A-0" |}
           (js "B-1")
           [{| concept_id := js "B-1"; concept_name := VStr (js "B");
               children := [] |};
            {| concept_id := js "A-0"; concept_name := VStr (js "A");
               children := [{| node_id := VStr (js "x"); isCore := VBool true;
                               group := VStr (js "A") |};
                            {| node_id := VStr (js "y"); isCore := VBool false;
                               group := VStr (js "A") |}] |}]
           {| concept_id := js "A-0"; concept_name := VStr (js "A");
              children := [{| node_id := VStr (js "x"); isCore := VBool true;
                              group := VStr (js "A") |};
                           {| node_id := VStr (js "y"); isCore := VBool false;
                              group := VStr (js "A") |}] |}).
  - vm_compute. discriminate.
  - vm_compute. constructor.
    + intros [E|[]]. discriminate.
    + constructor; [intros []|constructor].
  - right. now left.
  - reflexivity.
  - now left.
  - now exists (js "x").
  - now left.
  - vm_compute. constructor.
    + intros [E|[]]. discriminate.
    + constructor; [intros []|constructor].
Defined.

(** ** Reordering the concepts *)

(** X26. [handleConceptDrop] reorders and nothing more. When the dragged
    index is a position of the list and differs from the target index, the
    array handed on holds the same concepts, none of them [undefined]: the
    concept that stood at the dragged index now stands at the target index
    (at the last position when the target index lies beyond it), and the
    other concepts keep their order. The concept moved is the one at the
    dragged index; the identifier recorded with the drag is not consulted. *)
Theorem handleConceptDrop_reorders (d : DraggedConcept) (targetIndex : nat)
  (concepts : list Concept) :
  (dragged_index d < length concepts)%nat ->
  dragged_index d <> targetIndex ->
  exists moved newConcepts,
    nth_error concepts (dragged_index d) = Some moved
    /\ handleConceptDrop (Some d) targetIndex concepts = Some (map Some newConcepts)
    /\ Permutation newConcepts concepts
    /\ nth_error newConcepts (Nat.min targetIndex (length concepts - 1)) = Some moved
    /\ firstn (Nat.min targetIndex (length concepts - 1)) newConcepts
       ++ skipn (S (Nat.min targetIndex (length concepts - 1))) newConcepts
       = firstn (dragged_index d) concepts ++ skipn (S (dragged_index d)) concepts.
Proof.
  intros Hlt Hne.
  destruct (nth_error concepts (dragged_index d)) as [moved|] eqn:Hi;
    [|apply nth_error_None in Hi; lia].
  apply nth_error_split in Hi as (l1 & l2 & -> & Hlen).
  symmetry in Hlen. rewrite Hlen in Hlt, Hne |- *.
  assert (F1 : firstn (length l1) (l1 ++ moved :: l2) = l1).
  { rewrite firstn_app, firstn_all, Nat.sub_diag. cbn [firstn]. apply app_nil_r. }
  assert (F2 : skipn (length l1) (l1 ++ moved :: l2) = moved :: l2).
  { rewrite skipn_app, skipn_all, Nat.sub_diag. reflexivity. }
  assert (F3 : skipn (S (length l1)) (l1 ++ moved :: l2) = l2).
  { rewrite skipn_app, skipn_all2 by lia.
    replace (S (length l1) - length l1)%nat with 1%nat by lia. reflexivity. }
  assert (Hrest : length (l1 ++ l2) = (length (l1 ++ moved :: l2) - 1)%nat).
  { rewrite !length_app. cbn [length]. lia. }
  rewrite F1, F3. rewrite <- Hrest.
  set (rest := l1 ++ l2). set (t := Nat.min targetIndex (length rest)).
  assert (Ht : length (firstn t rest) = t).
  { rewrite length_firstn. unfold t. lia. }
  exists moved, (firstn t rest ++ moved :: skipn t rest).
  split; [reflexivity|]. split; [|split; [|split]].
  - unfold handleConceptDrop. rewrite Hlen.
    apply Nat.eqb_neq in Hne. rewrite Hne. unfold splice.
    rewrite length_map, (Nat.min_l (length l1)) by lia.
    rewrite Nat.add_1_r, !skipn_map, !firstn_map, F1, F2, F3.
    cbn [firstn map app]. rewrite <- map_app. fold rest.
    rewrite length_map. fold t.
    rewrite Nat.add_0_r, skipn_map, firstn_map.
    f_equal. rewrite map_app. reflexivity.
  - rewrite <- !Permutation_middle. apply perm_skip.
    unfold rest. now rewrite firstn_skipn.
  - rewrite nth_error_app2 by lia. now rewrite Ht, Nat.sub_diag.
  - rewrite firstn_app, Ht, Nat.sub_diag, firstn_O, app_nil_r.
    rewrite <- Ht at 1. rewrite firstn_all.
    rewrite skipn_app, Ht, skipn_all2 by lia.
    replace (S t - t)%nat with 1%nat by lia. cbn [app skipn].
    apply firstn_skipn.
Qed.

Lemma handleConceptDrop_reorders_witness :
  let a := {| concept_id := js "A-0"; concept_name := VStr (js "A"); children := [] |} in
  let b := {| concept_id := js "B-1"; concept_name := VStr (js "B"); children := [] |} in
  let c := {| concept_id := js "C-2"; concept_name := VStr (js "C"); children := [] |} in
  exists moved newConcepts,
    nth_error [a; b; c] 0 = Some moved
    /\ handleConceptDrop (Some {| dragged_conceptId := js "A-0"; dragged_index := 0 |})
                         2 [a; b; c] = Some (map Some newConcepts)
    /\ Permutation newConcepts [a; b; c].
Proof.
  cbv zeta.
  destruct (@handleConceptDrop_reorders
              {| dragged_conceptId := js "A-0"; dragged_index := 0 |} 2
              [{| concept_id := js "A-0"; concept_name := VStr (js "A");
                  children := [] |};
               {| concept_id := js "B-1"; concept_name := VStr (js "B");
                  children := [] |};
               {| concept_id := js "C-2"; concept_name := VStr (js "C");
                  children := [] |}])
    as (moved & newConcepts & Hm & Hrun & Hperm & _).
  - cbn. lia.
  - cbn. lia.
  - exists moved, newConcepts. repeat split; assumption.
Defined.

End ClusterEdits.
